(** * Mention resolution and markup injection of teams-mcp

    A shallow embedding of the mention pipeline of the repository:

    - [src/types/mentions.ts]: the mention types, the two type guards and
      [convertMentionInputsToMappings];
    - [src/tools/teams.ts]: [validateChannelIdFormat], the refinement of
      [mentionsSchema] and the normalisation loop of [send_channel_message];
    - [src/utils/users.ts]: [escapeRegex] and [processMentionsInHtml].

    JavaScript strings are modelled by [string]; a code unit is an [ascii]
    character.  An optional property of an object is an [option]: [None] is
    the absent property.  A computation that may throw returns a
    [Completion].  The regular expressions of the code are run by a
    backtracking matcher on their syntax trees; the one pattern built at
    run time goes through a reader of pattern texts first.  The directory
    service and the console of the handler are explicit state. *)

From Stdlib Require Import Strings.String Strings.Ascii Lists.List Arith.Arith
  Bool.Bool Numbers.DecimalString micromega.Lia.
Import ListNotations.

Local Open Scope list_scope.
Local Open Scope string_scope.

Set Implicit Arguments.

(* ================================================================== *)
(** * JavaScript values and completions *)

(** The double quote character, written by its decimal code. *)
Definition dquote : ascii := "034"%char.

(** One-character string. *)
Definition chr (c : ascii) : string := String c EmptyString.

(** The result of running code that may throw. *)
Inductive Completion (A : Type) : Type :=
| Normal (value : A)
| Throw (message : string).

Arguments Normal {A} value.
Arguments Throw {A} message.

Definition bindC {A B : Type} (c : Completion A) (k : A -> Completion B)
  : Completion B :=
  match c with
  | Normal a => k a
  | Throw e => Throw e
  end.

(** [ToBoolean] of an optional string property: [undefined] and the empty
    string are falsy, every other string is truthy. *)
Definition truthy (v : option string) : bool :=
  match v with
  | None => false
  | Some s => negb (s =? EmptyString)
  end.

(** [a || b] on a possibly absent string [a] with a string default [b]. *)
Definition or_else (a : option string) (b : string) : string :=
  match a with
  | Some s => if s =? EmptyString then b else s
  | None => b
  end.

(** [array.push(a)] *)
Definition push {A : Type} (array : list A) (a : A) : list A :=
  (array ++ [a])%list.

(** [String(n)] of an array index: its decimal digits. *)
Definition string_of_index (n : nat) : string :=
  NilEmpty.string_of_uint (Nat.to_uint n).

(** [s.startsWith(p)], returning what follows the prefix. *)
Fixpoint strip_prefix (p s : string) : option string :=
  match p with
  | EmptyString => Some s
  | String a p' =>
      match s with
      | EmptyString => None
      | String b s' => if Ascii.eqb b a then strip_prefix p' s' else None
      end
  end.

(** [s.includes(c)] for a single character. *)
Fixpoint contains_char (c : ascii) (s : string) : bool :=
  match s with
  | EmptyString => false
  | String a s' => Ascii.eqb a c || contains_char c s'
  end.

(* ================================================================== *)
(** * src/types/mentions.ts *)

(** [MentionInput]: the input of API consumers. *)
Module MentionInput.
Record t : Type := mk {
  mention : string;
  userId : option string;
  channelId : option string
}.
End MentionInput.

(** [MentionMapping = UserMentionMapping | ChannelMentionMapping], as the
    object it is at run time: the guards test which properties it has. *)
Module MentionMapping.
Record t : Type := mk {
  mention : string;
  userId : option string;
  channelId : option string;
  displayName : string
}.
End MentionMapping.

(** [GraphMention = UserMention | ChannelMention]. *)
Module GraphMention.
Inductive Mentioned : Type :=
| user (id : option string)
| conversation (id : option string) (displayName : string)
    (conversationIdentityType : string).

Record t : Type := mk {
  id : nat;
  mentionText : string;
  mentioned : Mentioned
}.
End GraphMention.

(** ["userId" in mapping] *)
Definition isUserMentionMapping (mapping : MentionMapping.t) : bool :=
  match MentionMapping.userId mapping with
  | Some _ => true
  | None => false
  end.

(** ["channelId" in mapping] *)
Definition isChannelMentionMapping (mapping : MentionMapping.t) : bool :=
  match MentionMapping.channelId mapping with
  | Some _ => true
  | None => false
  end.

(** The callback of [inputs.map] in [convertMentionInputsToMappings]. *)
Definition convertMentionInput (input : MentionInput.t)
  : Completion MentionMapping.t :=
  if truthy (MentionInput.userId input) then
    Normal (MentionMapping.mk (MentionInput.mention input)
              (MentionInput.userId input) None (MentionInput.mention input))
  else if truthy (MentionInput.channelId input) then
    Normal (MentionMapping.mk (MentionInput.mention input)
              None (MentionInput.channelId input) (MentionInput.mention input))
  else
    Throw ("Invalid mention: " ++ chr dquote ++ MentionInput.mention input
             ++ chr dquote ++ " must have either userId or channelId").

(** [Array.prototype.map] with a callback that may throw: the first
    exception ends the traversal. *)
Fixpoint mapC {A B : Type} (f : A -> Completion B) (l : list A)
  : Completion (list B) :=
  match l with
  | [] => Normal []
  | a :: l' =>
      bindC (f a) (fun b => bindC (mapC f l') (fun bs => Normal (b :: bs)))
  end.

Definition convertMentionInputsToMappings (inputs : list MentionInput.t)
  : Completion (list MentionMapping.t) :=
  mapC convertMentionInput inputs.

(* ================================================================== *)
(** * src/tools/teams.ts: the schema refinement *)

(** The predicate given to [mentions.every] in [mentionsSchema]. *)
Definition mentionsSchema_element (m : MentionInput.t) : bool :=
  let hasUserId :=
    match MentionInput.userId m with
    | Some s => negb (s =? EmptyString)
    | None => false
    end in
  let hasChannelId :=
    match MentionInput.channelId m with
    | Some s => negb (s =? EmptyString)
    | None => false
    end in
  (hasUserId && negb hasChannelId) || (negb hasUserId && hasChannelId).

(** The refinement of [mentionsSchema] on a well-typed array. *)
Definition mentionsSchema_refine (mentions : list MentionInput.t) : bool :=
  forallb mentionsSchema_element mentions.

(** [mentionsSchema.safeParse] on a well-typed optional array: the
    refinement decides, and its message is the error. *)
Definition mentionsSchema (mentions : option (list MentionInput.t))
  : Completion (option (list MentionInput.t)) :=
  match mentions with
  | None => Normal None
  | Some l =>
      if mentionsSchema_refine l then Normal (Some l)
      else Throw ("Invalid mention configuration: Each mention must specify exactly one of 'userId' (for user mentions) or 'channelId' (for channel mentions). "
                    ++ "Found mention with both or neither. Check that each mention in the array has either userId OR channelId, not both and not neither.")
  end.

(* ================================================================== *)
(** * Regular expressions: the fragment the code uses *)

(** Patterns without flags [i], [m], [s], [u]: matching is by code unit and
    case-sensitive.  The constructors follow the grammar of the language
    specification. *)
Inductive regex : Type :=
| REmpty                      (* the empty Alternative *)
| RChar (c : ascii)           (* a PatternCharacter or an IdentityEscape *)
| RClass (cs : list ascii)    (* a CharacterClass listing its characters *)
| RPlus (cs : list ascii)     (* a CharacterClass under the greedy [+] *)
| REnd                        (* the assertion [$], without flag [m] *)
| RCat (r1 r2 : regex)        (* Alternative Term *)
| RAlt (r1 r2 : regex).       (* Alternative | Disjunction *)

(** One or more characters of a class, the longest run first. *)
Fixpoint rplus (cs : list ascii) (s : string) (k : string -> option string)
  : option string :=
  match s with
  | String a s' =>
      if existsb (Ascii.eqb a) cs then
        match rplus cs s' k with
        | Some e => Some e
        | None => k s'
        end
      else None
  | EmptyString => None
  end.

(** The backtracking matcher, in the continuation style of the language
    specification: [rmatch r s k] matches [r] at the start of [s] and hands
    what is left to [k]; the first success in priority order wins. *)
Fixpoint rmatch (r : regex) (s : string) (k : string -> option string)
  : option string :=
  match r with
  | REmpty => k s
  | RChar c =>
      match s with
      | String a s' => if Ascii.eqb a c then k s' else None
      | EmptyString => None
      end
  | RClass cs =>
      match s with
      | String a s' => if existsb (Ascii.eqb a) cs then k s' else None
      | EmptyString => None
      end
  | RPlus cs => rplus cs s k
  | REnd =>
      match s with
      | EmptyString => k s
      | String _ _ => None
      end
  | RCat r1 r2 => rmatch r1 s (fun s' => rmatch r2 s' k)
  | RAlt r1 r2 =>
      match rmatch r1 s k with
      | Some e => Some e
      | None => rmatch r2 s k
      end
  end.

(** An Alternative extended by the pattern characters of [lit]. *)
Fixpoint lit_from (r : regex) (lit : string) : regex :=
  match lit with
  | EmptyString => r
  | String c lit' => lit_from (RCat r (RChar c)) lit'
  end.

(** A match attempt at the start of [s]: what follows the match. *)
Definition match_here (r : regex) (s : string) : option string :=
  rmatch r s Some.

(** [GetSubstitution] for a pattern without capture groups: [$$], [$&],
    [$`] and [$'] are expanded, every other character (also a [$] before a
    digit or before [<]) stands for itself. *)
Fixpoint GetSubstitution (matched before after template : string) : string :=
  match template with
  | EmptyString => EmptyString
  | String c t =>
      if Ascii.eqb c "$" then
        match t with
        | EmptyString => chr c
        | String d t' =>
            if Ascii.eqb d "$" then
              String "$" (GetSubstitution matched before after t')
            else if Ascii.eqb d "&" then
              matched ++ GetSubstitution matched before after t'
            else if Ascii.eqb d "`" then
              before ++ GetSubstitution matched before after t'
            else if Ascii.eqb d "'" then
              after ++ GetSubstitution matched before after t'
            else String c (GetSubstitution matched before after t)
        end
      else String c (GetSubstitution matched before after t)
  end.

(** [String.prototype.replace] with a global pattern and a template.  The
    scan goes through [s] from left to right; [before] is the part of the
    subject already passed.  [skip] counts the characters of the current
    match that are still to be passed.  An empty match advances by one
    character. *)
Fixpoint replace_scan (r : regex) (template before s : string) (skip : nat)
  {struct s} : string :=
  match skip with
  | S n =>
      match s with
      | EmptyString => EmptyString
      | String c s' => replace_scan r template (before ++ chr c) s' n
      end
  | O =>
      match match_here r s with
      | Some rest =>
          let len := String.length s - String.length rest in
          GetSubstitution (substring 0 len s) before rest template ++
          match s with
          | EmptyString => EmptyString
          | String c s' =>
              match len with
              | O => String c (replace_scan r template (before ++ chr c) s' 0)
              | S n => replace_scan r template (before ++ chr c) s' n
              end
          end
      | None =>
          match s with
          | EmptyString => EmptyString
          | String c s' =>
              String c (replace_scan r template (before ++ chr c) s' 0)
          end
      end
  end.

Definition replace (r : regex) (template s : string) : string :=
  replace_scan r template EmptyString s 0.

(** ** The RegExp constructor *)

(** The SyntaxCharacters of a pattern. *)
Definition syntax_characters : list ascii :=
  list_ascii_of_string "^$\.*+?()[]{}|".

Definition is_syntax (c : ascii) : bool :=
  existsb (Ascii.eqb c) syntax_characters.

Inductive token : Type :=
| TChar (c : ascii)
| TOpen                       (* the opening of a non-capturing group *)
| TClose
| TBar.

Definition consT (t : token) (r : option (list token)) : option (list token) :=
  match r with
  | Some ts => Some (t :: ts)
  | None => None
  end.

(** The terminals of a pattern.  Only the fragment above is read: escaped
    SyntaxCharacters, plain characters, non-capturing groups and
    alternation; every other pattern gives [None]. *)
Fixpoint lex (p : string) : option (list token) :=
  match p with
  | EmptyString => Some []
  | String c p1 =>
      if Ascii.eqb c "\" then
        match p1 with
        | String d p2 => if is_syntax d then consT (TChar d) (lex p2) else None
        | EmptyString => None
        end
      else if Ascii.eqb c "(" then
        match p1 with
        | String "?" (String ":" p3) => consT TOpen (lex p3)
        | _ => None
        end
      else if Ascii.eqb c ")" then consT TClose (lex p1)
      else if Ascii.eqb c "|" then consT TBar (lex p1)
      else if is_syntax c then None
      else consT (TChar c) (lex p1)
  end.

(** A Disjunction being read: the Alternatives already closed (the last one
    first) and the Alternative being read. *)
Record frame : Type := mkFrame {
  closed : list regex;
  current : regex
}.

Definition close_frame (f : frame) : regex :=
  fold_left (fun acc a => RAlt a acc) (closed f) (current f).

Fixpoint parse_tokens (ts : list token) (f : frame) (outer : list frame)
  : option regex :=
  match ts with
  | [] =>
      match outer with
      | [] => Some (close_frame f)
      | _ :: _ => None
      end
  | TChar c :: ts' =>
      parse_tokens ts' (mkFrame (closed f) (RCat (current f) (RChar c))) outer
  | TBar :: ts' =>
      parse_tokens ts' (mkFrame (current f :: closed f) REmpty) outer
  | TOpen :: ts' =>
      parse_tokens ts' (mkFrame [] REmpty) (f :: outer)
  | TClose :: ts' =>
      match outer with
      | [] => None
      | g :: outer' =>
          parse_tokens ts'
            (mkFrame (closed g) (RCat (current g) (close_frame f))) outer'
      end
  end.

Definition parse_pattern (p : string) : option regex :=
  match lex p with
  | Some ts => parse_tokens ts (mkFrame [] REmpty) []
  | None => None
  end.

(** [new RegExp(pattern, "g")].  A pattern that is ill-formed or outside
    the fragment is refused; on the patterns built for mentions this
    never happens (see [new_RegExp_mention] below). *)
Definition new_RegExp (pattern : string) : Completion regex :=
  match parse_pattern pattern with
  | Some r => Normal r
  | None => Throw "SyntaxError: Invalid regular expression"
  end.

(* ================================================================== *)
(** * src/utils/users.ts *)

(** The pattern literal of [escapeRegex]: one class with the fourteen
    SyntaxCharacters. *)
Definition escapeRegex_pattern : regex :=
  RClass (list_ascii_of_string ".*+?^${}()|[]\").

(** [text.replace(/[.*+?^${}()|[\]\\]/g, "\\$&")] *)
Definition escapeRegex (text : string) : string :=
  replace escapeRegex_pattern "\$&" text.

(** The template literal given to [new RegExp]. *)
Definition mentionRegex_source (mention : string) : string :=
  "@(?:" ++ chr dquote ++ escapeRegex mention ++ chr dquote ++ "|"
    ++ escapeRegex mention ++ ")".

(** The replacement template of a mapping at [index]. *)
Definition mentionTemplate (index : nat) (displayName : string) : string :=
  "<at id=" ++ chr dquote ++ string_of_index index ++ chr dquote ++ ">"
    ++ displayName ++ "</at>".

(** The [GraphMention] pushed for a mapping at [index]. *)
Definition graphMention (index : nat) (mapping : MentionMapping.t)
  : GraphMention.t :=
  if isUserMentionMapping mapping then
    GraphMention.mk index (MentionMapping.displayName mapping)
      (GraphMention.user (MentionMapping.userId mapping))
  else
    GraphMention.mk index (MentionMapping.displayName mapping)
      (GraphMention.conversation (MentionMapping.channelId mapping)
         (MentionMapping.displayName mapping) "channel").

(** The two variables the callback of [forEach] updates. *)
Module ProcessState.
Record t : Type := mk {
  processedContent : string;
  mentions : list GraphMention.t
}.
End ProcessState.

(** The callback of [mentionMappings.forEach]. *)
Definition processMention (mapping : MentionMapping.t) (index : nat)
  (st : ProcessState.t) : Completion ProcessState.t :=
  bindC (new_RegExp (mentionRegex_source (MentionMapping.mention mapping)))
    (fun mentionRegex =>
       let mentionId := index in
       Normal
         (ProcessState.mk
            (replace mentionRegex
               (mentionTemplate mentionId (MentionMapping.displayName mapping))
               (ProcessState.processedContent st))
            (push (ProcessState.mentions st) (graphMention mentionId mapping)))).

(** [Array.prototype.forEach] from [index] on. *)
Fixpoint forEach (mappings : list MentionMapping.t) (index : nat)
  (st : ProcessState.t) : Completion ProcessState.t :=
  match mappings with
  | [] => Normal st
  | mapping :: rest =>
      bindC (processMention mapping index st) (forEach rest (S index))
  end.

(** What [processMentionsInHtml] returns. *)
Module ProcessResult.
Record t : Type := mk {
  content : string;
  mentions : list GraphMention.t
}.
End ProcessResult.

Definition processMentionsInHtml (html : string)
  (mentionMappings : list MentionMapping.t) : Completion ProcessResult.t :=
  bindC (forEach mentionMappings 0 (ProcessState.mk html []))
    (fun st =>
       Normal (ProcessResult.mk (ProcessState.processedContent st)
                 (ProcessState.mentions st))).

(* ================================================================== *)
(** * src/tools/teams.ts: the mentions of send_channel_message *)

(** The class of [channelIdPattern]: letters, digits, underscore, hyphen. *)
Definition channelId_class : list ascii :=
  list_ascii_of_string
    "abcdefghijklmnopqrstuvwxyzABCDEFGHIJKLMNOPQRSTUVWXYZ0123456789_-".

(** The pattern literal of [validateChannelIdFormat], after its leading
    assertion: 19: then the class once or more, then the thread suffix,
    then the end of the input. *)
Definition channelIdPattern : regex :=
  RCat (lit_from (RCat (lit_from REmpty "19:") (RPlus channelId_class))
          "@thread.tacv2")
       REnd.

(** [channelIdPattern.test(channelId)]: the pattern begins with the
    assertion of the start of the input, so that only the attempt at index
    0 can succeed. *)
Definition channelIdPattern_test (channelId : string) : bool :=
  match match_here channelIdPattern channelId with
  | Some _ => true
  | None => false
  end.

Section SendChannelMessage.

(** The directory service: its state, and the request
    [client.api("/users/" + id).select("displayName").get()], which throws
    or gives a response whose [displayName] may be absent. *)
Variable World : Type.
Variable users_get : string -> World -> Completion (option string) * World.

(** What the handler acts on: the directory, the console and, for the
    record, the user ids requested from the directory. *)
Record Env : Type := mkEnv {
  world : World;
  warnings : list string;
  requests : list string
}.

Definition M (A : Type) : Type := Env -> Completion A * Env.

Definition ret {A : Type} (a : A) : M A := fun e => (Normal a, e).

Definition bind {A B : Type} (m : M A) (k : A -> M B) : M B :=
  fun e =>
    match m e with
    | (Normal a, e') => k a e'
    | (Throw msg, e') => (Throw msg, e')
    end.

Notation "x <- m ;; k" := (bind m (fun x => k))
  (at level 61, m at next level, right associativity).
Notation "m ;;; k" := (bind m (fun _ => k))
  (at level 61, right associativity).

(** [try { body } catch (_error) { handler }] *)
Definition try_catch {A : Type} (body : M A) (handler : string -> M A) : M A :=
  fun e =>
    match body e with
    | (Normal a, e') => (Normal a, e')
    | (Throw msg, e') => handler msg e'
    end.

Definition console_warn (msg : string) : M unit :=
  fun e => (Normal tt, mkEnv (world e) (push (warnings e) msg) (requests e)).

Definition api_users_get (id : string) : M (option string) :=
  fun e =>
    let (r, w) := users_get id (world e) in
    (r, mkEnv w (warnings e) (push (requests e) id)).

Definition liftC {A : Type} (c : Completion A) : M A := fun e => (c, e).

Definition validateChannelIdFormat (channelId mentionText : string) : M unit :=
  if negb (channelIdPattern_test channelId) then
    console_warn
      ("Channel mention " ++ chr dquote ++ mentionText ++ chr dquote
         ++ ": Channel ID " ++ chr dquote ++ channelId ++ chr dquote
         ++ " may not be in the expected format. "
         ++ "Expected format: " ++ chr dquote ++ "19:xxx@thread.tacv2"
         ++ chr dquote ++ ". The mention may not work correctly.")
  else ret tt.

(** The value of a property read in a branch where it is truthy. *)
Definition value_of (v : option string) : string :=
  match v with
  | Some s => s
  | None => "undefined"
  end.

(** The body of [for (const mention of mentions)]: the mappings after the
    push. *)
Definition normalizeMention (mention : MentionInput.t)
  (mentionMappings : list MentionMapping.t) : M (list MentionMapping.t) :=
  if truthy (MentionInput.userId mention) then
    try_catch
      (displayName <- api_users_get (value_of (MentionInput.userId mention)) ;;
       ret (push mentionMappings
              (MentionMapping.mk (MentionInput.mention mention)
                 (MentionInput.userId mention) None
                 (or_else displayName (MentionInput.mention mention)))))
      (fun _error =>
         console_warn
           ("Could not resolve user " ++ value_of (MentionInput.userId mention)
              ++ ", using mention text as display name") ;;;
         ret (push mentionMappings
                (MentionMapping.mk (MentionInput.mention mention)
                   (MentionInput.userId mention) None
                   (MentionInput.mention mention))))
  else if truthy (MentionInput.channelId mention) then
    validateChannelIdFormat (value_of (MentionInput.channelId mention))
      (MentionInput.mention mention) ;;;
    ret (push mentionMappings
           (MentionMapping.mk (MentionInput.mention mention)
              None (MentionInput.channelId mention)
              (MentionInput.mention mention)))
  else ret mentionMappings.

Fixpoint normalizeMentions (mentions : list MentionInput.t)
  (mentionMappings : list MentionMapping.t) : M (list MentionMapping.t) :=
  match mentions with
  | [] => ret mentionMappings
  | mention :: rest =>
      mentionMappings' <- normalizeMention mention mentionMappings ;;
      normalizeMentions rest mentionMappings'
  end.

(** What the handler has composed before attachments and transport. *)
Record Composed : Type := mkComposed {
  body_content : string;
  body_contentType : string;
  finalMentions : list GraphMention.t
}.

(** The handler from the mappings to the final mentions, on the content
    and content type the format gave. *)
Definition composeMentions (content contentType : string)
  (mentions : option (list MentionInput.t)) : M Composed :=
  mentionMappings <-
    match mentions with
    | Some ((_ :: _) as l) => normalizeMentions l []
    | _ => ret []
    end ;;
  match mentionMappings with
  | _ :: _ =>
      result <- liftC (processMentionsInHtml content mentionMappings) ;;
      ret (mkComposed (ProcessResult.content result) "html"
             (ProcessResult.mentions result))
  | [] => ret (mkComposed content contentType [])
  end.

End SendChannelMessage.

(* ================================================================== *)
(** * Occurrences of a mention in a content *)

(** The two written forms of a mention. *)
Definition bare (token : string) : string := "@" ++ token.

Definition quoted (token : string) : string :=
  "@" ++ chr dquote ++ token ++ chr dquote.

(** The form of [token] the content [s] begins with, and what follows it;
    the quoted form is looked for first. *)
Definition form_at (token s : string) : option (string * string) :=
  match strip_prefix (quoted token) s with
  | Some rest => Some (quoted token, rest)
  | None =>
      match strip_prefix (bare token) s with
      | Some rest => Some (bare token, rest)
      | None => None
      end
  end.

(** A content cut from left to right into plain characters and
    occurrences of a mention. *)
Inductive segment : Type :=
| Text (c : ascii)
| Occ (matched : string).

Inductive Segments (token : string) : string -> list segment -> Prop :=
| seg_end : Segments token EmptyString []
| seg_text : forall c s l,
    form_at token (String c s) = None ->
    Segments token s l ->
    Segments token (String c s) (Text c :: l)
| seg_occ : forall s matched rest l,
    form_at token s = Some (matched, rest) ->
    Segments token rest l ->
    Segments token s (Occ matched :: l).

(** The content a list of segments was cut from. *)
Fixpoint source (l : list segment) : string :=
  match l with
  | [] => EmptyString
  | Text c :: l' => String c (source l')
  | Occ matched :: l' => matched ++ source l'
  end.

(** The number of occurrences among the segments. *)
Fixpoint occurrences (l : list segment) : nat :=
  match l with
  | [] => 0
  | Text _ :: l' => occurrences l'
  | Occ _ :: l' => S (occurrences l')
  end.

(** The segments with each occurrence replaced: [f] is given what precedes
    the occurrence, the occurrence and what follows it. *)
Fixpoint substitute (f : string -> string -> string -> string)
  (before : string) (l : list segment) : string :=
  match l with
  | [] => EmptyString
  | Text c :: l' => String c (substitute f (before ++ chr c) l')
  | Occ matched :: l' =>
      f before matched (source l') ++ substitute f (before ++ matched) l'
  end.

(** The opening and the closing tag of the markup span of a sequence id. *)
Definition span_open (index : nat) : string :=
  "<at id=" ++ chr dquote ++ string_of_index index ++ chr dquote ++ ">".

Definition span_close : string := "</at>".

(** The syntax tree of the pattern of a mention. *)
Definition mentionRegex_ast (mention : string) : regex :=
  RCat (RCat REmpty (RChar "@"))
       (RAlt (RCat (lit_from (RCat REmpty (RChar dquote)) mention)
                (RChar dquote))
             (lit_from REmpty mention)).

(* ================================================================== *)
(** * What the statements below speak of *)

(** The records of the mappings from [index] on. *)
Fixpoint graphMentions_from (index : nat) (mappings : list MentionMapping.t)
  : list GraphMention.t :=
  match mappings with
  | [] => []
  | mapping :: rest =>
      graphMention index mapping :: graphMentions_from (S index) rest
  end.

(** The rule of the specification for one raw input: exactly one of the two
    ids is present and not empty. *)
Definition exactly_one_id (m : MentionInput.t) : Prop :=
  (truthy (MentionInput.userId m) = true /\
   truthy (MentionInput.channelId m) = false) \/
  (truthy (MentionInput.userId m) = false /\
   truthy (MentionInput.channelId m) = true).

(** What [escapeRegex] is to compute: a backslash before each
    SyntaxCharacter. *)
Fixpoint escaped (text : string) : string :=
  match text with
  | EmptyString => EmptyString
  | String c t =>
      if is_syntax c then String "\" (String c (escaped t))
      else String c (escaped t)
  end.

(** The terminals of a run of plain or escaped characters. *)
Definition chars (lit : string) : list token :=
  map TChar (list_ascii_of_string lit).

(** The content after the replacements of the mappings from [index] on. *)
Fixpoint injected (index : nat) (mappings : list MentionMapping.t)
  (content : string) : string :=
  match mappings with
  | [] => content
  | mapping :: rest =>
      injected (S index) rest
        (replace (mentionRegex_ast (MentionMapping.mention mapping))
           (mentionTemplate index (MentionMapping.displayName mapping))
           content)
  end.

(** A text cut into its characters, none of them an occurrence. *)
Fixpoint texts (s : string) : list segment :=
  match s with
  | EmptyString => []
  | String c s' => Text c :: texts s'
  end.

(** All the characters of [s] satisfy [p]. *)
Fixpoint all_chars (p : ascii -> bool) (s : string) : bool :=
  match s with
  | EmptyString => true
  | String c s' => p c && all_chars p s'
  end.

(** The shape [channelIdPattern] stands for. *)
Definition channelId_shape (channelId : string) : Prop :=
  exists body,
    body <> EmptyString /\
    all_chars (fun c => existsb (Ascii.eqb c) channelId_class) body = true /\
    channelId = "19:" ++ body ++ "@thread.tacv2".

(** The lookup of a display name gave nothing to display: the request
    threw, or the name is absent or empty. *)
Definition lookup_failed (r : Completion (option string)) : Prop :=
  match r with
  | Throw _ => True
  | Normal None => True
  | Normal (Some name) => name = EmptyString
  end.

(** At least one of the two ids is present and not empty. *)
Definition some_id (m : MentionInput.t) : Prop :=
  truthy (MentionInput.userId m) = true \/
  truthy (MentionInput.channelId m) = true.

(** A segment that is an occurrence is a written form of [token]. *)
Definition occurrence_of (token : string) (seg : segment) : Prop :=
  match seg with
  | Text _ => True
  | Occ matched => matched = quoted token \/ matched = bare token
  end.

(** The mapping pushed for a user mention whose name was not resolved:
    the label is the mention text. *)
Definition fallbackMapping (mention : MentionInput.t) : MentionMapping.t :=
  MentionMapping.mk (MentionInput.mention mention)
    (MentionInput.userId mention) None (MentionInput.mention mention).

(** The mapping pushed for a channel mention: the label is the mention
    text. *)
Definition channelMapping (mention : MentionInput.t) : MentionMapping.t :=
  MentionMapping.mk (MentionInput.mention mention)
    None (MentionInput.channelId mention) (MentionInput.mention mention).

(* ================================================================== *)
(** * A content laid out as plain text and mentions *)

(** A piece of a content: a plain character, or the mention of the
    mapping at position [j] of a list, written in quotes or bare. *)
Inductive piece : Type :=
| Plain (c : ascii)
| At (j : nat) (in_quotes : bool).

(** The written form of the mention of the mapping at [j]. *)
Definition written (mappings : list MentionMapping.t) (j : nat)
  (in_quotes : bool) : string :=
  match nth_error mappings j with
  | Some m =>
      if in_quotes then quoted (MentionMapping.mention m)
      else bare (MentionMapping.mention m)
  | None => EmptyString
  end.

(** The markup span of the mapping at [j]: its sequence id around its
    display name. *)
Definition span_of (mappings : list MentionMapping.t) (j : nat) : string :=
  match nth_error mappings j with
  | Some m => span_open j ++ MentionMapping.displayName m ++ span_close
  | None => EmptyString
  end.

(** The content the pieces spell out, each mention in its written
    form. *)
Fixpoint given (mappings : list MentionMapping.t) (pieces : list piece)
  : string :=
  match pieces with
  | [] => EmptyString
  | Plain c :: rest => String c (given mappings rest)
  | At j in_quotes :: rest =>
      written mappings j in_quotes ++ given mappings rest
  end.

(** The pieces with each mention replaced by the markup span of its
    mapping. *)
Fixpoint returned (mappings : list MentionMapping.t) (pieces : list piece)
  : string :=
  match pieces with
  | [] => EmptyString
  | Plain c :: rest => String c (returned mappings rest)
  | At j _ :: rest => span_of mappings j ++ returned mappings rest
  end.

(** The pieces when the mappings before [k] have been applied: their
    mentions are spans, the others are still written. *)
Fixpoint partly (mappings : list MentionMapping.t) (k : nat)
  (pieces : list piece) : string :=
  match pieces with
  | [] => EmptyString
  | Plain c :: rest => String c (partly mappings k rest)
  | At j in_quotes :: rest =>
      (if Nat.ltb j k then span_of mappings j else written mappings j in_quotes)
        ++ partly mappings k rest
  end.

(** The number of mentions of the mapping at [j] among the pieces. *)
Fixpoint count_at (j : nat) (pieces : list piece) : nat :=
  match pieces with
  | [] => 0
  | Plain _ :: rest => count_at j rest
  | At i _ :: rest => (if Nat.eqb i j then 1 else 0) + count_at j rest
  end.

(** The segments of [partly mappings k pieces] for the mention of the
    mapping at [j]: the mentions of [j] are the occurrences. *)
Fixpoint cut (mappings : list MentionMapping.t) (k j : nat)
  (pieces : list piece) : list segment :=
  match pieces with
  | [] => []
  | Plain c :: rest => Text c :: cut mappings k j rest
  | At i in_quotes :: rest =>
      (if Nat.ltb i k then texts (span_of mappings i)
       else if Nat.eqb i j then [Occ (written mappings i in_quotes)]
       else texts (written mappings i in_quotes))
        ++ cut mappings k j rest
  end%list.

(** [s] begins with [p]. *)
Definition begins (p s : string) : bool :=
  match strip_prefix p s with
  | Some _ => true
  | None => false
  end.

(** A mention text that is not empty and holds neither an at sign nor a
    double quote. *)
Definition plain_token (token : string) : bool :=
  negb (token =? EmptyString) && negb (contains_char "@" token)
    && negb (contains_char dquote token).

(** A display name that holds neither an at sign nor a dollar sign. *)
Definition plain_label (displayName : string) : bool :=
  negb (contains_char "@" displayName)
    && negb (contains_char "$" displayName).

(** No text of the list begins another one. *)
Fixpoint apart (tokens : list string) : bool :=
  match tokens with
  | [] => true
  | t :: rest =>
      forallb (fun u => negb (begins t u) && negb (begins u t)) rest
        && apart rest
  end.

(** The first characters of the mention texts. *)
Definition first_chars (mappings : list MentionMapping.t) : list ascii :=
  flat_map
    (fun m =>
       match MentionMapping.mention m with
       | String c _ => [c]
       | EmptyString => []
       end)
    mappings.

(** Every mention of the pieces is one of a mapping of the list, and a
    plain at sign is the last piece or stands before a plain character
    that is neither a double quote nor the first character of a mention
    text. *)
Fixpoint laid_out (firsts : list ascii) (n : nat) (pieces : list piece)
  : bool :=
  match pieces with
  | [] => true
  | Plain c :: rest =>
      (if Ascii.eqb c "@" then
         match rest with
         | [] => true
         | Plain c' :: _ =>
             negb (Ascii.eqb c' dquote) && negb (existsb (Ascii.eqb c') firsts)
         | At _ _ :: _ => false
         end
       else true)
        && laid_out firsts n rest
  | At j _ :: rest => Nat.ltb j n && laid_out firsts n rest
  end.

(** Mappings and pieces whose mentions do not act on each other. *)
Definition independent (mappings : list MentionMapping.t)
  (pieces : list piece) : bool :=
  forallb plain_token (map MentionMapping.mention mappings)
    && forallb plain_label (map MentionMapping.displayName mappings)
    && apart (map MentionMapping.mention mappings)
    && laid_out (first_chars mappings) (List.length mappings) pieces.

(** The pieces of a plain text. *)
Definition plain_text (s : string) : list piece :=
  map Plain (list_ascii_of_string s).

(* ================================================================== *)
(** * Further notions for the statements on the rest of the code *)

(** A raw input with some id: the inputs the loops do not pass over. *)
Definition has_id (m : MentionInput.t) : bool :=
  truthy (MentionInput.userId m) || truthy (MentionInput.channelId m).

(** A raw input the code takes for a user mention. *)
Definition is_user_input (m : MentionInput.t) : bool :=
  truthy (MentionInput.userId m).

(** A mapping that is exactly one variant of the union. *)
Definition one_variant (m : MentionMapping.t) : bool :=
  xorb (isUserMentionMapping m) (isChannelMentionMapping m).

(** The number of SyntaxCharacters of a text. *)
Fixpoint count_syntax (text : string) : nat :=
  match text with
  | EmptyString => 0
  | String c t => (if is_syntax c then 1 else 0) + count_syntax t
  end.

(** What the loop of the handler makes of a raw input that has an id: the
    mention text and the one id are kept (the user id if there is one), a
    channel mention is labelled by its text, and the label is empty only
    if the mention text is. *)
Definition normalized (input : MentionInput.t) (mapping : MentionMapping.t)
  : Prop :=
  MentionMapping.mention mapping = MentionInput.mention input /\
  MentionMapping.userId mapping =
    (if is_user_input input then MentionInput.userId input else None) /\
  MentionMapping.channelId mapping =
    (if is_user_input input then None else MentionInput.channelId input) /\
  (is_user_input input = false ->
   MentionMapping.displayName mapping = MentionInput.mention input) /\
  (MentionMapping.displayName mapping = EmptyString ->
   MentionInput.mention input = EmptyString).

(** The array of an optional array. *)
Definition array_of {A : Type} (a : option (list A)) : list A :=
  match a with
  | Some l => l
  | None => []
  end.

(* ================================================================== *)
(** * src/tools/teams.ts and src/tools/chats.ts: the sending handlers *)

(** [format]: the enum of the schema, absent or not. *)
Inductive Format : Type :=
| format_text
| format_markdown.

(** The result a tool gives back: its one text, and [isError] (absent is
    [false]). *)
Record ToolResult : Type := mkToolResult {
  text : string;
  isError : bool
}.

(** [array.join(separator)] on strings. *)
Fixpoint join (separator : string) (array : list string) : string :=
  match array with
  | [] => EmptyString
  | [a] => a
  | a :: rest => a ++ separator ++ join separator rest
  end.

(** The line feed of the template literals. *)
Definition LF : string := chr "010"%char.

(** The input of [send_chat_message]: the user id is required. *)
Module ChatMentionInput.
Record t : Type := mk {
  mention : string;
  userId : string
}.
End ChatMentionInput.

(** What a handler catches: a value whose [message] can be read, with the
    text the template literal makes of that message, or [undefined] or
    [null], of which no property can be read. *)
Inductive Thrown : Type :=
| thrown_error (message : string)
| thrown_nullish (is_null : bool).

(** How an asynchronous call settles. *)
Inductive Settled (A : Type) : Type :=
| Fulfilled (value : A)
| Rejected (error : Thrown).

Arguments Fulfilled {A} value.
Arguments Rejected {A} error.

Section Handlers.

Variable World : Type.

(** The message of the TypeError of the engine for the read of a
    property of [undefined] ([false]) or of [null] ([true]). *)
Variable TypeError_message : bool -> string.

(** The attachment of an image, of which the handlers read the name. *)
Variable Attachment : Type.
Variable attachment_name : Attachment -> string.

(** [messagePayload]: the two last properties are set only when there is
    something to set. *)
Record Payload : Type := mkPayload {
  payload_content : string;
  payload_contentType : string;
  payload_importance : string;
  payload_mentions : option (list GraphMention.t);
  payload_attachments : option (list Attachment)
}.

(** [imageInfo] *)
Record ImageInfo : Type := mkImageInfo {
  image_data : string;
  image_contentType : string
}.

(** The calls that leave the handler, in the order they are made; the
    requests of display names are kept in [requests]. *)
Inductive Call : Type :=
| CallGetClient
| CallMarkdownToHtml (message : string)
| CallImageUrlToBase64 (imageUrl : string)
| CallUpload (teamId channelId data contentType : string)
    (fileName : option string)
| CallPost (path : string) (payload : Payload).

(** The collaborators of the handlers, which are not in these files:
    each may throw.  What the directory throws is caught without being
    read; what the others throw reaches the [catch] of the handler. *)
Variable users_get : string -> World -> Completion (option string) * World.
Variable getClient : World -> Settled unit * World.
Variable markdownToHtml : string -> World -> Settled string * World.
Variable imageUrlToBase64 :
  string -> World -> Settled (option ImageInfo) * World.
Variable isValidImageType : string -> bool.
Variable uploadImageAsHostedContent :
  string -> string -> string -> string -> option string ->
  World -> Settled (option Attachment) * World.
(** [client.api(path).post(payload)] and the read of [result.id]: the id
    of the message made, which may be absent; a post that gives no object
    makes the read throw. *)
Variable api_post :
  string -> Payload -> World -> Settled (option string) * World.

Record HEnv : Type := mkHEnv {
  env : Env World;
  calls : list Call
}.

Definition H (A : Type) : Type := HEnv -> Settled A * HEnv.

Definition retH {A : Type} (a : A) : H A := fun h => (Fulfilled a, h).

Definition bindH {A B : Type} (m : H A) (k : A -> H B) : H B :=
  fun h =>
    match m h with
    | (Fulfilled a, h') => k a h'
    | (Rejected error, h') => (Rejected error, h')
    end.

Definition try_catchH {A : Type} (body : H A) (handler : Thrown -> H A)
  : H A :=
  fun h =>
    match body h with
    | (Fulfilled a, h') => (Fulfilled a, h')
    | (Rejected error, h') => handler error h'
    end.

(** The loop and the injection, run inside a handler. *)
Definition liftM {A : Type} (m : M World A) : H A :=
  fun h =>
    let (r, e') := m (env h) in
    (match r with
     | Normal a => Fulfilled a
     | Throw message => Rejected (thrown_error message)
     end,
     mkHEnv e' (calls h)).

(** A call of a collaborator, written down before it is made. *)
Definition call {A : Type} (c : Call)
  (f : World -> Settled A * World) : H A :=
  fun h =>
    let (r, w) := f (world (env h)) in
    (r, mkHEnv (mkEnv w (warnings (env h)) (requests (env h)))
          (push (calls h) c)).

(** The content and the content type the format gives. *)
Definition formatContent (format : option Format) (message : string)
  : H (string * string) :=
  match format with
  | Some format_markdown =>
      bindH (call (CallMarkdownToHtml message) (markdownToHtml message))
        (fun content => retH (content, "html"))
  | _ => retH (message, "text")
  end.

(** [importance = "normal"] in the parameters. *)
Definition importance_or_normal (importance : option string) : string :=
  match importance with
  | Some i => i
  | None => "normal"
  end.

(** The payload, from what was composed and attached. *)
Definition messagePayload (composed : Composed) (importance : option string)
  (attachments : list Attachment) : Payload :=
  mkPayload (body_content composed) (body_contentType composed)
    (importance_or_normal importance)
    (match finalMentions composed with
     | [] => None
     | _ :: _ => Some (finalMentions composed)
     end)
    (match attachments with
     | [] => None
     | _ :: _ => Some attachments
     end).

(** The line of the mentions of a success text, if there are any. *)
Definition mentionsText (mentioned : string)
  (finalMentions : list GraphMention.t) : string :=
  match finalMentions with
  | [] => EmptyString
  | _ :: _ =>
      LF ++ mentioned ++ join ", " (map GraphMention.mentionText finalMentions)
  end.

(** The text of a success of the channel handlers: the id, then the
    mentions and the image if there are any. *)
Definition successText (sent : string) (id : option string)
  (finalMentions : list GraphMention.t) (attachments : list Attachment)
  : string :=
  sent ++ value_of id ++
  mentionsText "üì± Mentions: " finalMentions ++
  (match attachments with
   | [] => EmptyString
   | a :: _ => LF ++ "üñºÔ∏è Image attached: " ++ attachment_name a
   end).

Definition errorResult (message : string) : ToolResult :=
  mkToolResult message true.

(** What the [catch (error: any)] of a handler settles as: the result of
    an error, made of the message of what was thrown; the read of the
    message of [undefined] or [null] throws a TypeError in its turn,
    which nothing catches. *)
Definition caught (failed : string) (error : Thrown) : Settled ToolResult :=
  match error with
  | thrown_error message => Fulfilled (errorResult (failed ++ message))
  | thrown_nullish is_null =>
      Rejected (thrown_error (TypeError_message is_null))
  end.

Definition catch_error (failed : string) (error : Thrown) : H ToolResult :=
  fun h => (caught failed error, h).

(** The attachment of the image, if one is asked for: the attachments, or
    the result the handler returns at once. *)
Definition imageAttachments (teamId channelId : string)
  (imageUrl imageData imageContentType imageFileName : option string)
  : H (ToolResult + list Attachment) :=
  if truthy imageUrl || truthy imageData then
    bindH
      (if truthy imageUrl then
         bindH (call (CallImageUrlToBase64 (value_of imageUrl))
                  (imageUrlToBase64 (value_of imageUrl)))
           (fun imageInfo =>
              match imageInfo with
              | None =>
                  retH (inl (errorResult
                               ("‚ùå Failed to download image from URL: "
                                  ++ value_of imageUrl)))
              | Some i => retH (inr (Some i))
              end)
       else if truthy imageData && truthy imageContentType then
         if negb (isValidImageType (value_of imageContentType)) then
           retH (inl (errorResult
                        ("‚ùå Unsupported image type: "
                           ++ value_of imageContentType)))
         else
           retH (inr (Some (mkImageInfo (value_of imageData)
                              (value_of imageContentType))))
       else retH (inr None))
      (fun step =>
         match step with
         | inl result => retH (inl result)
         | inr None => retH (inr [])
         | inr (Some imageInfo) =>
             bindH
               (call (CallUpload teamId channelId (image_data imageInfo)
                        (image_contentType imageInfo) imageFileName)
                  (uploadImageAsHostedContent teamId channelId
                     (image_data imageInfo) (image_contentType imageInfo)
                     imageFileName))
               (fun uploadResult =>
                  match uploadResult with
                  | Some attachment => retH (inr [attachment])
                  | None =>
                      retH (inl (errorResult
                                   "‚ùå Failed to upload image attachment"))
                  end)
         end)
  else retH (inr []).

(** The handler of [send_channel_message] and of
    [reply_to_channel_message], which differ in the path posted to and in
    two texts. *)
Definition send_to_channel (path sent failed : string)
  (teamId channelId message : string) (importance : option string)
  (format : option Format) (mentions : option (list MentionInput.t))
  (imageUrl imageData imageContentType imageFileName : option string)
  : H ToolResult :=
  try_catchH
    (bindH (call CallGetClient getClient) (fun _ =>
     bindH (formatContent format message) (fun formatted =>
     bindH (liftM (composeMentions users_get (fst formatted) (snd formatted)
                     mentions)) (fun composed =>
     bindH (imageAttachments teamId channelId imageUrl imageData
              imageContentType imageFileName) (fun step =>
     match step with
     | inl result => retH result
     | inr attachments =>
         let payload := messagePayload composed importance attachments in
         bindH (call (CallPost path payload) (api_post path payload))
           (fun id =>
              retH (mkToolResult
                      (successText sent id (finalMentions composed)
                         attachments)
                      false))
     end)))))
    (catch_error failed).

Definition send_channel_message (teamId channelId : string) :=
  send_to_channel
    ("/teams/" ++ teamId ++ "/channels/" ++ channelId ++ "/messages")
    "‚úÖ Message sent successfully. Message ID: "
    "‚ùå Failed to send message: " teamId channelId.

Definition reply_to_channel_message (teamId channelId messageId : string) :=
  send_to_channel
    ("/teams/" ++ teamId ++ "/channels/" ++ channelId ++ "/messages/"
       ++ messageId ++ "/replies")
    "‚úÖ Reply sent successfully. Reply ID: "
    "‚ùå Failed to send reply: " teamId channelId.

(** ** send_chat_message *)

(** The body of the loop of [send_chat_message]: every mention is a user
    mention and is looked up. *)
Definition normalizeChatMention (mention : ChatMentionInput.t)
  (mentionMappings : list MentionMapping.t)
  : M World (list MentionMapping.t) :=
  try_catch
    (bind (api_users_get users_get (ChatMentionInput.userId mention))
       (fun displayName =>
          ret (push mentionMappings
                 (MentionMapping.mk (ChatMentionInput.mention mention)
                    (Some (ChatMentionInput.userId mention)) None
                    (or_else displayName
                       (ChatMentionInput.mention mention))))))
    (fun _error =>
       bind
         (console_warn
            ("Could not resolve user " ++ ChatMentionInput.userId mention
               ++ ", using mention text as display name"))
         (fun _ =>
            ret (push mentionMappings
                   (MentionMapping.mk (ChatMentionInput.mention mention)
                      (Some (ChatMentionInput.userId mention)) None
                      (ChatMentionInput.mention mention))))).

Fixpoint normalizeChatMentions (mentions : list ChatMentionInput.t)
  (mentionMappings : list MentionMapping.t)
  : M World (list MentionMapping.t) :=
  match mentions with
  | [] => ret mentionMappings
  | mention :: rest =>
      bind (normalizeChatMention mention mentionMappings)
        (normalizeChatMentions rest)
  end.

Definition composeChatMentions (content contentType : string)
  (mentions : option (list ChatMentionInput.t)) : M World Composed :=
  bind
    (match mentions with
     | Some ((_ :: _) as l) => normalizeChatMentions l []
     | _ => ret []
     end)
    (fun mentionMappings =>
       match mentionMappings with
       | _ :: _ =>
           bind (liftC (processMentionsInHtml content mentionMappings))
             (fun result =>
                ret (mkComposed (ProcessResult.content result) "html"
                       (ProcessResult.mentions result)))
       | [] => ret (mkComposed content contentType [])
       end).

Definition send_chat_message (chatId message : string)
  (importance : option string) (format : option Format)
  (mentions : option (list ChatMentionInput.t)) : H ToolResult :=
  try_catchH
    (bindH (call CallGetClient getClient) (fun _ =>
     bindH (formatContent format message) (fun formatted =>
     bindH (liftM (composeChatMentions (fst formatted) (snd formatted)
                     mentions)) (fun composed =>
     let payload := messagePayload composed importance [] in
     let path := "/me/chats/" ++ chatId ++ "/messages" in
     bindH (call (CallPost path payload) (api_post path payload))
       (fun id =>
          retH (mkToolResult
                  ("✅ Message sent successfully. Message ID: "
                     ++ value_of id
                     ++ mentionsText "📱 Mentions: " (finalMentions composed))
                  false))))))
    (catch_error "❌ Failed to send message: ").

End Handlers.

(** The calls of the image step: a download or an upload. *)
Definition image_call {Attachment : Type} (c : Call Attachment) : Prop :=
  match c with
  | CallImageUrlToBase64 _ _ => True
  | CallUpload _ _ _ _ _ _ => True
  | _ => False
  end.

(** A collaborator that never throws [undefined] or [null]. *)
Definition never_nullish {World A : Type}
  (f : World -> Settled A * World) : Prop :=
  forall w is_null w', f w <> (Rejected (thrown_nullish is_null), w').

(** The calls that post a message. *)
Definition post_call {Attachment : Type} (c : Call Attachment) : Prop :=
  match c with
  | CallPost _ _ => True
  | _ => False
  end.

(* ================================================================== *)
(** * Strings *)

#[local] Arguments Ascii.eqb : simpl never.

Lemma append_nil_r (s : string) : s ++ EmptyString = s.
Proof. induction s; simpl; congruence. Qed.

Lemma append_assoc (a b c : string) : (a ++ b) ++ c = a ++ (b ++ c).
Proof. induction a; simpl; congruence. Qed.

Lemma length_append (a b : string) :
  String.length (a ++ b) = String.length a + String.length b.
Proof. induction a; simpl; congruence. Qed.

Lemma strip_prefix_app (p s : string) : strip_prefix p (p ++ s) = Some s.
Proof.
  induction p as [|a p IH]; simpl; [reflexivity|].
  now rewrite Ascii.eqb_refl.
Qed.

Lemma strip_prefix_Some (p s r : string) :
  strip_prefix p s = Some r -> s = p ++ r.
Proof.
  revert s; induction p as [|a p IH]; simpl; intros s H.
  - congruence.
  - destruct s as [|b s]; [discriminate|].
    destruct (Ascii.eqb_spec b a) as [->|]; [|discriminate].
    now rewrite (IH _ H).
Qed.

Lemma strip_prefix_append (p q s : string) :
  strip_prefix (p ++ q) s =
  match strip_prefix p s with
  | Some r => strip_prefix q r
  | None => None
  end.
Proof.
  revert s; induction p as [|a p IH]; simpl; intros s; [reflexivity|].
  destruct s as [|b s]; [reflexivity|].
  destruct (Ascii.eqb b a); [apply IH | reflexivity].
Qed.

Lemma substring_prefix (m r : string) :
  substring 0 (String.length m) (m ++ r) = m.
Proof.
  induction m as [|a m IH]; simpl.
  - now destruct r.
  - now rewrite IH.
Qed.

Lemma contains_char_append (c : ascii) (a b : string) :
  contains_char c (a ++ b) = contains_char c a || contains_char c b.
Proof.
  induction a as [|x a IH]; simpl; [reflexivity|].
  now rewrite IH, orb_assoc.
Qed.

(* ================================================================== *)
(** * The matcher *)

Lemma rplus_ext cs s (k k' : string -> option string) :
  (forall x, k x = k' x) -> rplus cs s k = rplus cs s k'.
Proof.
  intros E; induction s as [|a s IH]; simpl; [reflexivity|].
  now rewrite IH, E.
Qed.

Lemma rmatch_ext r : forall s (k k' : string -> option string),
  (forall x, k x = k' x) -> rmatch r s k = rmatch r s k'.
Proof.
  induction r as [|c|cs|cs| |r1 IH1 r2 IH2|r1 IH1 r2 IH2]; simpl; intros s k k' E.
  - apply E.
  - destruct s as [|a s]; [reflexivity|]. now rewrite E.
  - destruct s as [|a s]; [reflexivity|]. now rewrite E.
  - now apply rplus_ext.
  - destruct s; [apply E | reflexivity].
  - apply IH1. intros x. now apply IH2.
  - now rewrite (IH1 s k k' E), (IH2 s k k' E).
Qed.

(** Matching pattern characters is stripping a prefix. *)
Lemma rmatch_lit_from lit : forall r s k,
  rmatch (lit_from r lit) s k =
  rmatch r s (fun s' =>
    match strip_prefix lit s' with
    | Some s'' => k s''
    | None => None
    end).
Proof.
  induction lit as [|c lit IH]; simpl; intros r s k; [reflexivity|].
  rewrite IH. simpl. apply rmatch_ext. intros x.
  destruct x as [|a x]; [reflexivity|].
  now destruct (Ascii.eqb a c).
Qed.

(** The pattern of a mention finds the form the content begins with. *)
Lemma match_here_mention (token s : string) :
  match_here (mentionRegex_ast token) s =
  match form_at token s with
  | Some (_, rest) => Some rest
  | None => None
  end.
Proof.
  unfold match_here, mentionRegex_ast, form_at, quoted, bare. simpl.
  destruct s as [|a s]; [reflexivity|].
  destruct (Ascii.eqb a "@"); [|reflexivity].
  rewrite !rmatch_lit_from. simpl.
  destruct s as [|b s].
  - now destruct (strip_prefix token EmptyString).
  - destruct (Ascii.eqb b dquote).
    + rewrite strip_prefix_append.
      destruct (strip_prefix token s) as [[|c r]|]; simpl;
        try destruct (Ascii.eqb c dquote);
        now destruct (strip_prefix token (String b s)).
    + now destruct (strip_prefix token (String b s)).
Qed.

Lemma form_at_source (token s matched rest : string) :
  form_at token s = Some (matched, rest) ->
  s = matched ++ rest /\ (matched = quoted token \/ matched = bare token).
Proof.
  unfold form_at. intros H.
  destruct (strip_prefix (quoted token) s) as [r|] eqn:Q.
  - inversion H; subst. split; [now apply strip_prefix_Some | now left].
  - destruct (strip_prefix (bare token) s) as [r|] eqn:B; [|discriminate].
    inversion H; subst. split; [now apply strip_prefix_Some | now right].
Qed.

Lemma form_at_nonempty (token s matched rest : string) :
  form_at token s = Some (matched, rest) ->
  exists m', matched = String "@" m'.
Proof.
  intros H. destruct (form_at_source _ _ H) as [_ [->| ->]];
    unfold quoted, bare; simpl; eauto.
Qed.

(* ================================================================== *)
(** * The replacement template *)

Lemma contains_char_cons_false (c a : ascii) (s : string) :
  contains_char c (String a s) = false ->
  Ascii.eqb a c = false /\ contains_char c s = false.
Proof. simpl. apply orb_false_elim. Qed.

(** A template without [$] is copied. *)
Lemma GetSubstitution_plain (matched before after template : string) :
  contains_char "$" template = false ->
  GetSubstitution matched before after template = template.
Proof.
  induction template as [|c t IH]; simpl; intros H; [reflexivity|].
  apply orb_false_elim in H. destruct H as [Hc Ht].
  now rewrite Hc, IH.
Qed.

Lemma GetSubstitution_plain_app (matched before after p t : string) :
  contains_char "$" p = false ->
  GetSubstitution matched before after (p ++ t) =
  p ++ GetSubstitution matched before after t.
Proof.
  induction p as [|c p IH]; simpl; intros H; [reflexivity|].
  apply orb_false_elim in H. destruct H as [Hc Hp].
  now rewrite Hc, IH.
Qed.

Lemma GetSubstitution_cons2 (matched before after : string) c d t :
  GetSubstitution matched before after (String c (String d t)) =
  if Ascii.eqb c "$" then
    if Ascii.eqb d "$" then
      String "$" (GetSubstitution matched before after t)
    else if Ascii.eqb d "&" then
      matched ++ GetSubstitution matched before after t
    else if Ascii.eqb d "`" then
      before ++ GetSubstitution matched before after t
    else if Ascii.eqb d "'" then
      after ++ GetSubstitution matched before after t
    else String c (GetSubstitution matched before after (String d t))
  else String c (GetSubstitution matched before after (String d t)).
Proof. reflexivity. Qed.

(** The closing tag after a template is copied, whatever the template
    ends with. *)
Lemma GetSubstitution_close_aux (matched before after t : string) :
  GetSubstitution matched before after (t ++ span_close) =
  GetSubstitution matched before after t ++ span_close /\
  forall c,
    GetSubstitution matched before after (String c t ++ span_close) =
    GetSubstitution matched before after (String c t) ++ span_close.
Proof.
  induction t as [|d t [IH1 IH2]].
  - split; [reflexivity|]. intros c. simpl.
    destruct (Ascii.eqb c "$"); reflexivity.
  - split; [apply IH2|]. intros c.
    change (String c (String d t) ++ span_close)
      with (String c (String d (t ++ span_close))).
    rewrite !GetSubstitution_cons2.
    change (String d (t ++ span_close)) with (String d t ++ span_close).
    destruct (Ascii.eqb c "$").
    + destruct (Ascii.eqb d "$"); [now rewrite IH1|].
      destruct (Ascii.eqb d "&"); [now rewrite IH1, append_assoc|].
      destruct (Ascii.eqb d "`"); [now rewrite IH1, append_assoc|].
      destruct (Ascii.eqb d "'"); [now rewrite IH1, append_assoc|].
      now rewrite IH2.
    + now rewrite IH2.
Qed.

Lemma GetSubstitution_close (matched before after t : string) :
  GetSubstitution matched before after (t ++ span_close) =
  GetSubstitution matched before after t ++ span_close.
Proof. apply GetSubstitution_close_aux. Qed.

Lemma string_of_uint_plain (d : Decimal.uint) :
  contains_char "$" (NilEmpty.string_of_uint d) = false.
Proof. induction d; simpl; auto. Qed.

Lemma span_open_plain (index : nat) :
  contains_char "$" (span_open index) = false.
Proof.
  unfold span_open, string_of_index.
  rewrite !contains_char_append, string_of_uint_plain. reflexivity.
Qed.

Lemma mentionTemplate_span (index : nat) (displayName : string) :
  mentionTemplate index displayName =
  span_open index ++ (displayName ++ span_close).
Proof.
  unfold mentionTemplate, span_open, span_close.
  now rewrite !append_assoc.
Qed.

(** Every expansion of the template of a mapping is a markup span of its
    sequence id. *)
Lemma GetSubstitution_mentionTemplate matched before after index displayName :
  GetSubstitution matched before after (mentionTemplate index displayName) =
  span_open index ++
  GetSubstitution matched before after displayName ++ span_close.
Proof.
  rewrite mentionTemplate_span.
  rewrite GetSubstitution_plain_app by apply span_open_plain.
  now rewrite GetSubstitution_close.
Qed.

(* ================================================================== *)
(** * The global replacement *)

Lemma replace_scan_0 r template before s :
  replace_scan r template before s 0 =
  match match_here r s with
  | Some rest =>
      GetSubstitution
        (substring 0 (String.length s - String.length rest) s)
        before rest template ++
      match s with
      | EmptyString => EmptyString
      | String c s' =>
          match String.length s - String.length rest with
          | O => String c (replace_scan r template (before ++ chr c) s' 0)
          | S n => replace_scan r template (before ++ chr c) s' n
          end
      end
  | None =>
      match s with
      | EmptyString => EmptyString
      | String c s' =>
          String c (replace_scan r template (before ++ chr c) s' 0)
      end
  end.
Proof. destruct s; reflexivity. Qed.

(** The characters of a match are passed without being looked at. *)
Lemma replace_scan_skip r template m : forall before rest,
  replace_scan r template before (m ++ rest) (String.length m) =
  replace_scan r template (before ++ m) rest 0.
Proof.
  induction m as [|c m IH]; intros before rest.
  - now rewrite append_nil_r.
  - simpl. rewrite IH. now rewrite append_assoc.
Qed.

Lemma replace_scan_match r template before c m rest :
  match_here r (String c m ++ rest) = Some rest ->
  replace_scan r template before (String c m ++ rest) 0 =
  GetSubstitution (String c m) before rest template ++
  replace_scan r template (before ++ String c m) rest 0.
Proof.
  intros H. rewrite replace_scan_0, H.
  assert (L : String.length (String c m ++ rest) - String.length rest
              = S (String.length m)).
  { rewrite length_append.
    change (String.length (String c m)) with (S (String.length m)). lia. }
  rewrite L.
  change (S (String.length m)) with (String.length (String c m)) at 1.
  rewrite substring_prefix.
  change (String c m ++ rest) with (String c (m ++ rest)).
  cbv iota. rewrite replace_scan_skip.
  now rewrite append_assoc.
Qed.

Lemma replace_scan_no_match r template before c s :
  match_here r (String c s) = None ->
  replace_scan r template before (String c s) 0 =
  String c (replace_scan r template (before ++ chr c) s 0).
Proof. intros H. now rewrite replace_scan_0, H. Qed.

Lemma replace_scan_end r template before :
  match_here r EmptyString = None ->
  replace_scan r template before EmptyString 0 = EmptyString.
Proof. intros H. now rewrite replace_scan_0, H. Qed.

(* ================================================================== *)
(** * Segments *)

Lemma Segments_source token s l : Segments token s l -> source l = s.
Proof.
  induction 1 as [|c s l _ _ IH|s m rest l F _ IH]; simpl.
  - reflexivity.
  - now rewrite IH.
  - rewrite IH. symmetry. now apply form_at_source in F.
Qed.

(** Every content has its segments... *)
Lemma Segments_exists token : forall s, exists l, Segments token s l.
Proof.
  intros s.
  remember (String.length s) as n eqn:E.
  revert s E. induction n as [n IH] using lt_wf_ind. intros s E.
  destruct (form_at token s) as [[m rest]|] eqn:F.
  - destruct (form_at_source _ _ F) as [Hs _].
    destruct (form_at_nonempty _ _ F) as [m' Hm].
    destruct (IH (String.length rest)) with (s := rest) as [l Hl];
      [|reflexivity|].
    + subst. rewrite length_append. simpl. lia.
    + exists (Occ m :: l). eapply seg_occ; eauto.
  - destruct s as [|c s].
    + exists []. constructor.
    + destruct (IH (String.length s)) with (s := s) as [l Hl];
        [subst; simpl; lia|reflexivity|].
      exists (Text c :: l). now constructor.
Qed.

(** ... and only one list of them. *)
Lemma Segments_unique token s l :
  Segments token s l -> forall l', Segments token s l' -> l = l'.
Proof.
  induction 1 as [|c s l F _ IH|s m rest l F _ IH]; intros l' H'.
  - inversion H' as [| |s0 m0 rest0 l0 F0]; subst; [reflexivity|].
    discriminate F0.
  - inversion H' as [|c0 s0 l0 F0 S0|s0 m0 rest0 l0 F0]; subst.
    + f_equal. now apply IH.
    + congruence.
  - inversion H' as [|c0 s0 l0 F0 S0|s0 m0 rest0 l0 F0 S0]; subst.
    + destruct (form_at_nonempty _ _ F) as [m' ->].
      apply form_at_source in F. destruct F as [F _]. discriminate F.
    + congruence.
    + rewrite F in F0. inversion F0; subst. f_equal. now apply IH.
Qed.

(** The global replacement with the pattern of a mention replaces the
    occurrences of the segments, and nothing else. *)
Lemma replace_scan_Segments token template s l :
  Segments token s l ->
  forall before,
    replace_scan (mentionRegex_ast token) template before s 0 =
    substitute (fun b m a => GetSubstitution m b a template) before l.
Proof.
  induction 1 as [|c s l F _ IH|s m rest l F S IH]; intros before.
  - apply replace_scan_end. now rewrite match_here_mention.
  - rewrite replace_scan_no_match.
    + now rewrite IH.
    + now rewrite match_here_mention, F.
  - destruct (form_at_source _ _ F) as [-> _].
    destruct (form_at_nonempty _ _ F) as [m' ->].
    simpl substitute. rewrite (Segments_source S).
    rewrite replace_scan_match.
    + now rewrite IH.
    + now rewrite match_here_mention, F.
Qed.

(* ================================================================== *)
(** * escapeRegex and the pattern of a mention *)

(** The class of [escapeRegex] lists the SyntaxCharacters. *)
Lemma escapeRegex_class (c : ascii) :
  existsb (Ascii.eqb c) (list_ascii_of_string ".*+?^${}()|[]\") = is_syntax c.
Proof. destruct c as [[] [] [] [] [] [] [] []]; reflexivity. Qed.

Lemma escapeRegex_scan text : forall before,
  replace_scan escapeRegex_pattern "\$&" before text 0 = escaped text.
Proof.
  induction text as [|c t IH]; intros before; [reflexivity|].
  assert (M : match_here escapeRegex_pattern (String c t) =
              if is_syntax c then Some t else None).
  { unfold match_here, escapeRegex_pattern. cbn [rmatch].
    now rewrite escapeRegex_class. }
  simpl escaped. destruct (is_syntax c).
  - change (String c t) with (String c EmptyString ++ t).
    rewrite replace_scan_match by exact M.
    rewrite IH. reflexivity.
  - rewrite replace_scan_no_match by exact M.
    now rewrite IH.
Qed.

(** [escapeRegex] puts a backslash before each SyntaxCharacter and copies
    the other characters. *)
Lemma escapeRegex_escaped (text : string) : escapeRegex text = escaped text.
Proof. apply escapeRegex_scan. Qed.

Lemma is_syntax_false (c : ascii) :
  is_syntax c = false ->
  Ascii.eqb c "\" = false /\ Ascii.eqb c "(" = false /\
  Ascii.eqb c ")" = false /\ Ascii.eqb c "|" = false.
Proof.
  unfold is_syntax, syntax_characters. simpl. intros H.
  repeat (apply orb_false_elim in H; destruct H as [? H]).
  auto.
Qed.

Lemma lex_plain (c : ascii) (p : string) :
  is_syntax c = false -> lex (String c p) = consT (TChar c) (lex p).
Proof.
  intros H. destruct (is_syntax_false _ H) as (H1 & H2 & H3 & H4).
  simpl. now rewrite H1, H2, H3, H4, H.
Qed.

Lemma lex_escape (c : ascii) (p : string) :
  is_syntax c = true ->
  lex (String "\" (String c p)) = consT (TChar c) (lex p).
Proof. intros H. simpl. now rewrite H. Qed.

Lemma lex_open (p : string) :
  lex (String "(" (String "?" (String ":" p))) = consT TOpen (lex p).
Proof. reflexivity. Qed.

Lemma lex_bar (p : string) : lex (String "|" p) = consT TBar (lex p).
Proof. reflexivity. Qed.

(** An escaped text is read as the characters of the text. *)
Lemma lex_escaped text : forall rest,
  lex (escaped text ++ rest) =
  match lex rest with
  | Some ts => Some (chars text ++ ts)%list
  | None => None
  end.
Proof.
  induction text as [|c t IH]; intros rest.
  - simpl. now destruct (lex rest).
  - simpl escaped. destruct (is_syntax c) eqn:E.
    + change (String "\" (String c (escaped t)) ++ rest)
        with (String "\" (String c (escaped t ++ rest))).
      rewrite lex_escape by exact E. rewrite IH.
      now destruct (lex rest).
    + change (String c (escaped t) ++ rest)
        with (String c (escaped t ++ rest)).
      rewrite lex_plain by exact E. rewrite IH.
      now destruct (lex rest).
Qed.

Lemma lex_mentionRegex_source (mention : string) :
  lex (mentionRegex_source mention) =
  Some (TChar "@" :: TOpen :: TChar dquote ::
        chars mention ++ TChar dquote :: TBar ::
        chars mention ++ [TClose])%list.
Proof.
  unfold mentionRegex_source. rewrite !escapeRegex_escaped.
  change ("@(?:" ++ chr dquote ++ escaped mention ++ chr dquote ++ "|"
            ++ escaped mention ++ ")")
    with (String "@" (String "(" (String "?" (String ":" (String dquote
            (escaped mention ++ String dquote (String "|"
               (escaped mention ++ ")")))))))).
  rewrite lex_plain by reflexivity.
  rewrite lex_open.
  rewrite lex_plain by reflexivity.
  rewrite lex_escaped.
  rewrite lex_plain by reflexivity.
  rewrite lex_bar.
  rewrite lex_escaped.
  reflexivity.
Qed.

Lemma parse_tokens_chars lit : forall ts f outer,
  parse_tokens (chars lit ++ ts) f outer =
  parse_tokens ts (mkFrame (closed f) (lit_from (current f) lit)) outer.
Proof.
  unfold chars.
  induction lit as [|c lit IH]; intros ts f outer; simpl.
  - now destruct f.
  - now rewrite IH.
Qed.

(** The pattern built for a mention is read as: an at sign, then the
    quoted mention or else the mention, all characters standing for
    themselves. *)
Lemma parse_mentionRegex_source (mention : string) :
  parse_pattern (mentionRegex_source mention) = Some (mentionRegex_ast mention).
Proof.
  unfold parse_pattern. rewrite lex_mentionRegex_source.
  cbn [parse_tokens closed current].
  rewrite parse_tokens_chars.
  cbn [parse_tokens closed current].
  rewrite parse_tokens_chars.
  reflexivity.
Qed.

(** The RegExp constructor never throws on the pattern of a mention. *)
Lemma new_RegExp_mention (mention : string) :
  new_RegExp (mentionRegex_source mention) = Normal (mentionRegex_ast mention).
Proof. unfold new_RegExp. now rewrite parse_mentionRegex_source. Qed.

(* ================================================================== *)
(** * processMentionsInHtml *)

Lemma processMention_Normal mapping index st :
  processMention mapping index st =
  Normal
    (ProcessState.mk
       (replace (mentionRegex_ast (MentionMapping.mention mapping))
          (mentionTemplate index (MentionMapping.displayName mapping))
          (ProcessState.processedContent st))
       (push (ProcessState.mentions st) (graphMention index mapping))).
Proof. unfold processMention. now rewrite new_RegExp_mention. Qed.

Lemma forEach_Normal mappings : forall index st,
  forEach mappings index st =
  Normal
    (ProcessState.mk
       (injected index mappings (ProcessState.processedContent st))
       (ProcessState.mentions st ++ graphMentions_from index mappings)%list).
Proof.
  induction mappings as [|m ms IH]; intros index st; simpl.
  - rewrite app_nil_r. now destruct st.
  - rewrite processMention_Normal. simpl. rewrite IH. simpl.
    unfold push. now rewrite <- app_assoc.
Qed.

(** [processMentionsInHtml] always returns: the content with the
    replacements made in turn, and one record for each mapping. *)
Lemma processMentionsInHtml_Normal html mappings :
  processMentionsInHtml html mappings =
  Normal (ProcessResult.mk (injected 0 mappings html)
            (graphMentions_from 0 mappings)).
Proof. unfold processMentionsInHtml. now rewrite forEach_Normal. Qed.

Lemma injected_app ms1 : forall ms2 index content,
  injected index (ms1 ++ ms2) content =
  injected (index + List.length ms1) ms2 (injected index ms1 content).
Proof.
  induction ms1 as [|m ms1 IH]; intros ms2 index content; simpl.
  - now rewrite Nat.add_0_r.
  - rewrite IH. now rewrite Nat.add_succ_r.
Qed.

Lemma graphMentions_from_app ms1 : forall ms2 index,
  graphMentions_from index (ms1 ++ ms2) =
  (graphMentions_from index ms1 ++
   graphMentions_from (index + List.length ms1) ms2)%list.
Proof.
  induction ms1 as [|m ms1 IH]; intros ms2 index; simpl.
  - now rewrite Nat.add_0_r.
  - rewrite IH. now rewrite Nat.add_succ_r.
Qed.

Lemma graphMentions_from_length ms : forall index,
  List.length (graphMentions_from index ms) = List.length ms.
Proof. induction ms as [|m ms IH]; intros index; simpl; congruence. Qed.

Lemma graphMention_id index mapping :
  GraphMention.id (graphMention index mapping) = index.
Proof. unfold graphMention. now destruct (isUserMentionMapping mapping). Qed.

Lemma graphMentions_from_ids ms : forall index,
  map GraphMention.id (graphMentions_from index ms) =
  seq index (List.length ms).
Proof.
  induction ms as [|m ms IH]; intros index; simpl; [reflexivity|].
  now rewrite graphMention_id, IH.
Qed.

Lemma graphMentions_from_nth ms : forall index i m,
  nth_error ms i = Some m ->
  nth_error (graphMentions_from index ms) i = Some (graphMention (index + i) m).
Proof.
  induction ms as [|m0 ms IH]; intros index i m H.
  - destruct i; discriminate H.
  - destruct i as [|i]; simpl in *.
    + inversion H; subst. now rewrite Nat.add_0_r.
    + rewrite (IH (S index) i m H). now rewrite Nat.add_succ_r.
Qed.

(** The step of the last mapping of a list. *)
Lemma processMentionsInHtml_snoc html mappings mapping :
  processMentionsInHtml html (mappings ++ [mapping]) =
  Normal
    (ProcessResult.mk
       (replace (mentionRegex_ast (MentionMapping.mention mapping))
          (mentionTemplate (List.length mappings)
             (MentionMapping.displayName mapping))
          (injected 0 mappings html))
       (graphMentions_from 0 mappings ++
        [graphMention (List.length mappings) mapping])%list).
Proof.
  rewrite processMentionsInHtml_Normal, injected_app, graphMentions_from_app.
  reflexivity.
Qed.

(** The replacement of a mapping on a content cut into segments. *)
Lemma replace_mention_Segments token template content l :
  Segments token content l ->
  replace (mentionRegex_ast token) template content =
  substitute (fun b m a => GetSubstitution m b a template) EmptyString l.
Proof. intros H. unfold replace. now apply replace_scan_Segments. Qed.

Lemma substitute_ext f g l : forall before,
  (forall b m a, f b m a = g b m a) ->
  substitute f before l = substitute g before l.
Proof.
  induction l as [|[c|m] l IH]; intros before E; simpl.
  - reflexivity.
  - now rewrite IH.
  - now rewrite E, IH.
Qed.

(** Without occurrence the segments are the content. *)
Lemma substitute_no_occurrence f l : forall before,
  occurrences l = 0 -> substitute f before l = source l.
Proof.
  induction l as [|[c|m] l IH]; intros before H; simpl in *.
  - reflexivity.
  - now rewrite IH.
  - discriminate H.
Qed.

Lemma form_at_not_at token c s :
  Ascii.eqb c "@" = false -> form_at token (String c s) = None.
Proof.
  intros H. unfold form_at, quoted, bare. simpl. now rewrite H.
Qed.

(** A text without at sign before some segments. *)
Lemma Segments_texts_app token pre : forall rest l,
  contains_char "@" pre = false ->
  Segments token rest l ->
  Segments token (pre ++ rest) (texts pre ++ l)%list.
Proof.
  induction pre as [|c pre IH]; intros rest l H S; simpl; [exact S|].
  apply contains_char_cons_false in H. destruct H as [Hc Hp].
  apply seg_text; [now apply form_at_not_at | now apply IH].
Qed.

Lemma Segments_texts token s :
  contains_char "@" s = false -> Segments token s (texts s).
Proof.
  intros H. rewrite <- (append_nil_r s) at 1. rewrite <- (app_nil_r (texts s)).
  apply Segments_texts_app; [exact H | constructor].
Qed.

Lemma substitute_texts_app f pre : forall before l,
  substitute f before (texts pre ++ l) =
  pre ++ substitute f (before ++ pre) l.
Proof.
  induction pre as [|c pre IH]; intros before l; simpl.
  - now rewrite append_nil_r.
  - rewrite IH. now rewrite append_assoc.
Qed.

Lemma source_texts s : source (texts s) = s.
Proof. induction s as [|c s IH]; simpl; congruence. Qed.

Lemma occurrences_texts s : occurrences (texts s) = 0.
Proof. induction s as [|c s IH]; simpl; congruence. Qed.

Lemma substitute_texts f before s : substitute f before (texts s) = s.
Proof.
  rewrite substitute_no_occurrence by apply occurrences_texts.
  apply source_texts.
Qed.

Lemma form_at_quoted token post :
  form_at token (quoted token ++ post) = Some (quoted token, post).
Proof. unfold form_at. now rewrite strip_prefix_app. Qed.

Lemma form_at_bare token post :
  strip_prefix (quoted token) (bare token ++ post) = None ->
  form_at token (bare token ++ post) = Some (bare token, post).
Proof. intros H. unfold form_at. now rewrite H, strip_prefix_app. Qed.

Lemma filter_id_graphMentions_from n ms : forall index,
  index + List.length ms <= n ->
  filter (fun g => Nat.eqb (GraphMention.id g) n)
    (graphMentions_from index ms) = [].
Proof.
  induction ms as [|m ms IH]; intros index H; simpl in *; [reflexivity|].
  rewrite graphMention_id.
  destruct (Nat.eqb_spec index n) as [E|_]; [lia|].
  apply IH. lia.
Qed.

Lemma mentionTemplate_plain index displayName :
  contains_char "$" displayName = false ->
  contains_char "$" (mentionTemplate index displayName) = false.
Proof.
  intros H. rewrite mentionTemplate_span.
  rewrite !contains_char_append, span_open_plain, H. reflexivity.
Qed.

Lemma filter_id_graphMentions_above n ms : forall index,
  n < index ->
  filter (fun g => Nat.eqb (GraphMention.id g) n)
    (graphMentions_from index ms) = [].
Proof.
  induction ms as [|m ms IH]; intros index H; simpl in *; [reflexivity|].
  rewrite graphMention_id.
  destruct (Nat.eqb_spec index n) as [E|_]; [lia|].
  apply IH. lia.
Qed.

(** Among the records of a list exactly one has the sequence id of the
    mapping at a given position: the record of that mapping. *)
Lemma filter_id_graphMentions pre m post :
  filter (fun g => Nat.eqb (GraphMention.id g) (List.length pre))
    (graphMentions_from 0 (pre ++ m :: post)) =
  [graphMention (List.length pre) m].
Proof.
  rewrite graphMentions_from_app, filter_app. simpl.
  rewrite filter_id_graphMentions_from by (simpl; lia).
  rewrite graphMention_id, Nat.eqb_refl.
  rewrite filter_id_graphMentions_above by lia. reflexivity.
Qed.

(** The occurrences of the segments are written forms of the mention. *)
Lemma Segments_forms token s l :
  Segments token s l -> Forall (occurrence_of token) l.
Proof.
  induction 1 as [|c s l _ _ IH|s m rest l F _ IH]; constructor; simpl; auto.
  now apply form_at_source in F.
Qed.

(** A content without at sign is left as it is by every list of
    mappings. *)
Lemma injected_no_at mappings : forall index content,
  contains_char "@" content = false ->
  injected index mappings content = content.
Proof.
  induction mappings as [|m ms IH]; intros index content H; simpl.
  - reflexivity.
  - rewrite (replace_mention_Segments _ (Segments_texts _ _ H)).
    rewrite substitute_texts. now apply IH.
Qed.

Lemma cons_app {A : Type} (a : A) (l : list A) : a :: l = ([a] ++ l)%list.
Proof. reflexivity. Qed.

(** The content after a list is the content after its first mappings
    with the other mappings applied in turn. *)
Lemma processMentionsInHtml_later html pre m post :
  processMentionsInHtml html (pre ++ m :: post) =
  Normal
    (ProcessResult.mk
       (injected (S (List.length pre)) post (injected 0 (pre ++ [m]) html))
       (graphMentions_from 0 (pre ++ m :: post))).
Proof.
  rewrite processMentionsInHtml_Normal. do 2 f_equal.
  rewrite (cons_app m post), app_assoc, injected_app.
  rewrite length_app. simpl. now rewrite Nat.add_1_r.
Qed.

(** Builds the segments of a given content. *)
Ltac segments :=
  repeat first
    [ apply seg_end
    | apply seg_text; [reflexivity|]
    | eapply seg_occ; [reflexivity|] ].


(* ================================================================== *)
(** * The claims on processMentionsInHtml *)

(** C8.  With an empty list of mappings [processMentionsInHtml] returns
    the content as it was given and an empty list of records, for every
    content. *)
Theorem processMentionsInHtml_no_mappings (C : string) :
  processMentionsInHtml C [] = Normal (ProcessResult.mk C []).
Proof. reflexivity. Qed.


(** C5.  The record of a mapping at position i of the list is decided by
    its variant: with a [userId] the target is the user of that id, and
    with a [channelId] and no [userId] the target is the conversation of
    that id, its display name the label and its kind "channel"; in both
    the display text is the label. *)
Theorem processMentionsInHtml_dispatch (html : string)
  (mappings : list MentionMapping.t) (i : nat) (m : MentionMapping.t) :
  nth_error mappings i = Some m ->
  exists r,
    processMentionsInHtml html mappings = Normal r /\
    (forall entityId,
        MentionMapping.userId m = Some entityId ->
        nth_error (ProcessResult.mentions r) i =
        Some (GraphMention.mk i (MentionMapping.displayName m)
                (GraphMention.user (Some entityId)))) /\
    (forall entityId,
        MentionMapping.userId m = None ->
        MentionMapping.channelId m = Some entityId ->
        nth_error (ProcessResult.mentions r) i =
        Some (GraphMention.mk i (MentionMapping.displayName m)
                (GraphMention.conversation (Some entityId)
                   (MentionMapping.displayName m) "channel"))).
Proof.
  intros H. eexists. split; [apply processMentionsInHtml_Normal|]. simpl.
  rewrite (graphMentions_from_nth _ 0 _ H). simpl.
  unfold graphMention, isUserMentionMapping.
  split.
  - intros u Hu. now rewrite Hu.
  - intros c Hu Hc. now rewrite Hu, Hc.
Qed.

(** C9.  A mapping that has both a [userId] and a [channelId] passes both
    type guards, and [processMentionsInHtml] treats it as a user mention:
    at every position of the list its record has the user target, and the
    [channelId] is not used. *)
Theorem both_ids_is_user_mention (mention userId channelId displayName : string)
  (html : string) (pre post : list MentionMapping.t) :
  let mapping :=
    MentionMapping.mk mention (Some userId) (Some channelId) displayName in
  isUserMentionMapping mapping = true /\
  isChannelMentionMapping mapping = true /\
  exists r,
    processMentionsInHtml html (pre ++ mapping :: post) = Normal r /\
    nth_error (ProcessResult.mentions r) (List.length pre) =
    Some (GraphMention.mk (List.length pre) displayName
            (GraphMention.user (Some userId))).
Proof.
  intros mapping. split; [reflexivity|]. split; [reflexivity|].
  eexists. split; [apply processMentionsInHtml_Normal|]. simpl.
  rewrite (@graphMentions_from_nth _ 0 (List.length pre) mapping).
  - reflexivity.
  - rewrite nth_error_app2 by lia. now rewrite Nat.sub_diag.
Qed.




(* ================================================================== *)
(** * Contents laid out as plain text and mentions *)

Lemma begins_refl_nil (s : string) : begins EmptyString s = true.
Proof. reflexivity. Qed.

(** Two texts that begin the same content: one begins the other. *)
Lemma strip_prefix_comparable p : forall q r x,
  strip_prefix p (q ++ r) = Some x ->
  begins p q = true \/ begins q p = true.
Proof.
  induction p as [|a p IH]; intros q r x H.
  - now left.
  - destruct q as [|b q]; [now right|].
    simpl in H. unfold begins. simpl.
    destruct (Ascii.eqb_spec b a) as [->|N]; [|discriminate].
    rewrite Ascii.eqb_refl. apply (IH _ _ _ H).
Qed.

Lemma apart_nth tokens : forall i j a b,
  apart tokens = true ->
  i < j ->
  nth_error tokens i = Some a ->
  nth_error tokens j = Some b ->
  begins a b = false /\ begins b a = false.
Proof.
  induction tokens as [|t ts IH]; intros i j a b A L Hi Hj.
  - destruct i; discriminate.
  - simpl in A. apply andb_prop in A. destruct A as [F A].
    destruct j as [|j]; [lia|]. simpl in Hj.
    destruct i as [|i]; simpl in Hi.
    + inversion Hi; subst t.
      rewrite forallb_forall in F.
      specialize (F b (nth_error_In _ _ Hj)).
      apply andb_prop in F. destruct F as [F1 F2].
      now rewrite negb_true_iff in F1, F2.
    + apply (IH i j); auto. lia.
Qed.

Lemma apart_nth_neq tokens i j a b :
  apart tokens = true ->
  i <> j ->
  nth_error tokens i = Some a ->
  nth_error tokens j = Some b ->
  begins a b = false /\ begins b a = false.
Proof.
  intros A N Hi Hj.
  destruct (Nat.lt_total i j) as [L|[E|L]]; [|contradiction|].
  - eapply apart_nth; eauto.
  - destruct (@apart_nth tokens j i b a A L Hj Hi). now split.
Qed.

Lemma string_of_uint_no_at (d : Decimal.uint) :
  contains_char "@" (NilEmpty.string_of_uint d) = false.
Proof. induction d; simpl; auto. Qed.

Lemma span_open_no_at (index : nat) :
  contains_char "@" (span_open index) = false.
Proof.
  unfold span_open, string_of_index.
  rewrite !contains_char_append, string_of_uint_no_at. reflexivity.
Qed.

Section Layout.

Variable mappings : list MentionMapping.t.

Hypothesis tokens_plain :
  forallb plain_token (map MentionMapping.mention mappings) = true.
Hypothesis labels_plain :
  forallb plain_label (map MentionMapping.displayName mappings) = true.
Hypothesis tokens_apart :
  apart (map MentionMapping.mention mappings) = true.

Lemma token_plain j m :
  nth_error mappings j = Some m ->
  exists t0 t',
    MentionMapping.mention m = String t0 t' /\
    Ascii.eqb t0 dquote = false /\
    Ascii.eqb t0 "@" = false /\
    contains_char "@" (MentionMapping.mention m) = false /\
    contains_char dquote (MentionMapping.mention m) = false /\
    In t0 (first_chars mappings).
Proof.
  intros H.
  assert (P : plain_token (MentionMapping.mention m) = true).
  { rewrite forallb_forall in tokens_plain. apply tokens_plain.
    apply in_map. eapply nth_error_In; eauto. }
  unfold plain_token in P.
  apply andb_prop in P. destruct P as [P Q].
  apply andb_prop in P. destruct P as [E A].
  rewrite negb_true_iff in E, A, Q.
  destruct (MentionMapping.mention m) as [|t0 t'] eqn:T; [discriminate E|].
  exists t0, t'. split; [reflexivity|].
  simpl in A, Q. apply orb_false_elim in A, Q.
  destruct A as [A0 A], Q as [Q0 Q].
  repeat split; auto.
  - simpl. now rewrite A0, A.
  - simpl. now rewrite Q0, Q.
  - unfold first_chars. apply in_flat_map. exists m.
    split; [eapply nth_error_In; eauto|]. rewrite T. now left.
Qed.

Lemma label_plain j m :
  nth_error mappings j = Some m ->
  contains_char "@" (MentionMapping.displayName m) = false /\
  contains_char "$" (MentionMapping.displayName m) = false.
Proof.
  intros H.
  assert (P : plain_label (MentionMapping.displayName m) = true).
  { rewrite forallb_forall in labels_plain. apply labels_plain.
    apply in_map. eapply nth_error_In; eauto. }
  unfold plain_label in P. apply andb_prop in P. destruct P as [A D].
  now rewrite negb_true_iff in A, D.
Qed.

Lemma tokens_apart_nth i j mi mj :
  i <> j ->
  nth_error mappings i = Some mi ->
  nth_error mappings j = Some mj ->
  begins (MentionMapping.mention mi) (MentionMapping.mention mj) = false /\
  begins (MentionMapping.mention mj) (MentionMapping.mention mi) = false.
Proof.
  intros N Hi Hj.
  apply (apart_nth_neq _ tokens_apart N); now apply map_nth_error.
Qed.

Lemma span_of_no_at j m :
  nth_error mappings j = Some m ->
  contains_char "@" (span_of mappings j) = false.
Proof.
  intros H. unfold span_of. rewrite H.
  destruct (label_plain _ H) as [A _].
  now rewrite !contains_char_append, span_open_no_at, A.
Qed.

(** No form of a mention begins at an at sign that is followed by
    neither a double quote nor the first character of the mention. *)
Lemma form_at_other_start t0 t' c s :
  Ascii.eqb c dquote = false ->
  Ascii.eqb c t0 = false ->
  form_at (String t0 t') (String "@" (String c s)) = None.
Proof.
  intros Q T. unfold form_at, quoted, bare, chr. simpl.
  now rewrite Q, T.
Qed.

Lemma form_at_lone_at t0 t' :
  form_at (String t0 t') (String "@" EmptyString) = None.
Proof.
  unfold form_at, quoted, bare, chr. simpl. reflexivity.
Qed.

(** The mention of another mapping is no mention of this one. *)
Lemma form_at_written_other i j mi mj in_quotes rest :
  i <> j ->
  nth_error mappings i = Some mi ->
  nth_error mappings j = Some mj ->
  form_at (MentionMapping.mention mj)
    (written mappings i in_quotes ++ rest) = None.
Proof.
  intros N Hi Hj.
  destruct (token_plain _ Hi) as (a0 & a' & Ta & Qa & _ & _ & _ & _).
  destruct (token_plain _ Hj) as (b0 & b' & Tb & Qb & _ & _ & _ & _).
  destruct (tokens_apart_nth N Hi Hj) as [B1 B2].
  unfold written. rewrite Hi.
  unfold form_at, quoted, bare, chr.
  destruct in_quotes; simpl; rewrite ?Ascii.eqb_refl.
  - (* the other mention is in quotes *)
    rewrite ?Ascii.eqb_refl.
    assert (Q : strip_prefix (MentionMapping.mention mj ++ String dquote EmptyString)
                  ((MentionMapping.mention mi ++ String dquote EmptyString) ++ rest)
                = None).
    { rewrite strip_prefix_append.
      destruct (strip_prefix (MentionMapping.mention mj)
                  ((MentionMapping.mention mi ++ String dquote EmptyString) ++ rest))
        as [x|] eqn:S; [|reflexivity].
      rewrite append_assoc in S.
      destruct (strip_prefix_comparable _ _ _ S); congruence. }
    rewrite Q.
    rewrite Tb. simpl. rewrite Ascii.eqb_sym, Qb. reflexivity.
  - (* the other mention is bare *)
    rewrite Ta at 1. simpl. rewrite Qa.
    destruct (strip_prefix (MentionMapping.mention mj)
                (MentionMapping.mention mi ++ rest)) as [x|] eqn:S;
      [|reflexivity].
    destruct (strip_prefix_comparable _ _ _ S); congruence.
Qed.

(** The mention of a mapping is found where it is written. *)
Lemma form_at_written j m in_quotes rest :
  nth_error mappings j = Some m ->
  form_at (MentionMapping.mention m) (written mappings j in_quotes ++ rest) =
  Some (written mappings j in_quotes, rest).
Proof.
  intros H. unfold written. rewrite H.
  destruct in_quotes; [apply form_at_quoted|].
  apply form_at_bare.
  destruct (token_plain _ H) as (t0 & t' & T & Q & _).
  unfold quoted, bare, chr. rewrite T. simpl.
  now rewrite ?Ascii.eqb_refl, Q.
Qed.

Lemma written_at i m in_quotes :
  nth_error mappings i = Some m ->
  exists u,
    written mappings i in_quotes = String "@" u /\
    contains_char "@" u = false.
Proof.
  intros H. unfold written. rewrite H.
  destruct (token_plain _ H) as (_ & _ & _ & _ & _ & A & _ & _).
  unfold quoted, bare, chr.
  destruct in_quotes; simpl; eexists; (split; [reflexivity|]).
  - simpl. rewrite contains_char_append, A. reflexivity.
  - exact A.
Qed.

(** The segments of the pieces, when the mappings before [k] have been
    applied, for the mention of a mapping that has not. *)
Lemma Segments_partly k j m :
  k <= j ->
  nth_error mappings j = Some m ->
  forall pieces,
    laid_out (first_chars mappings) (List.length mappings) pieces = true ->
    Segments (MentionMapping.mention m) (partly mappings k pieces)
      (cut mappings k j pieces).
Proof.
  intros K Hj.
  destruct (token_plain _ Hj) as (t0 & t' & T & Q0 & A0 & _ & _ & F0).
  induction pieces as [|[c|i q] rest IH]; intros O; simpl in O.
  - constructor.
  - apply andb_prop in O. destruct O as [O1 O2].
    simpl. apply seg_text; [|now apply IH].
    destruct (Ascii.eqb_spec c "@") as [->|N].
    + rewrite T. destruct rest as [|[c'|i' q'] rest']; simpl.
      * apply form_at_lone_at.
      * apply andb_prop in O1. destruct O1 as [D E].
        rewrite negb_true_iff in D, E.
        apply form_at_other_start; [exact D|].
        destruct (Ascii.eqb c' t0) eqn:X; [|reflexivity].
        exfalso. rewrite <- not_true_iff_false in E. apply E.
        apply existsb_exists. exists t0. auto.
      * discriminate O1.
    + apply form_at_not_at. now apply Ascii.eqb_neq.
  - apply andb_prop in O. destruct O as [O1 O2].
    apply Nat.ltb_lt in O1.
    destruct (nth_error mappings i) as [mi|] eqn:Hi;
      [|apply nth_error_None in Hi; lia].
    simpl. destruct (Nat.ltb_spec i k) as [L|L].
    + apply Segments_texts_app; [now apply (@span_of_no_at i mi)|now apply IH].
    + destruct (Nat.eqb_spec i j) as [->|N].
      * simpl. eapply seg_occ; [|now apply IH].
        rewrite Hj in Hi. inversion Hi; subst mi.
        now apply form_at_written.
      * destruct (@written_at i mi q Hi) as (u & W & U).
        assert (F : form_at (MentionMapping.mention m)
                      (written mappings i q ++ partly mappings k rest) = None)
          by now apply (@form_at_written_other i j mi m q).
        rewrite W in *. simpl.
        apply seg_text; [exact F|].
        apply Segments_texts_app; [exact U|now apply IH].
Qed.

(** Replacing the occurrences of the segments applies the mapping. *)
Lemma substitute_cut k m f :
  nth_error mappings k = Some m ->
  (forall b x a,
      f b x a = span_open k ++ MentionMapping.displayName m ++ span_close) ->
  forall pieces before,
    laid_out (first_chars mappings) (List.length mappings) pieces = true ->
    substitute f before (cut mappings k k pieces) =
    partly mappings (S k) pieces.
Proof.
  intros Hk Hf.
  induction pieces as [|[c|i q] rest IH]; intros before O; simpl in O.
  - reflexivity.
  - apply andb_prop in O. destruct O as [_ O]. simpl. now rewrite IH.
  - apply andb_prop in O. destruct O as [_ O]. simpl.
    destruct (Nat.ltb_spec i k) as [L|L].
    + rewrite substitute_texts_app, IH by exact O.
      destruct (Nat.ltb_spec i (S k)); [reflexivity|lia].
    + destruct (Nat.eqb_spec i k) as [->|N].
      * simpl. rewrite Hf, IH by exact O.
        destruct (Nat.ltb_spec k (S k)); [|lia].
        unfold span_of. now rewrite Hk.
      * rewrite substitute_texts_app, IH by exact O.
        destruct (Nat.ltb_spec i (S k)); [lia|reflexivity].
Qed.

(** One mapping applied to the pieces. *)
Lemma replace_partly k m pieces :
  nth_error mappings k = Some m ->
  laid_out (first_chars mappings) (List.length mappings) pieces = true ->
  replace (mentionRegex_ast (MentionMapping.mention m))
    (mentionTemplate k (MentionMapping.displayName m))
    (partly mappings k pieces) =
  partly mappings (S k) pieces.
Proof.
  intros Hk O.
  rewrite (replace_mention_Segments _ (Segments_partly (Nat.le_refl k) Hk _ O)).
  apply (@substitute_cut k m); auto.
  intros b x a. rewrite GetSubstitution_mentionTemplate.
  destruct (@label_plain k m Hk) as [_ D].
  now rewrite (GetSubstitution_plain _ _ _ _ D).
Qed.

Lemma injected_partly pieces :
  laid_out (first_chars mappings) (List.length mappings) pieces = true ->
  forall rest done,
    mappings = (done ++ rest)%list ->
    injected (List.length done) rest (partly mappings (List.length done) pieces)
    = partly mappings (List.length mappings) pieces.
Proof.
  intros O. induction rest as [|m rest IH]; intros done E.
  - rewrite app_nil_r in E. now subst.
  - simpl. rewrite replace_partly; auto.
    + specialize (IH (done ++ [m])%list).
      rewrite length_app in IH. simpl in IH. rewrite Nat.add_1_r in IH.
      apply IH. now rewrite <- app_assoc.
    + rewrite E, nth_error_app2, Nat.sub_diag by lia. reflexivity.
Qed.

End Layout.

Lemma partly_given mappings pieces :
  partly mappings 0 pieces = given mappings pieces.
Proof.
  induction pieces as [|[c|i q] rest IH]; simpl; [reflexivity| |];
    now rewrite IH.
Qed.

Lemma partly_returned mappings firsts pieces :
  laid_out firsts (List.length mappings) pieces = true ->
  partly mappings (List.length mappings) pieces = returned mappings pieces.
Proof.
  induction pieces as [|[c|i q] rest IH]; simpl; intros O.
  - reflexivity.
  - apply andb_prop in O. destruct O as [_ O]. now rewrite IH.
  - apply andb_prop in O. destruct O as [L O]. now rewrite L, IH.
Qed.

Lemma independent_parts mappings pieces :
  independent mappings pieces = true ->
  forallb plain_token (map MentionMapping.mention mappings) = true /\
  forallb plain_label (map MentionMapping.displayName mappings) = true /\
  apart (map MentionMapping.mention mappings) = true /\
  laid_out (first_chars mappings) (List.length mappings) pieces = true.
Proof.
  unfold independent. intros H.
  apply andb_prop in H. destruct H as [H L].
  apply andb_prop in H. destruct H as [H A].
  apply andb_prop in H. destruct H as [T D]. auto.
Qed.

(** The mappings of a list applied to a content whose mentions do not
    act on each other: every mention is replaced by the span of its
    mapping, and the plain text is kept. *)
Lemma processMentionsInHtml_layout mappings pieces :
  independent mappings pieces = true ->
  processMentionsInHtml (given mappings pieces) mappings =
  Normal
    (ProcessResult.mk (returned mappings pieces)
       (graphMentions_from 0 mappings)).
Proof.
  intros H. destruct (independent_parts _ _ H) as (T & D & A & O).
  rewrite processMentionsInHtml_Normal. f_equal. f_equal.
  rewrite <- partly_given, <- (partly_returned _ _ _ O).
  apply (@injected_partly mappings T D A pieces O mappings []). reflexivity.
Qed.

Lemma occurrences_app l1 l2 :
  occurrences (l1 ++ l2) = occurrences l1 + occurrences l2.
Proof.
  induction l1 as [|[c|m] l1 IH]; simpl; [reflexivity|exact IH|now rewrite IH].
Qed.

Lemma occurrences_cut mappings j pieces :
  occurrences (cut mappings 0 j pieces) = count_at j pieces.
Proof.
  induction pieces as [|[c|i q] rest IH]; simpl; [reflexivity|exact IH|].
  rewrite occurrences_app, IH.
  destruct (Nat.eqb i j); simpl; [reflexivity|].
  now rewrite occurrences_texts.
Qed.

(** The occurrences of a mention in a content laid out are the mentions
    of its mapping among the pieces. *)
Lemma occurrences_given mappings pieces j m l :
  independent mappings pieces = true ->
  nth_error mappings j = Some m ->
  Segments (MentionMapping.mention m) (given mappings pieces) l ->
  occurrences l = count_at j pieces.
Proof.
  intros H Hj S. destruct (independent_parts _ _ H) as (T & D & A & O).
  rewrite <- partly_given in S.
  rewrite <- (Segments_unique
                (@Segments_partly mappings T D A 0 j m (Nat.le_0_l j) Hj
                   pieces O) S).
  apply occurrences_cut.
Qed.

(* ================================================================== *)
(** * A mention without occurrence *)

Lemma texts_app a b : texts (a ++ b) = (texts a ++ texts b)%list.
Proof. induction a as [|c a IH]; simpl; congruence. Qed.

(** Segments without occurrence are the characters of the content. *)
Lemma Segments_zero token s l :
  Segments token s l -> occurrences l = 0 -> l = texts s.
Proof.
  induction 1 as [|c s l F _ IH|s m rest l F _ IH]; simpl; intros Z.
  - reflexivity.
  - now rewrite IH.
  - discriminate Z.
Qed.

Lemma Segments_texts_tail token c s :
  Segments token (String c s) (texts (String c s)) ->
  form_at token (String c s) = None /\ Segments token s (texts s).
Proof. intros H. inversion H; subst. now split. Qed.

Lemma Segments_texts_suffix token p : forall s,
  Segments token (p ++ s) (texts (p ++ s)) -> Segments token s (texts s).
Proof.
  induction p as [|c p IH]; intros s H; simpl in H; [exact H|].
  apply IH. now apply Segments_texts_tail in H.
Qed.

(** What does not begin a content does not begin it after the
    occurrences of another mention have become spans, unless it holds
    the first character of a span. *)
Lemma strip_prefix_substitute f l :
  (forall b x a, exists rest, f b x a = String "<" rest) ->
  forall p before,
    contains_char "<" p = false ->
    strip_prefix p (source l) = None ->
    strip_prefix p (substitute f before l) = None.
Proof.
  intros Hf. induction l as [|[c|m] l IH]; intros p before P H.
  - exact H.
  - destruct p as [|x p]; [discriminate H|]. simpl in *.
    apply orb_false_elim in P. destruct P as [_ P].
    destruct (Ascii.eqb c x); [now apply IH|reflexivity].
  - destruct p as [|x p]; [discriminate H|]. simpl.
    destruct (Hf before m (source l)) as [rest ->]. simpl.
    simpl in P. apply orb_false_elim in P. destruct P as [P _].
    now rewrite Ascii.eqb_sym, P.
Qed.

Lemma form_at_at token s :
  form_at token (String "@" s) =
  match strip_prefix (String dquote (token ++ chr dquote)) s with
  | Some rest => Some (quoted token, rest)
  | None =>
      match strip_prefix token s with
      | Some rest => Some (bare token, rest)
      | None => None
      end
  end.
Proof. reflexivity. Qed.

Lemma form_at_substitute token f l before :
  (forall b x a, exists rest, f b x a = String "<" rest) ->
  contains_char "<" token = false ->
  form_at token (String "@" (source l)) = None ->
  form_at token (String "@" (substitute f before l)) = None.
Proof.
  intros Hf T. rewrite !form_at_at. intros H.
  destruct (strip_prefix (String dquote (token ++ chr dquote)) (source l))
    eqn:Q; [discriminate H|].
  destruct (strip_prefix token (source l)) eqn:B; [discriminate H|].
  assert (P : contains_char "<" (String dquote (token ++ chr dquote)) = false)
    by (simpl; rewrite contains_char_append, T; reflexivity).
  rewrite (@strip_prefix_substitute f l Hf _ before P Q).
  now rewrite (@strip_prefix_substitute f l Hf _ before T B).
Qed.

(** A mention without occurrence in a content has none after the
    occurrences of another mention have become spans without at sign. *)
Lemma Segments_texts_substitute token f :
  (forall b x a, exists rest, f b x a = String "<" rest) ->
  (forall b x a, contains_char "@" (f b x a) = false) ->
  contains_char "<" token = false ->
  forall l before,
    Segments token (source l) (texts (source l)) ->
    Segments token (substitute f before l) (texts (substitute f before l)).
Proof.
  intros Hf Ha T. induction l as [|[c|m] l IH]; intros before H.
  - exact H.
  - simpl in *. apply Segments_texts_tail in H. destruct H as [F H].
    apply seg_text; [|now apply IH].
    destruct (Ascii.eqb_spec c "@") as [->|N].
    + now apply form_at_substitute.
    + apply form_at_not_at. now apply Ascii.eqb_neq.
  - simpl in *. rewrite texts_app.
    apply Segments_texts_app; [apply Ha|].
    apply IH. now apply Segments_texts_suffix in H.
Qed.

Lemma mentionTemplate_no_at index displayName :
  contains_char "@" displayName = false ->
  contains_char "@" (mentionTemplate index displayName) = false.
Proof.
  intros H. rewrite mentionTemplate_span.
  rewrite !contains_char_append, span_open_no_at, H. reflexivity.
Qed.

(** ... and none after another mapping whose display name holds neither
    an at sign nor a dollar sign has been applied. *)
Lemma Segments_texts_replace token mapping index content :
  plain_label (MentionMapping.displayName mapping) = true ->
  contains_char "<" token = false ->
  Segments token content (texts content) ->
  let content' :=
    replace (mentionRegex_ast (MentionMapping.mention mapping))
      (mentionTemplate index (MentionMapping.displayName mapping)) content in
  Segments token content' (texts content').
Proof.
  intros P T H content'. subst content'.
  unfold plain_label in P. apply andb_prop in P. destruct P as [A D].
  rewrite negb_true_iff in A, D.
  destruct (Segments_exists (MentionMapping.mention mapping) content)
    as [l S].
  rewrite (replace_mention_Segments _ S).
  rewrite <- (Segments_source S) in H.
  apply Segments_texts_substitute; auto.
  - intros b x a. rewrite GetSubstitution_plain
      by now apply mentionTemplate_plain.
    unfold mentionTemplate. simpl. eauto.
  - intros b x a. rewrite GetSubstitution_plain
      by now apply mentionTemplate_plain.
    now apply mentionTemplate_no_at.
Qed.

Lemma Segments_texts_injected token mappings : forall index content,
  forallb plain_label (map MentionMapping.displayName mappings) = true ->
  contains_char "<" token = false ->
  Segments token content (texts content) ->
  Segments token (injected index mappings content)
    (texts (injected index mappings content)).
Proof.
  induction mappings as [|m ms IH]; intros index content P T H; simpl.
  - exact H.
  - simpl in P. apply andb_prop in P. destruct P as [Pm Pms].
    apply IH; auto. now apply Segments_texts_replace.
Qed.

(** A mapping whose mention has no occurrence in the content it is
    applied to is passed over. *)
Lemma processMentionsInHtml_skip html pre m post :
  Segments (MentionMapping.mention m) (injected 0 pre html)
    (texts (injected 0 pre html)) ->
  processMentionsInHtml html (pre ++ m :: post) =
  Normal
    (ProcessResult.mk
       (injected (S (List.length pre)) post (injected 0 pre html))
       (graphMentions_from 0 (pre ++ m :: post))).
Proof.
  intros H. rewrite processMentionsInHtml_later. do 2 f_equal.
  rewrite injected_app. simpl.
  rewrite (replace_mention_Segments _ H). now rewrite substitute_texts.
Qed.

(* ================================================================== *)
(** * The claims on the content *)

Lemma given_app mappings a b :
  given mappings (a ++ b) = given mappings a ++ given mappings b.
Proof.
  induction a as [|[c|j q] a IH]; simpl; [reflexivity| |];
    now rewrite IH, ?append_assoc.
Qed.

Lemma returned_app mappings a b :
  returned mappings (a ++ b) = returned mappings a ++ returned mappings b.
Proof.
  induction a as [|[c|j q] a IH]; simpl; [reflexivity| |];
    now rewrite IH, ?append_assoc.
Qed.

(** One mapping applied to the content the mappings before it have
    left: the occurrences of its mention are replaced, and nothing
    else. *)
Lemma processMentionsInHtml_step html mappings m l :
  Segments (MentionMapping.mention m) (injected 0 mappings html) l ->
  processMentionsInHtml html (mappings ++ [m]) =
  Normal
    (ProcessResult.mk
       (substitute
          (fun before matched after =>
             span_open (List.length mappings) ++
             GetSubstitution matched before after
               (MentionMapping.displayName m) ++
             span_close)
          EmptyString l)
       (graphMentions_from 0 (mappings ++ [m]))).
Proof.
  intros S. rewrite processMentionsInHtml_snoc. do 2 f_equal.
  - rewrite (replace_mention_Segments _ S).
    apply substitute_ext. intros b x a.
    apply GetSubstitution_mentionTemplate.
  - now rewrite graphMentions_from_app.
Qed.

(** C3, as the code has it.  For a list of N mappings
    [processMentionsInHtml] returns N records; the record at position i
    is the one of the i-th mapping and has sequence id i, so the ids are
    0..N-1 in the order of the list; the records are the same for every
    content.  A mapping whose mention has no occurrence in the content it
    is applied to, which is the content the mappings before it have left,
    is passed over: it adds no markup span, the mappings after it work on
    the content as it was, and its record is there.  A mention without
    occurrence in the content given is in that case when the display
    names of the mappings before it hold neither an at sign nor a dollar
    sign and the mention holds no opening angle bracket; and a content
    without at sign is returned as it is. *)
Theorem processMentionsInHtml_records (html : string)
  (mappings : list MentionMapping.t) :
  exists r,
    processMentionsInHtml html mappings = Normal r /\
    List.length (ProcessResult.mentions r) = List.length mappings /\
    map GraphMention.id (ProcessResult.mentions r) =
      seq 0 (List.length mappings) /\
    (forall i m,
        nth_error mappings i = Some m ->
        nth_error (ProcessResult.mentions r) i = Some (graphMention i m)) /\
    (forall html',
        exists r',
          processMentionsInHtml html' mappings = Normal r' /\
          ProcessResult.mentions r' = ProcessResult.mentions r) /\
    (forall m l,
        Segments (MentionMapping.mention m) (ProcessResult.content r) l ->
        occurrences l = 0 ->
        processMentionsInHtml html (mappings ++ [m]) =
        Normal
          (ProcessResult.mk (ProcessResult.content r)
             (ProcessResult.mentions r ++
              [graphMention (List.length mappings) m])%list)) /\
    (forall m l post,
        Segments (MentionMapping.mention m) (ProcessResult.content r) l ->
        occurrences l = 0 ->
        exists r',
          processMentionsInHtml html (mappings ++ m :: post) = Normal r' /\
          ProcessResult.content r' =
            injected (S (List.length mappings)) post
              (ProcessResult.content r) /\
          nth_error (ProcessResult.mentions r') (List.length mappings) =
            Some (graphMention (List.length mappings) m)) /\
    (forall m l post,
        Segments (MentionMapping.mention m) html l ->
        occurrences l = 0 ->
        forallb plain_label (map MentionMapping.displayName mappings)
          = true ->
        contains_char "<" (MentionMapping.mention m) = false ->
        exists r',
          processMentionsInHtml html (mappings ++ m :: post) = Normal r' /\
          ProcessResult.content r' =
            injected (S (List.length mappings)) post
              (ProcessResult.content r) /\
          nth_error (ProcessResult.mentions r') (List.length mappings) =
            Some (graphMention (List.length mappings) m)) /\
    (contains_char "@" html = false -> ProcessResult.content r = html).
Proof.
  eexists. split; [apply processMentionsInHtml_Normal|]. simpl.
  split; [apply graphMentions_from_length|].
  split; [apply graphMentions_from_ids|].
  split; [intros i m H; now apply graphMentions_from_nth with (index := 0)|].
  split.
  { intros html'. eexists. split; [apply processMentionsInHtml_Normal|].
    reflexivity. }
  assert (K : forall m post,
             Segments (MentionMapping.mention m) (injected 0 mappings html)
               (texts (injected 0 mappings html)) ->
             exists r',
               processMentionsInHtml html (mappings ++ m :: post) = Normal r' /\
               ProcessResult.content r' =
                 injected (S (List.length mappings)) post
                   (injected 0 mappings html) /\
               nth_error (ProcessResult.mentions r') (List.length mappings) =
                 Some (graphMention (List.length mappings) m)).
  { intros m post H. eexists.
    split; [now apply processMentionsInHtml_skip|]. simpl.
    split; [reflexivity|].
    apply graphMentions_from_nth with (index := 0).
    rewrite nth_error_app2, Nat.sub_diag by lia. reflexivity. }
  split; [|split; [|split]].
  - intros m l S Z. rewrite processMentionsInHtml_snoc.
    rewrite (replace_mention_Segments _ S).
    rewrite substitute_no_occurrence by exact Z.
    now rewrite (Segments_source S).
  - intros m l post S Z. apply K.
    now rewrite <- (Segments_zero S Z).
  - intros m l post S Z P T. apply K.
    apply Segments_texts_injected; auto.
    now rewrite <- (Segments_zero S Z).
  - apply injected_no_at.
Qed.

(** C4, as the code has it.  In a content laid out as plain text and
    mentions of the mappings of a list that do not act on each other,
    the mention of a mapping has as many occurrences as the mapping has
    mentions among the pieces; the content returned is the content given
    with each of them, and each mention of the other mappings, replaced
    by the markup span of its mapping, and among the records exactly one
    has the sequence id of the mapping.  For every content and list, the
    occurrences are those in the content the mapping is applied to: the
    content returned after that mapping is that content with each
    occurrence replaced by a span of its sequence id, the mappings that
    follow work on it, and one record has that sequence id. *)
Theorem processMentionsInHtml_occurrences :
  (forall (mappings : list MentionMapping.t) (pieces : list piece)
          (j : nat) (m : MentionMapping.t),
      independent mappings pieces = true ->
      nth_error mappings j = Some m ->
      (forall l,
          Segments (MentionMapping.mention m) (given mappings pieces) l ->
          occurrences l = count_at j pieces) /\
      exists r,
        processMentionsInHtml (given mappings pieces) mappings = Normal r /\
        ProcessResult.content r = returned mappings pieces /\
        filter (fun g => Nat.eqb (GraphMention.id g) j)
          (ProcessResult.mentions r) = [graphMention j m]) /\
  (forall (html : string) (mappings : list MentionMapping.t)
          (m : MentionMapping.t) (r0 : ProcessResult.t) (l : list segment),
      processMentionsInHtml html mappings = Normal r0 ->
      Segments (MentionMapping.mention m) (ProcessResult.content r0) l ->
      (source l = ProcessResult.content r0 /\
       Forall (occurrence_of (MentionMapping.mention m)) l) /\
      exists r,
        processMentionsInHtml html (mappings ++ [m]) = Normal r /\
        ProcessResult.content r =
          substitute
            (fun before matched after =>
               span_open (List.length mappings) ++
               GetSubstitution matched before after
                 (MentionMapping.displayName m)
               ++ span_close)
            EmptyString l /\
        filter (fun g => Nat.eqb (GraphMention.id g) (List.length mappings))
          (ProcessResult.mentions r) =
          [graphMention (List.length mappings) m] /\
        forall post,
        exists r',
          processMentionsInHtml html (mappings ++ m :: post) = Normal r' /\
          ProcessResult.content r' =
            injected (S (List.length mappings)) post (ProcessResult.content r)
          /\
          filter (fun g => Nat.eqb (GraphMention.id g) (List.length mappings))
            (ProcessResult.mentions r') =
            [graphMention (List.length mappings) m]).
Proof.
  split.
  - intros mappings pieces j m H Hj.
    split; [intros l S; eapply occurrences_given; eauto|].
    eexists. split; [now apply processMentionsInHtml_layout|]. simpl.
    split; [reflexivity|].
    destruct (nth_error_split _ _ Hj) as (pre & post & -> & <-).
    apply filter_id_graphMentions.
  - intros html mappings m r0 l H0 S.
    rewrite processMentionsInHtml_Normal in H0.
    inversion H0; subst r0; clear H0. simpl in S.
    split; [split; [apply (Segments_source S) | apply (Segments_forms S)]|].
    eexists. split; [apply (@processMentionsInHtml_step html mappings m l S)|].
    simpl.
    split; [reflexivity|]. split.
    + apply (filter_id_graphMentions mappings m []).
    + intros post. eexists.
      split; [apply processMentionsInHtml_later|]. simpl.
      split; [|apply filter_id_graphMentions].
      rewrite injected_app. simpl. f_equal.
      rewrite (replace_mention_Segments _ S).
      apply substitute_ext. intros b x a.
      apply GetSubstitution_mentionTemplate.
Qed.

(** C10, as the code has it.  In a content laid out as plain text and
    mentions of the mappings of a list that do not act on each other, so
    that no display name holds a dollar sign or an at sign, each mention
    is replaced in the content returned by exactly the markup span of the
    index of its mapping around the display name, between what is
    returned for the pieces before it and for the pieces after it.  For
    every content and list, a mapping whose display name holds no dollar
    sign replaces each occurrence of its mention in the content it is
    applied to by exactly that span. *)
Theorem processMentionsInHtml_plain_displayName :
  (forall (mappings : list MentionMapping.t) (before after : list piece)
          (j : nat) (in_quotes : bool) (m : MentionMapping.t),
      independent mappings (before ++ At j in_quotes :: after) = true ->
      nth_error mappings j = Some m ->
      given mappings (before ++ At j in_quotes :: after) =
        given mappings before ++
        (if in_quotes then quoted (MentionMapping.mention m)
         else bare (MentionMapping.mention m)) ++
        given mappings after /\
      exists r,
        processMentionsInHtml
          (given mappings (before ++ At j in_quotes :: after)) mappings
        = Normal r /\
        ProcessResult.content r =
          returned mappings before ++
          ("<at id=" ++ chr dquote ++ string_of_index j ++ chr dquote ++ ">"
             ++ MentionMapping.displayName m ++ "</at>") ++
          returned mappings after) /\
  (forall (html : string) (mappings : list MentionMapping.t)
          (m : MentionMapping.t) (r0 : ProcessResult.t) (l : list segment),
      processMentionsInHtml html mappings = Normal r0 ->
      contains_char "$" (MentionMapping.displayName m) = false ->
      Segments (MentionMapping.mention m) (ProcessResult.content r0) l ->
      exists r,
        processMentionsInHtml html (mappings ++ [m]) = Normal r /\
        ProcessResult.content r =
          substitute
            (fun _ _ _ =>
               "<at id=" ++ chr dquote ++ string_of_index (List.length mappings)
                 ++ chr dquote ++ ">" ++ MentionMapping.displayName m
                 ++ "</at>")
            EmptyString l).
Proof.
  split.
  - intros mappings before after j q m H Hj.
    split.
    + rewrite given_app. simpl. unfold written. now rewrite Hj.
    + eexists. split; [now apply processMentionsInHtml_layout|]. simpl.
      rewrite returned_app. simpl. unfold span_of at 1. rewrite Hj.
      unfold span_open, span_close, chr.
      repeat (rewrite ?append_assoc; simpl). reflexivity.
  - intros html mappings m r0 l H0 P S.
    rewrite processMentionsInHtml_Normal in H0.
    inversion H0; subst r0; clear H0. simpl in S.
    eexists. split; [apply processMentionsInHtml_snoc|]. simpl.
    rewrite (replace_mention_Segments _ S).
    apply substitute_ext. intros b x a.
    apply GetSubstitution_plain. now apply mentionTemplate_plain.
Qed.

(** C2, as the code has it.  In a content laid out as plain text and
    mentions of the mappings of a list that do not act on each other,
    every mention, in quotes or bare and however many there are, is
    replaced by the markup span of its mapping and the plain text is
    kept; the mention text may hold spaces, and is then replaced in the
    bare form as well.  For every content, list and mention text, the
    scan of a mapping takes the quoted form where the content begins with
    it and the bare form where it begins with that one and not with the
    quoted form, and the content returned after the mapping is the
    content it is applied to with each occurrence replaced by a markup
    span of its sequence id. *)
Theorem processMentionsInHtml_both_forms :
  (forall (mappings : list MentionMapping.t) (pieces : list piece),
      independent mappings pieces = true ->
      processMentionsInHtml (given mappings pieces) mappings =
      Normal
        (ProcessResult.mk (returned mappings pieces)
           (graphMentions_from 0 mappings))) /\
  (forall (token rest : string),
      form_at token (quoted token ++ rest) = Some (quoted token, rest) /\
      (strip_prefix (quoted token) (bare token ++ rest) = None ->
       form_at token (bare token ++ rest) = Some (bare token, rest))) /\
  (forall (html : string) (mappings : list MentionMapping.t)
          (m : MentionMapping.t) (l : list segment),
      Segments (MentionMapping.mention m) (injected 0 mappings html) l ->
      Forall (occurrence_of (MentionMapping.mention m)) l /\
      processMentionsInHtml html (mappings ++ [m]) =
      Normal
        (ProcessResult.mk
           (substitute
              (fun before matched after =>
                 span_open (List.length mappings) ++
                 GetSubstitution matched before after
                   (MentionMapping.displayName m) ++
                 span_close)
              EmptyString l)
           (graphMentions_from 0 (mappings ++ [m])))).
Proof.
  split; [exact processMentionsInHtml_layout|]. split.
  - intros token rest. split; [apply form_at_quoted|apply form_at_bare].
  - intros html mappings m l S.
    split; [apply (Segments_forms S)|].
    apply (@processMentionsInHtml_step html mappings m l S).
Qed.

(* ================================================================== *)
(** * The two validations *)

Lemma mentionsSchema_element_spec (m : MentionInput.t) :
  mentionsSchema_element m = true <-> exactly_one_id m.
Proof.
  unfold mentionsSchema_element, exactly_one_id, truthy.
  destruct (MentionInput.userId m) as [u|], (MentionInput.channelId m) as [c|];
    try destruct (String.eqb u EmptyString);
    try destruct (String.eqb c EmptyString); simpl;
    intuition discriminate.
Qed.

(** The schema accepts an array iff each element has exactly one id. *)
Lemma mentionsSchema_accepts (l : list MentionInput.t) :
  mentionsSchema (Some l) = Normal (Some l) <-> Forall exactly_one_id l.
Proof.
  unfold mentionsSchema, mentionsSchema_refine.
  rewrite Forall_forall.
  destruct (forallb mentionsSchema_element l) eqn:E.
  - rewrite forallb_forall in E. split; [|reflexivity].
    intros _ m Hm. now apply mentionsSchema_element_spec, E.
  - split; [discriminate|]. intros H.
    assert (forallb mentionsSchema_element l = true); [|congruence].
    apply forallb_forall. intros m Hm.
    now apply mentionsSchema_element_spec, H.
Qed.

Lemma convertMentionInput_accepts (m : MentionInput.t) :
  (exists v, convertMentionInput m = Normal v) <-> some_id m.
Proof.
  unfold convertMentionInput, some_id.
  destruct (truthy (MentionInput.userId m)); [split; eauto|].
  destruct (truthy (MentionInput.channelId m)); [split; eauto|].
  split.
  - intros [v H]. discriminate H.
  - intros [H|H]; discriminate H.
Qed.

(** The conversion accepts an array iff each element has some id. *)
Lemma convertMentionInputsToMappings_accepts (l : list MentionInput.t) :
  (exists v, convertMentionInputsToMappings l = Normal v) <->
  Forall some_id l.
Proof.
  unfold convertMentionInputsToMappings.
  induction l as [|m l IH]; simpl.
  - split; [constructor | eauto].
  - split.
    + intros [v H].
      destruct (convertMentionInput m) as [b|e] eqn:Em; [|discriminate H].
      simpl in H. destruct (mapC convertMentionInput l) as [bs|e] eqn:El;
        [|discriminate H].
      constructor.
      * apply convertMentionInput_accepts. eauto.
      * apply IH. eauto.
    + intros H. inversion H as [|? ? Hm Hl]; subst.
      apply convertMentionInput_accepts in Hm. destruct Hm as [b ->].
      apply IH in Hl. destruct Hl as [bs ->]. simpl. eauto.
Qed.

(** C1, at the input on which the two validations part.  An element with
    both ids breaks the rule of exactly one id and is rejected by
    [mentionsSchema], while [convertMentionInputsToMappings] accepts it
    and returns a user mapping without the channel id. *)
Theorem convertMentionInputsToMappings_accepts_both_ids :
  let input :=
    MentionInput.mk "Test" (Some "user-123") (Some "19:channel@thread.tacv2") in
  ~ exactly_one_id input /\
  (exists message, mentionsSchema (Some [input]) = Throw message) /\
  convertMentionInputsToMappings [input] =
  Normal [MentionMapping.mk "Test" (Some "user-123") None "Test"].
Proof.
  intros input. split; [|split].
  - intros [[_ H]|[H _]]; discriminate H.
  - eexists. reflexivity.
  - reflexivity.
Qed.

(* ================================================================== *)
(** * The shape of a channel id *)

Lemma rplus_Some cs k : forall s e,
  rplus cs s k = Some e ->
  exists body rest,
    s = body ++ rest /\ body <> EmptyString /\
    all_chars (fun c => existsb (Ascii.eqb c) cs) body = true /\
    k rest = Some e.
Proof.
  induction s as [|a s IH]; simpl; intros e H; [discriminate|].
  destruct (existsb (Ascii.eqb a) cs) eqn:Ea; [|discriminate].
  destruct (rplus cs s k) as [e'|] eqn:R.
  - inversion H; subst e'. destruct (IH e eq_refl) as (b & r & -> & _ & Hb & Hk).
    exists (String a b), r. simpl. rewrite Ea, Hb. repeat split; auto.
    discriminate.
  - exists (String a EmptyString), s. simpl. rewrite Ea.
    repeat split; auto. discriminate.
Qed.

Lemma rplus_run cs k rest e : forall body,
  body <> EmptyString ->
  all_chars (fun c => existsb (Ascii.eqb c) cs) body = true ->
  k rest = Some e ->
  exists e', rplus cs (body ++ rest) k = Some e'.
Proof.
  induction body as [|a b IH]; intros N A K; [congruence|].
  simpl in A. apply andb_prop in A. destruct A as [Ea Ab].
  simpl. rewrite Ea.
  destruct b as [|a' b'].
  - simpl. destruct (rplus cs rest k); eauto.
  - destruct IH as [e' ->]; [discriminate|exact Ab|exact K|]. eauto.
Qed.

(** [channelIdPattern.test] holds exactly on the ids 19: body
    thread-suffix with a non-empty body of letters, digits, underscores
    and hyphens. *)
Lemma channelIdPattern_test_shape (channelId : string) :
  channelIdPattern_test channelId = true <-> channelId_shape channelId.
Proof.
  unfold channelIdPattern_test, match_here, channelIdPattern, channelId_shape.
  cbn [rmatch]. rewrite rmatch_lit_from. cbn [rmatch].
  rewrite rmatch_lit_from. cbn [rmatch].
  set (k := fun s' : string =>
              match strip_prefix "@thread.tacv2" s' with
              | Some s'' =>
                  match s'' with
                  | EmptyString => Some s''
                  | String _ _ => None
                  end
              | None => None
              end).
  split.
  - destruct (strip_prefix "19:" channelId) as [s1|] eqn:P; [|discriminate].
    destruct (rplus channelId_class s1 k) as [e|] eqn:R; [|discriminate].
    intros _. apply strip_prefix_Some in P.
    destruct (rplus_Some _ _ _ R) as (body & rest & -> & N & A & K).
    exists body. repeat split; auto. subst channelId. do 2 f_equal.
    unfold k in K.
    destruct (strip_prefix "@thread.tacv2" rest) as [[|x y]|] eqn:Q;
      try discriminate K.
    apply strip_prefix_Some in Q. now rewrite Q.
  - intros (body & N & A & ->). rewrite strip_prefix_app.
    destruct (@rplus_run channelId_class k "@thread.tacv2" EmptyString body)
      as [e' ->]; auto.
Qed.

(* ================================================================== *)
(** * The normalisation of send_channel_message *)

Section Normalisation.

Variable World : Type.
Variable users_get : string -> World -> Completion (option string) * World.

Lemma normalizeMention_total mention acc (e : Env World) :
  exists maps e', normalizeMention users_get mention acc e = (Normal maps, e').
Proof.
  unfold normalizeMention.
  destruct (truthy (MentionInput.userId mention)).
  - unfold try_catch, bind, api_users_get.
    destruct (users_get _ (world e)) as [[v|msg] w]; simpl;
      do 2 eexists; reflexivity.
  - destruct (truthy (MentionInput.channelId mention)).
    + unfold bind, validateChannelIdFormat.
      destruct (negb (channelIdPattern_test _)); simpl;
        do 2 eexists; reflexivity.
    + do 2 eexists; reflexivity.
Qed.

(** The loop over the mentions never throws. *)
Lemma normalizeMentions_total mentions : forall acc (e : Env World),
  exists maps e', normalizeMentions users_get mentions acc e = (Normal maps, e').
Proof.
  induction mentions as [|m ms IH]; intros acc e; simpl.
  - do 2 eexists; reflexivity.
  - unfold bind.
    destruct (normalizeMention_total m acc e) as (maps & e' & ->).
    apply IH.
Qed.

(** From the mentions to the final mentions the handler never throws. *)
Lemma composeMentions_total content contentType mentions (e : Env World) :
  exists composed e',
    composeMentions users_get content contentType mentions e =
    (Normal composed, e').
Proof.
  unfold composeMentions, bind.
  assert (N : exists maps e',
             match mentions with
             | Some ((_ :: _) as l) => normalizeMentions users_get l []
             | _ => ret []
             end e = (Normal maps, e')).
  { destruct mentions as [[|m ms]|]; try (do 2 eexists; reflexivity).
    apply normalizeMentions_total. }
  destruct N as (maps & e' & ->).
  destruct maps as [|m ms]; [do 2 eexists; reflexivity|].
  unfold liftC. rewrite processMentionsInHtml_Normal.
  do 2 eexists; reflexivity.
Qed.

(** C6.  For a user mention whose lookup throws or gives no name, the
    mapping pushed has the mention text as its label, the loop goes on
    with the mentions that follow, and the loop and the composition of the
    message return normally. *)
Theorem lookup_failure_falls_back (mention : MentionInput.t)
  (rest : list MentionInput.t) (acc : list MentionMapping.t) (e : Env World) :
  truthy (MentionInput.userId mention) = true ->
  lookup_failed
    (fst (users_get (value_of (MentionInput.userId mention)) (world e))) ->
  exists e',
    normalizeMention users_get mention acc e =
      (Normal (push acc (fallbackMapping mention)), e') /\
    normalizeMentions users_get (mention :: rest) acc e =
      normalizeMentions users_get rest (push acc (fallbackMapping mention)) e' /\
    (exists maps e'',
        normalizeMentions users_get (mention :: rest) acc e =
        (Normal maps, e'')) /\
    (forall content contentType,
        exists composed e'',
          composeMentions users_get content contentType
            (Some (mention :: rest)) e = (Normal composed, e'')).
Proof.
  intros U F.
  assert (S : exists e',
             normalizeMention users_get mention acc e =
             (Normal (push acc (fallbackMapping mention)), e')).
  { unfold normalizeMention, try_catch, bind, api_users_get. rewrite U.
    destruct (users_get _ (world e)) as [[[name|]|msg] w]; simpl in *.
    - subst name. eexists; reflexivity.
    - eexists; reflexivity.
    - eexists; reflexivity. }
  destruct S as [e' S]. exists e'. split; [exact S|]. split.
  - simpl. unfold bind. now rewrite S.
  - split; [apply normalizeMentions_total | intros; apply composeMentions_total].
Qed.


End Normalisation.

(* ================================================================== *)
(** * The tests of the repository, and the corners they leave *)

(** users.test.ts, "should process quoted @mentions in HTML content". *)
Example test_quoted_mention :
  processMentionsInHtml
    ("<p>Hello " ++ quoted "John Doe" ++ ", how are you?</p>")
    [MentionMapping.mk "John Doe" (Some "1") None "John Doe"] =
  Normal
    (ProcessResult.mk
       ("<p>Hello " ++ mentionTemplate 0 "John Doe" ++ ", how are you?</p>")
       [GraphMention.mk 0 "John Doe" (GraphMention.user (Some "1"))]).
Proof. reflexivity. Qed.

(** users.test.ts, "should process both user and channel mentions
    together": the mention with a space is written in the bare form. *)
Example test_mixed_mentions :
  processMentionsInHtml "<p>@General - @John Doe will present the update</p>"
    [MentionMapping.mk "General" None (Some "19:abc@thread.tacv2") "General";
     MentionMapping.mk "John Doe" (Some "user-123") None "John Doe"] =
  Normal
    (ProcessResult.mk
       ("<p>" ++ mentionTemplate 0 "General" ++ " - "
          ++ mentionTemplate 1 "John Doe" ++ " will present the update</p>")
       [GraphMention.mk 0 "General"
          (GraphMention.conversation (Some "19:abc@thread.tacv2") "General"
             "channel");
        GraphMention.mk 1 "John Doe" (GraphMention.user (Some "user-123"))]).
Proof. reflexivity. Qed.

(** users.test.ts, "should handle special characters in mention text":
    the dot of the mention stands for itself. *)
Example test_special_characters :
  processMentionsInHtml "<p>Check @Dev.Team channel</p>"
    [MentionMapping.mk "Dev.Team" None (Some "19:devteam@thread.tacv2")
       "Dev.Team"] =
  Normal
    (ProcessResult.mk
       ("<p>Check " ++ mentionTemplate 0 "Dev.Team" ++ " channel</p>")
       [GraphMention.mk 0 "Dev.Team"
          (GraphMention.conversation (Some "19:devteam@thread.tacv2")
             "Dev.Team" "channel")]) /\
  processMentionsInHtml "<p>Check @DevXTeam channel</p>"
    [MentionMapping.mk "Dev.Team" None (Some "19:devteam@thread.tacv2")
       "Dev.Team"] =
  Normal
    (ProcessResult.mk "<p>Check @DevXTeam channel</p>"
       [GraphMention.mk 0 "Dev.Team"
          (GraphMention.conversation (Some "19:devteam@thread.tacv2")
             "Dev.Team" "channel")]).
Proof. split; reflexivity. Qed.

(** users.test.ts, "should throw error for invalid mention input (neither
    userId nor channelId)". *)
Example test_convert_neither :
  convertMentionInputsToMappings [MentionInput.mk "Invalid" None None] =
  Throw ("Invalid mention: " ++ chr dquote ++ "Invalid" ++ chr dquote
           ++ " must have either userId or channelId").
Proof. reflexivity. Qed.

(** The tests of the schema: one id is accepted; both ids, no id and an
    empty id are rejected. *)
Example test_schema :
  mentionsSchema_refine
    [MentionInput.mk "General" None (Some "19:abc123@thread.tacv2");
     MentionInput.mk "John Doe" (Some "user-123") None] = true /\
  mentionsSchema_refine
    [MentionInput.mk "Valid" (Some "user-123") None;
     MentionInput.mk "Invalid" (Some "user-456")
       (Some "19:channel@thread.tacv2")] = false /\
  mentionsSchema_refine [MentionInput.mk "Test" None None] = false /\
  mentionsSchema_refine [MentionInput.mk "Test" (Some EmptyString) None]
    = false /\
  mentionsSchema_refine [] = true.
Proof. repeat split. Qed.

(** The shape of channel ids on the ids of the tests. *)
Example test_channelIdPattern :
  channelIdPattern_test "19:abc123@thread.tacv2" = true /\
  channelIdPattern_test "19:8a5f5e8b-7c5d-4f3e-9a2b-1c0d3e4f5a6b@thread.tacv2"
    = true /\
  channelIdPattern_test "c1" = false /\
  channelIdPattern_test "19:@thread.tacv2" = false /\
  channelIdPattern_test "19:abc@thread.tacv2 " = false.
Proof. repeat split. Qed.

(** A display name with a dollar sign is read as a replacement pattern:
    here the text matched comes back inside the span. *)
Example dollar_in_displayName :
  processMentionsInHtml "Hi @x" [MentionMapping.mk "x" (Some "u") None "$&"] =
  Normal
    (ProcessResult.mk ("Hi " ++ span_open 0 ++ "@x" ++ span_close)
       [GraphMention.mk 0 "$&" (GraphMention.user (Some "u"))]).
Proof. reflexivity. Qed.



(* ================================================================== *)
(** * The claims at concrete inputs *)

(** C3: the claim fails on a mention that the content given does not
    hold and that the display name of an earlier mapping brings in: the
    content returned has a markup span of its sequence id. *)
Lemma mention_in_displayName :
  Segments "b" "@a" (texts "@a") /\
  occurrences (texts "@a") = 0 /\
  processMentionsInHtml "@a"
    [MentionMapping.mk "a" (Some "u1") None "@b";
     MentionMapping.mk "b" (Some "u2") None "B"] =
  Normal
    (ProcessResult.mk (span_open 0 ++ mentionTemplate 1 "B" ++ span_close)
       [GraphMention.mk 0 "@b" (GraphMention.user (Some "u1"));
        GraphMention.mk 1 "B" (GraphMention.user (Some "u2"))]).
Proof.
  split; [segments|]. split; reflexivity.
Qed.

(** C3 as amended, at a list of two mappings and at a mapping whose
    mention the content given does not hold. *)
Lemma processMentionsInHtml_records_witness :
  (exists r,
      processMentionsInHtml "@bob and @alice"
        [MentionMapping.mk "alice" (Some "u1") None "Alice";
         MentionMapping.mk "bob" (Some "u2") None "Bob"] = Normal r /\
      nth_error (ProcessResult.mentions r) 1 =
      Some (GraphMention.mk 1 "Bob" (GraphMention.user (Some "u2")))) /\
  (exists r,
      processMentionsInHtml "Hello @bob"
        ([MentionMapping.mk "bob" (Some "u2") None "Bob"]
           ++ MentionMapping.mk "alice" (Some "u1") None "Alice" :: [])
      = Normal r /\
      ProcessResult.content r = "Hello " ++ mentionTemplate 0 "Bob" /\
      nth_error (ProcessResult.mentions r) 1 =
      Some (GraphMention.mk 1 "Alice" (GraphMention.user (Some "u1")))).
Proof.
  split.
  - destruct (processMentionsInHtml_records "@bob and @alice"
                [MentionMapping.mk "alice" (Some "u1") None "Alice";
                 MentionMapping.mk "bob" (Some "u2") None "Bob"])
      as (r & Hr & _ & _ & Hn & _).
    exists r. split; [exact Hr|].
    exact (Hn 1 (MentionMapping.mk "bob" (Some "u2") None "Bob") eq_refl).
  - destruct (processMentionsInHtml_records "Hello @bob"
                [MentionMapping.mk "bob" (Some "u2") None "Bob"])
      as (r & Hr & _ & _ & _ & _ & _ & _ & Hgiven & _).
    injection Hr as <-.
    destruct (Hgiven (MentionMapping.mk "alice" (Some "u1") None "Alice")
                (texts "Hello @bob") [])
      as (r' & Hr' & Hc & Hm);
      [segments | reflexivity | reflexivity | reflexivity |].
    exists r'. split; [exact Hr'|]. split; [exact Hc|exact Hm].
Defined.

(** C4: the claim fails on two mappings whose mentions overlap: the
    mention of the second occurs once in the content given, and the
    content returned has no markup span of its sequence id. *)
Lemma overlapping_mentions :
  Segments "ab" "@ab" [Occ "@ab"] /\
  occurrences [Occ "@ab"] = 1 /\
  processMentionsInHtml "@ab"
    [MentionMapping.mk "a" (Some "u1") None "A";
     MentionMapping.mk "ab" (Some "u2") None "AB"] =
  Normal
    (ProcessResult.mk (mentionTemplate 0 "A" ++ "b")
       [GraphMention.mk 0 "A" (GraphMention.user (Some "u1"));
        GraphMention.mk 1 "AB" (GraphMention.user (Some "u2"))]) /\
  contains_char "1" (mentionTemplate 0 "A" ++ "b") = false.
Proof.
  split; [segments|]. repeat split; reflexivity.
Qed.

(** C4 as amended, at the content of the test with two occurrences of
    one mention. *)
Lemma processMentionsInHtml_occurrences_witness :
  (forall l,
      Segments "General" "<p>@General is great. I love @General!</p>" l ->
      occurrences l = 2) /\
  exists r,
    processMentionsInHtml "<p>@General is great. I love @General!</p>"
      [MentionMapping.mk "General" None (Some "19:general@thread.tacv2")
         "General"] = Normal r /\
    ProcessResult.content r =
      "<p>" ++ mentionTemplate 0 "General" ++ " is great. I love "
        ++ mentionTemplate 0 "General" ++ "!</p>" /\
    filter (fun g => Nat.eqb (GraphMention.id g) 0)
      (ProcessResult.mentions r) =
      [GraphMention.mk 0 "General"
         (GraphMention.conversation (Some "19:general@thread.tacv2")
            "General" "channel")].
Proof.
  exact (proj1 processMentionsInHtml_occurrences
           [MentionMapping.mk "General" None (Some "19:general@thread.tacv2")
              "General"]
           (plain_text "<p>" ++ [At 0 false]
              ++ plain_text " is great. I love " ++ [At 0 false]
              ++ plain_text "!</p>")%list
           0 _ eq_refl eq_refl).
Defined.

(** C10: the claim fails on a display name without dollar sign that
    holds the mention of a later mapping: the occurrence is not replaced
    by the span around the display name. *)
Lemma mention_of_a_later_mapping_in_displayName :
  contains_char "$" "@y" = false /\
  Segments "x" "Hi @x" [Text "H"; Text "i"; Text " "; Occ "@x"] /\
  processMentionsInHtml "Hi @x"
    [MentionMapping.mk "x" (Some "u1") None "@y";
     MentionMapping.mk "y" (Some "u2") None "Y"] =
  Normal
    (ProcessResult.mk
       ("Hi " ++ span_open 0 ++ mentionTemplate 1 "Y" ++ span_close)
       [GraphMention.mk 0 "@y" (GraphMention.user (Some "u1"));
        GraphMention.mk 1 "Y" (GraphMention.user (Some "u2"))]) /\
  "Hi " ++ span_open 0 ++ mentionTemplate 1 "Y" ++ span_close
    <> "Hi " ++ mentionTemplate 0 "@y".
Proof.
  split; [reflexivity|]. split; [segments|]. split; [reflexivity|].
  discriminate.
Qed.

(** C10 as amended, at the content of the first test of the injector. *)
Lemma processMentionsInHtml_plain_displayName_witness :
  exists r,
    processMentionsInHtml "<p>Hello @john.doe, how are you?</p>"
      [MentionMapping.mk "john.doe" (Some "1") None "John Doe"]
    = Normal r /\
    ProcessResult.content r =
      "<p>Hello <at id=" ++ chr dquote ++ "0" ++ chr dquote
        ++ ">John Doe</at>, how are you?</p>".
Proof.
  exact (proj2
           (proj1 processMentionsInHtml_plain_displayName
              [MentionMapping.mk "john.doe" (Some "1") None "John Doe"]
              (plain_text "<p>Hello ") (plain_text ", how are you?</p>")
              0 false _ eq_refl eq_refl)).
Defined.

(** C2: the claim fails on a mention with a space written in the bare
    form, which the code replaces. *)
Lemma bare_form_with_space_is_replaced :
  contains_char " " "John Doe" = true /\
  processMentionsInHtml "Hi @John Doe!"
    [MentionMapping.mk "John Doe" (Some "user-123") None "John Doe"] =
  Normal
    (ProcessResult.mk
       ("Hi <at id=" ++ chr dquote ++ "0" ++ chr dquote ++ ">John Doe</at>!")
       [GraphMention.mk 0 "John Doe" (GraphMention.user (Some "user-123"))]) /\
  "Hi <at id=" ++ chr dquote ++ "0" ++ chr dquote ++ ">John Doe</at>!"
    <> "Hi @John Doe!".
Proof.
  split; [reflexivity|]. split; [reflexivity|]. discriminate.
Qed.

(** C2 as amended, at the content of the test of mixed mentions, with
    the mention that holds a space written bare and in quotes. *)
Lemma processMentionsInHtml_both_forms_witness :
  processMentionsInHtml
    ("<p>@General - @John Doe and " ++ quoted "John Doe"
       ++ " will present to @General</p>")
    [MentionMapping.mk "General" None (Some "19:abc@thread.tacv2") "General";
     MentionMapping.mk "John Doe" (Some "user-123") None "John Doe"] =
  Normal
    (ProcessResult.mk
       ("<p>" ++ mentionTemplate 0 "General" ++ " - "
          ++ mentionTemplate 1 "John Doe" ++ " and "
          ++ mentionTemplate 1 "John Doe" ++ " will present to "
          ++ mentionTemplate 0 "General" ++ "</p>")
       [GraphMention.mk 0 "General"
          (GraphMention.conversation (Some "19:abc@thread.tacv2") "General"
             "channel");
        GraphMention.mk 1 "John Doe" (GraphMention.user (Some "user-123"))]).
Proof.
  exact (proj1 processMentionsInHtml_both_forms
           [MentionMapping.mk "General" None (Some "19:abc@thread.tacv2")
              "General";
            MentionMapping.mk "John Doe" (Some "user-123") None "John Doe"]
           (plain_text "<p>" ++ [At 0 false] ++ plain_text " - "
              ++ [At 1 false] ++ plain_text " and " ++ [At 1 true]
              ++ plain_text " will present to " ++ [At 0 false]
              ++ plain_text "</p>")%list
           eq_refl).
Defined.






(** C5 at a user mapping and at a channel mapping of one list. *)
Lemma processMentionsInHtml_dispatch_witness :
  (exists r,
      processMentionsInHtml "@alice in @General"
        [MentionMapping.mk "alice" (Some "u1") None "Alice";
         MentionMapping.mk "General" None (Some "c1") "General"] = Normal r /\
      nth_error (ProcessResult.mentions r) 0 =
      Some (GraphMention.mk 0 "Alice" (GraphMention.user (Some "u1")))) /\
  (exists r,
      processMentionsInHtml "@alice in @General"
        [MentionMapping.mk "alice" (Some "u1") None "Alice";
         MentionMapping.mk "General" None (Some "c1") "General"] = Normal r /\
      nth_error (ProcessResult.mentions r) 1 =
      Some (GraphMention.mk 1 "General"
              (GraphMention.conversation (Some "c1") "General" "channel"))).
Proof.
  split.
  - destruct (@processMentionsInHtml_dispatch "@alice in @General"
                [MentionMapping.mk "alice" (Some "u1") None "Alice";
                 MentionMapping.mk "General" None (Some "c1") "General"]
                0 (MentionMapping.mk "alice" (Some "u1") None "Alice") eq_refl)
      as (r & H & Hu & _).
    exists r. split; [exact H|]. exact (Hu "u1" eq_refl).
  - destruct (@processMentionsInHtml_dispatch "@alice in @General"
                [MentionMapping.mk "alice" (Some "u1") None "Alice";
                 MentionMapping.mk "General" None (Some "c1") "General"]
                1 (MentionMapping.mk "General" None (Some "c1") "General")
                eq_refl)
      as (r & H & _ & Hc).
    exists r. split; [exact H|]. exact (Hc "c1" eq_refl eq_refl).
Defined.

(** C6 at a directory that throws on every request. *)
Lemma lookup_failure_falls_back_witness :
  exists e',
    normalizeMention (fun (_ : string) (w : unit) => (Throw "404", w))
      (MentionInput.mk "John" (Some "user-123") None) []
      (mkEnv tt [] []) =
    (Normal [MentionMapping.mk "John" (Some "user-123") None "John"], e').
Proof.
  destruct (@lookup_failure_falls_back unit
              (fun (_ : string) (w : unit) => (Throw "404", w))
              (MentionInput.mk "John" (Some "user-123") None) [] []
              (mkEnv tt [] []) eq_refl I)
    as (e' & H & _).
  exists e'. exact H.
Defined.


(* ================================================================== *)
(** * Further properties: src/types/mentions.ts and the schema *)

(** The conversion of one input that is accepted. *)
Lemma convertMentionInput_Normal input mapping :
  convertMentionInput input = Normal mapping ->
  MentionMapping.mention mapping = MentionInput.mention input /\
  MentionMapping.displayName mapping = MentionInput.mention input /\
  isUserMentionMapping mapping = is_user_input input /\
  isChannelMentionMapping mapping = negb (is_user_input input) /\
  (is_user_input input = true ->
   MentionMapping.userId mapping = MentionInput.userId input) /\
  (is_user_input input = false ->
   MentionMapping.channelId mapping = MentionInput.channelId input).
Proof.
  unfold convertMentionInput, is_user_input.
  unfold isUserMentionMapping, isChannelMentionMapping, truthy.
  destruct (MentionInput.userId input) as [u|] eqn:U.
  - destruct (String.eqb u EmptyString) eqn:E; simpl.
    + destruct (MentionInput.channelId input) as [c|] eqn:C;
        [destruct (String.eqb c EmptyString) eqn:E'|]; simpl;
        intros H; inversion H; subst; simpl; repeat split; auto;
        discriminate.
    + intros H; inversion H; subst; simpl. repeat split; auto. discriminate.
  - destruct (MentionInput.channelId input) as [c|] eqn:C;
      [destruct (String.eqb c EmptyString) eqn:E'|]; simpl;
      intros H; inversion H; subst; simpl; repeat split; auto; discriminate.
Qed.

Lemma mapC_Normal {A B : Type} (f : A -> Completion B) l : forall bs,
  mapC f l = Normal bs ->
  List.length bs = List.length l /\
  forall i a, nth_error l i = Some a ->
    exists b, nth_error bs i = Some b /\ f a = Normal b.
Proof.
  induction l as [|a l IH]; simpl; intros bs H.
  - inversion H; subst. split; [reflexivity|]. intros [|i] x Hx; discriminate.
  - destruct (f a) as [b|e] eqn:Fa; [|discriminate H]. simpl in H.
    destruct (mapC f l) as [bs'|e] eqn:M; [|discriminate H].
    inversion H; subst. destruct (IH bs' eq_refl) as [L N].
    split; [simpl; congruence|].
    intros [|i] x Hx; simpl in *.
    + inversion Hx; subst. eauto.
    + now apply N.
Qed.

(** X1.  When [convertMentionInputsToMappings] returns, it returns one
    mapping for each input, in order; the mapping has the text of the
    input as mention and as display name and is exactly one variant: a
    user mapping with the user id when the input has a non-empty user id
    (also when it has a channel id as well), a channel mapping with the
    channel id otherwise. *)
Theorem convertMentionInputsToMappings_elementwise
  (inputs : list MentionInput.t) (mappings : list MentionMapping.t) :
  convertMentionInputsToMappings inputs = Normal mappings ->
  List.length mappings = List.length inputs /\
  forall i input,
    nth_error inputs i = Some input ->
    exists mapping,
      nth_error mappings i = Some mapping /\
      MentionMapping.mention mapping = MentionInput.mention input /\
      MentionMapping.displayName mapping = MentionInput.mention input /\
      one_variant mapping = true /\
      isUserMentionMapping mapping = is_user_input input /\
      (is_user_input input = true ->
       MentionMapping.userId mapping = MentionInput.userId input) /\
      (is_user_input input = false ->
       MentionMapping.channelId mapping = MentionInput.channelId input).
Proof.
  intros H. destruct (mapC_Normal _ _ H) as [L N]. split; [exact L|].
  intros i input Hi. destruct (N i input Hi) as (mapping & Hm & Hc).
  destruct (convertMentionInput_Normal _ Hc) as (M & D & U & C & Iu & Ic).
  exists mapping. repeat split; auto.
  unfold one_variant. rewrite U, C. now destruct (is_user_input input).
Qed.

Lemma mapC_app_Throw {A B : Type} (f : A -> Completion B) pre : forall a post e,
  (forall x, In x pre -> exists b, f x = Normal b) ->
  f a = Throw e ->
  mapC f (pre ++ a :: post) = Throw e.
Proof.
  induction pre as [|x pre IH]; simpl; intros a post e P Fa.
  - now rewrite Fa.
  - destruct (P x (or_introl eq_refl)) as [b ->]. simpl.
    rewrite (IH a post e); auto.
Qed.

(** X2.  [convertMentionInputsToMappings] stops at the first input that
    has neither id: whatever follows it in the array, the error thrown
    names the mention of that input. *)
Theorem convertMentionInputsToMappings_first_error
  (pre post : list MentionInput.t) (bad : MentionInput.t) :
  forallb has_id pre = true ->
  has_id bad = false ->
  convertMentionInputsToMappings (pre ++ bad :: post) =
  Throw ("Invalid mention: " ++ chr dquote ++ MentionInput.mention bad
           ++ chr dquote ++ " must have either userId or channelId").
Proof.
  intros P B. unfold convertMentionInputsToMappings.
  apply mapC_app_Throw.
  - intros x Hx. rewrite forallb_forall in P. specialize (P x Hx).
    apply convertMentionInput_accepts. unfold has_id in P.
    apply orb_true_iff in P. exact P.
  - unfold has_id in B. apply orb_false_elim in B. destruct B as [U C].
    unfold convertMentionInput. now rewrite U, C.
Qed.

(** X3.  [mentionsSchema] accepts an array exactly when each element has
    exactly one id that is present and not empty; what it accepts it
    returns unchanged; and it accepts the absent array. *)
Theorem mentionsSchema_exactly_one_id (l : list MentionInput.t) :
  ((exists v, mentionsSchema (Some l) = Normal v) <->
   Forall exactly_one_id l) /\
  (forall v, mentionsSchema (Some l) = Normal v -> v = Some l) /\
  mentionsSchema None = Normal None.
Proof.
  split; [|split; [|reflexivity]].
  - rewrite <- mentionsSchema_accepts. split.
    + intros [v H]. unfold mentionsSchema in *.
      destruct (mentionsSchema_refine l); [reflexivity|discriminate H].
    + eauto.
  - intros v H. unfold mentionsSchema in H.
    destruct (mentionsSchema_refine l); [now inversion H|discriminate H].
Qed.

(** X4.  On every array the schema accepts, the conversion succeeds and
    keeps the one id of each element: the two validations differ only on
    arrays the schema rejects. *)
Theorem mentionsSchema_then_conversion (l : list MentionInput.t) :
  mentionsSchema_refine l = true ->
  exists mappings,
    convertMentionInputsToMappings l = Normal mappings /\
    Forall2
      (fun input mapping =>
         MentionMapping.userId mapping =
           (if is_user_input input then MentionInput.userId input else None) /\
         MentionMapping.channelId mapping =
           (if is_user_input input then None else MentionInput.channelId input))
      l mappings.
Proof.
  unfold mentionsSchema_refine, convertMentionInputsToMappings.
  induction l as [|m l IH]; simpl; intros H.
  - exists []. split; [reflexivity|constructor].
  - apply andb_prop in H. destruct H as [Hm Hl].
    destruct (IH Hl) as (ms & -> & F).
    apply mentionsSchema_element_spec in Hm.
    unfold convertMentionInput, is_user_input.
    destruct Hm as [[U C]|[U C]]; rewrite ?U, ?C; simpl;
      eexists; (split; [reflexivity|]); (constructor; [|exact F]); simpl;
      unfold is_user_input; rewrite U; auto.
Qed.

(* ================================================================== *)
(** * Further properties: escapeRegex and the pattern of a mention *)

Lemma escaped_length text :
  String.length (escaped text) = String.length text + count_syntax text.
Proof.
  induction text as [|c t IH]; simpl; [reflexivity|].
  destruct (is_syntax c); simpl; rewrite IH; lia.
Qed.

Lemma escaped_plain text : count_syntax text = 0 -> escaped text = text.
Proof.
  induction text as [|c t IH]; simpl; [reflexivity|].
  destruct (is_syntax c); simpl; intros H; [discriminate|].
  now rewrite IH.
Qed.

(** X5.  [escapeRegex] puts one backslash before each of the fourteen
    SyntaxCharacters and copies every other character: its result is
    longer than the text by the number of SyntaxCharacters, and it is the
    text itself exactly when the text holds none. *)
Theorem escapeRegex_backslashes (text : string) :
  escapeRegex text = escaped text /\
  String.length (escapeRegex text) = String.length text + count_syntax text /\
  (escapeRegex text = text <-> count_syntax text = 0).
Proof.
  rewrite escapeRegex_escaped. split; [reflexivity|].
  split; [apply escaped_length|]. split.
  - intros H. pose proof (escaped_length text) as L. rewrite H in L. lia.
  - apply escaped_plain.
Qed.

Lemma match_here_lit text s :
  match_here (lit_from REmpty text) s = strip_prefix text s.
Proof.
  unfold match_here. rewrite rmatch_lit_from. simpl.
  now destruct (strip_prefix text s).
Qed.

(** X6.  The text [escapeRegex] returns, given to the RegExp constructor,
    is a pattern that matches the text itself and nothing else: at the
    start of a subject it succeeds exactly when the subject begins with
    the text, and it consumes the text. *)
Theorem escapeRegex_matches_literally (text : string) :
  new_RegExp (escapeRegex text) = Normal (lit_from REmpty text) /\
  forall s, match_here (lit_from REmpty text) s = strip_prefix text s.
Proof.
  split; [|apply match_here_lit].
  unfold new_RegExp, parse_pattern. rewrite escapeRegex_escaped.
  rewrite <- (append_nil_r (escaped text)), lex_escaped.
  change (lex EmptyString) with (Some (@nil token)). cbv iota beta.
  rewrite parse_tokens_chars. reflexivity.
Qed.

(** X7.  For every mention text, whatever characters it holds, the
    RegExp constructor accepts the pattern built for it, and the pattern
    matches at the start of a subject the quoted form of the mention if
    the subject begins with it, else the bare form if the subject begins
    with it, and nothing else. *)
Theorem mentionRegex_matches_literally (mention : string) :
  exists mentionRegex,
    new_RegExp (mentionRegex_source mention) = Normal mentionRegex /\
    forall s,
      match_here mentionRegex s =
      match strip_prefix (quoted mention) s with
      | Some rest => Some rest
      | None => strip_prefix (bare mention) s
      end.
Proof.
  exists (mentionRegex_ast mention). split; [apply new_RegExp_mention|].
  intros s. rewrite match_here_mention. unfold form_at.
  destruct (strip_prefix (quoted mention) s); [reflexivity|].
  now destruct (strip_prefix (bare mention) s).
Qed.

(** X8.  [processMentionsInHtml] returns normally for every content and
    every list of mappings, well-formed or not, with as many records as
    mappings. *)
Theorem processMentionsInHtml_never_throws (html : string)
  (mappings : list MentionMapping.t) :
  exists r,
    processMentionsInHtml html mappings = Normal r /\
    List.length (ProcessResult.mentions r) = List.length mappings.
Proof.
  eexists. split; [apply processMentionsInHtml_Normal|].
  apply graphMentions_from_length.
Qed.

Lemma forEach_app ms1 : forall ms2 index st,
  forEach (ms1 ++ ms2) index st =
  bindC (forEach ms1 index st) (forEach ms2 (index + List.length ms1)).
Proof.
  induction ms1 as [|m ms1 IH]; intros ms2 index st; simpl.
  - now rewrite Nat.add_0_r.
  - rewrite processMention_Normal. simpl. rewrite IH.
    now rewrite Nat.add_succ_r.
Qed.

(** X9.  Mappings appended to a list leave the records of the list as
    they are, sequence ids included, and work on the content the list has
    left: the loop over the longer list is the loop over the list followed
    by the loop over the appended mappings from the next index on. *)
Theorem processMentionsInHtml_extension (html : string)
  (mappings more : list MentionMapping.t) :
  exists r1 r,
    processMentionsInHtml html mappings = Normal r1 /\
    processMentionsInHtml html (mappings ++ more) = Normal r /\
    firstn (List.length mappings) (ProcessResult.mentions r) =
      ProcessResult.mentions r1 /\
    forEach more (List.length mappings)
      (ProcessState.mk (ProcessResult.content r1) (ProcessResult.mentions r1)) =
    Normal (ProcessState.mk (ProcessResult.content r) (ProcessResult.mentions r)).
Proof.
  do 2 eexists.
  split; [apply processMentionsInHtml_Normal|].
  split; [apply processMentionsInHtml_Normal|]. simpl. split.
  - rewrite graphMentions_from_app.
    rewrite <- (graphMentions_from_length mappings 0) at 1.
    now rewrite firstn_app, Nat.sub_diag, firstn_all, app_nil_r.
  - rewrite forEach_Normal. simpl.
    now rewrite injected_app, graphMentions_from_app.
Qed.

(* ================================================================== *)
(** * Further properties: the mentions of send_channel_message *)

Lemma or_else_empty a b : or_else a b = EmptyString -> b = EmptyString.
Proof.
  unfold or_else. destruct a as [s|]; [|auto].
  destruct (String.eqb_spec s EmptyString); [auto|]. intros H. congruence.
Qed.

Section MoreNormalisation.

Variable World : Type.
Variable users_get : string -> World -> Completion (option string) * World.

(** One turn of the loop: what is pushed, requested and warned. *)
Lemma normalizeMention_step mention acc (e : Env World) :
  exists new e' ws,
    normalizeMention users_get mention acc e = (Normal (acc ++ new)%list, e') /\
    Forall2 normalized (filter has_id [mention]) new /\
    requests e' =
      (requests e ++
       map (fun m => value_of (MentionInput.userId m))
         (filter is_user_input [mention]))%list /\
    warnings e' = (warnings e ++ ws)%list /\
    List.length ws <= List.length (filter has_id [mention]) /\
    (ws <> [] ->
     (is_user_input mention = true /\
      exists msg,
        fst (users_get (value_of (MentionInput.userId mention)) (world e))
        = Throw msg) \/
     (is_user_input mention = false /\
      truthy (MentionInput.channelId mention) = true /\
      channelIdPattern_test (value_of (MentionInput.channelId mention))
      = false)).
Proof.
  unfold normalizeMention, has_id, is_user_input. simpl.
  destruct (truthy (MentionInput.userId mention)) eqn:U; simpl.
  - unfold try_catch, bind, api_users_get.
    destruct (users_get _ (world e)) as [[name|msg] w] eqn:G; simpl.
    + eexists _, _, []. split; [reflexivity|]. simpl.
      split; [|rewrite app_nil_r; repeat split; auto; congruence].
      repeat constructor; simpl; unfold is_user_input; rewrite ?U; auto;
        try discriminate; apply or_else_empty.
    + eexists _, _, [_]. split; [reflexivity|]. simpl.
      split; [|repeat split; auto; intros _; left; eauto].
      repeat constructor; simpl; unfold is_user_input; rewrite ?U; auto;
        discriminate.
  - destruct (truthy (MentionInput.channelId mention)) eqn:C; simpl.
    + unfold bind, validateChannelIdFormat.
      destruct (channelIdPattern_test _) eqn:T; simpl.
      * eexists _, _, []. split; [reflexivity|]. simpl.
        split; [|rewrite ?app_nil_r; repeat split; auto; congruence].
        repeat constructor; simpl; unfold is_user_input; rewrite ?U; auto.
      * eexists _, _, [_]. split; [reflexivity|]. simpl.
        split; [|rewrite ?app_nil_r; repeat split; auto].
        repeat constructor; simpl; unfold is_user_input; rewrite ?U; auto.
    + exists [], e, []. rewrite !app_nil_r. simpl.
      repeat split; auto. congruence.
Qed.

Lemma filter_cons_app {A : Type} (f : A -> bool) (a : A) (l : list A) :
  filter f (a :: l) = (filter f [a] ++ filter f l)%list.
Proof. simpl. now destruct (f a). Qed.

(** The whole loop: what is pushed, requested and warned. *)
Lemma normalizeMentions_run mentions : forall acc (e : Env World),
  exists new e' ws,
    normalizeMentions users_get mentions acc e =
      (Normal (acc ++ new)%list, e') /\
    Forall2 normalized (filter has_id mentions) new /\
    requests e' =
      (requests e ++
       map (fun m => value_of (MentionInput.userId m))
         (filter is_user_input mentions))%list /\
    warnings e' = (warnings e ++ ws)%list /\
    List.length ws <= List.length (filter has_id mentions).
Proof.
  induction mentions as [|m ms IH]; intros acc e.
  - exists [], e, []. simpl. rewrite !app_nil_r. repeat split; auto.
  - destruct (normalizeMention_step m acc e)
      as (new1 & e1 & ws1 & S1 & F1 & R1 & W1 & L1 & _).
    destruct (IH (acc ++ new1)%list e1)
      as (new2 & e2 & ws2 & S2 & F2 & R2 & W2 & L2).
    exists (new1 ++ new2)%list, e2, (ws1 ++ ws2)%list.
    cbn [normalizeMentions]. unfold bind at 1. rewrite S1, S2.
    rewrite (filter_cons_app has_id), (filter_cons_app is_user_input).
    rewrite map_app, !length_app, R2, R1, W2, W1, <- !app_assoc.
    repeat split; auto; [now apply Forall2_app | lia].
Qed.

Lemma normalizeMentions_app a : forall b acc (e : Env World),
  normalizeMentions users_get (a ++ b) acc e =
  bind (normalizeMentions users_get a acc) (normalizeMentions users_get b) e.
Proof.
  induction a as [|m a IH]; intros b acc e; simpl; [reflexivity|].
  unfold bind in *.
  destruct (normalizeMention users_get m acc e) as [[acc'|msg] e'];
    [apply IH|reflexivity].
Qed.

(** The turn of the loop for a channel mention. *)
Lemma normalizeMention_channel mention acc (e : Env World) :
  truthy (MentionInput.userId mention) = false ->
  truthy (MentionInput.channelId mention) = true ->
  exists e',
    normalizeMention users_get mention acc e =
      (Normal (push acc (channelMapping mention)), e') /\
    world e' = world e /\ requests e' = requests e /\
    (channelIdPattern_test
       (value_of (MentionInput.channelId mention)) = true ->
     warnings e' = warnings e) /\
    (channelIdPattern_test
       (value_of (MentionInput.channelId mention)) = false ->
     exists warning, warnings e' = push (warnings e) warning).
Proof.
  intros U C.
  unfold normalizeMention, bind, validateChannelIdFormat. rewrite U, C.
  destruct (channelIdPattern_test _); simpl.
  - exists e. repeat split; auto. discriminate.
  - eexists. repeat split; simpl; eauto. discriminate.
Qed.

(** C7.  For a channel mention no request goes to the directory, the
    label is the mention text, and the channel id is tested against the
    shape of channel ids: a mismatch adds one warning and nothing else.
    With or without warning the same mapping is pushed and the loop goes
    on.  Wherever the mention stands in the array, the composition of the
    message returns normally, and what it returns is what
    [processMentionsInHtml] makes of the content and of a list of
    mappings that holds the mapping pushed, unchanged, at the place of
    the mention among the inputs with an id: the content type is "html"
    and the final mention at that place is the conversation of the
    channel id, named by the mention text. *)
Theorem channel_mention_is_not_looked_up (mention : MentionInput.t)
  (rest : list MentionInput.t) (acc : list MentionMapping.t) (e : Env World) :
  truthy (MentionInput.userId mention) = false ->
  truthy (MentionInput.channelId mention) = true ->
  exists e',
    normalizeMention users_get mention acc e =
      (Normal (push acc (channelMapping mention)), e') /\
    world e' = world e /\
    requests e' = requests e /\
    (channelId_shape (value_of (MentionInput.channelId mention)) ->
     warnings e' = warnings e) /\
    (~ channelId_shape (value_of (MentionInput.channelId mention)) ->
     exists warning, warnings e' = push (warnings e) warning) /\
    normalizeMentions users_get (mention :: rest) acc e =
      normalizeMentions users_get rest (push acc (channelMapping mention)) e' /\
    (forall content contentType (before : list MentionInput.t)
            (e0 : Env World),
        exists composed e'' pre post,
          composeMentions users_get content contentType
            (Some (before ++ mention :: rest)%list) e0 =
            (Normal composed, e'') /\
          processMentionsInHtml content
            (pre ++ channelMapping mention :: post)%list =
          Normal
            (ProcessResult.mk (body_content composed)
               (finalMentions composed)) /\
          body_contentType composed = "html" /\
          nth_error (finalMentions composed) (List.length pre) =
          Some
            (GraphMention.mk (List.length pre) (MentionInput.mention mention)
               (GraphMention.conversation (MentionInput.channelId mention)
                  (MentionInput.mention mention) "channel")) /\
          Forall2 normalized (filter has_id before) pre /\
          Forall2 normalized (filter has_id rest) post).
Proof.
  intros U C.
  destruct (normalizeMention_channel mention acc e U C)
    as (e' & S & W & R & T & F).
  exists e'. split; [exact S|]. split; [exact W|]. split; [exact R|].
  split; [intros H; now apply T, channelIdPattern_test_shape|].
  split.
  { intros H. apply F.
    destruct (channelIdPattern_test _) eqn:E; [|reflexivity].
    now apply channelIdPattern_test_shape in E. }
  split; [simpl; unfold bind; now rewrite S|].
  intros content contentType before e0.
  destruct (normalizeMentions_run before [] e0)
    as (pre & e1 & ws1 & S1 & F1 & _).
  destruct (normalizeMention_channel mention ([] ++ pre)%list e1 U C)
    as (e2 & S2 & _).
  destruct (normalizeMentions_run rest
              (push ([] ++ pre)%list (channelMapping mention)) e2)
    as (post & e3 & ws3 & S3 & F3 & _).
  assert (N : normalizeMentions users_get (before ++ mention :: rest)%list [] e0 =
              (Normal (pre ++ channelMapping mention :: post)%list, e3)).
  { rewrite normalizeMentions_app. unfold bind at 1. rewrite S1.
    cbn [normalizeMentions]. unfold bind at 1. rewrite S2, S3.
    unfold push. simpl. now rewrite <- app_assoc. }
  assert (L : match Some (before ++ mention :: rest)%list with
              | Some ((_ :: _) as l) => normalizeMentions users_get l []
              | _ => ret []
              end e0 =
              (Normal (pre ++ channelMapping mention :: post)%list, e3)).
  { destruct before; exact N. }
  assert (Q : forall (A : Type) (l : list MentionMapping.t) (a b : A),
             l <> [] ->
             match l with
             | _ :: _ => a
             | [] => b
             end = a)
    by (intros A [|x l] a b; congruence).
  unfold composeMentions, bind. rewrite L.
  rewrite Q by (destruct pre; discriminate).
  unfold liftC. rewrite processMentionsInHtml_Normal.
  eexists _, e3, pre, post. split; [reflexivity|]. simpl.
  split; [apply processMentionsInHtml_Normal|].
  split; [reflexivity|]. split; [|split; [exact F1|exact F3]].
  rewrite (@graphMentions_from_nth _ 0 (List.length pre)
             (channelMapping mention)).
  - unfold graphMention, isUserMentionMapping, channelMapping. simpl.
    reflexivity.
  - rewrite nth_error_app2, Nat.sub_diag by lia. reflexivity.
Qed.

(** X10.  The loop of the handler pushes one mapping for each input that
    has an id, in the order of the inputs, and passes over the inputs
    without id in silence; each mapping keeps the mention text and the one
    id of its input, and it never throws. *)
Theorem normalizeMentions_one_mapping_per_id
  (mentions : list MentionInput.t) (acc : list MentionMapping.t)
  (e : Env World) :
  exists new e',
    normalizeMentions users_get mentions acc e =
      (Normal (acc ++ new)%list, e') /\
    Forall2 normalized (filter has_id mentions) new.
Proof.
  destruct (normalizeMentions_run mentions acc e)
    as (new & e' & ws & S & F & _).
  exists new, e'. auto.
Qed.

(** X11.  The loop asks the directory once for each input with a user
    id, in the order of the inputs and with that id, and never for
    another input: a failed lookup is not tried again, and a channel
    mention is not looked up. *)
Theorem normalizeMentions_requests
  (mentions : list MentionInput.t) (acc : list MentionMapping.t)
  (e : Env World) :
  exists maps e',
    normalizeMentions users_get mentions acc e = (Normal maps, e') /\
    requests e' =
      (requests e ++
       map (fun m => value_of (MentionInput.userId m))
         (filter is_user_input mentions))%list.
Proof.
  destruct (normalizeMentions_run mentions acc e)
    as (new & e' & ws & S & _ & R & _).
  eexists _, e'. eauto.
Qed.

(** X12.  The loop only adds warnings, at most one for each input with
    an id; and it adds none when the directory answers every request and
    the channel id of every channel mention, which is an input with a
    channel id and no user id, has the shape of channel ids: an input
    without any id is no cause of a warning. *)
Theorem normalizeMentions_warnings
  (mentions : list MentionInput.t) (acc : list MentionMapping.t)
  (e : Env World) :
  exists maps e' ws,
    normalizeMentions users_get mentions acc e = (Normal maps, e') /\
    warnings e' = (warnings e ++ ws)%list /\
    List.length ws <= List.length (filter has_id mentions) /\
    ((forall id w, exists name, fst (users_get id w) = Normal name) ->
     Forall
       (fun m =>
          is_user_input m = false ->
          truthy (MentionInput.channelId m) = true ->
          channelIdPattern_test (value_of (MentionInput.channelId m)) = true)
       mentions ->
     ws = []).
Proof.
  revert acc e. induction mentions as [|m ms IH]; intros acc e.
  - exists acc, e, []. simpl. rewrite app_nil_r. repeat split; auto.
  - destruct (normalizeMention_step m acc e)
      as (new1 & e1 & ws1 & S1 & _ & _ & W1 & L1 & C1).
    destruct (IH (acc ++ new1)%list e1) as (maps & e2 & ws2 & S2 & W2 & L2 & Q2).
    exists maps, e2, (ws1 ++ ws2)%list.
    cbn [normalizeMentions]. unfold bind at 1. rewrite S1, S2.
    rewrite (filter_cons_app has_id), !length_app, W2, W1, <- app_assoc.
    repeat split; auto; [lia|].
    intros G F. inversion F as [|? ? Fm Fms]; subst.
    rewrite (Q2 G Fms), app_nil_r.
    destruct ws1 as [|x ws1]; [reflexivity|].
    destruct C1 as [[_ [msg T]]|(U & C & T)]; [discriminate| | ].
    + destruct (G (value_of (MentionInput.userId m)) (world e)) as [name N].
      congruence.
    + rewrite (Fm U C) in T. discriminate T.
Qed.

(** What the handler composes from the mentions. *)
Lemma composeMentions_run (content contentType : string)
  (mentions : option (list MentionInput.t)) (e : Env World) :
  exists composed e',
    composeMentions users_get content contentType mentions e =
      (Normal composed, e') /\
    map GraphMention.id (finalMentions composed) =
      seq 0 (List.length (filter has_id (array_of mentions))) /\
    (filter has_id (array_of mentions) = [] ->
     composed = mkComposed content contentType []) /\
    (filter has_id (array_of mentions) <> [] ->
     body_contentType composed = "html") /\
    (array_of mentions = [] -> e' = e).
Proof.
  unfold composeMentions, bind.
  assert (N : exists new e',
             match mentions with
             | Some ((_ :: _) as l) => normalizeMentions users_get l []
             | _ => ret []
             end e = (Normal new, e') /\
             List.length new = List.length (filter has_id (array_of mentions))
             /\ (array_of mentions = [] -> e' = e)).
  { destruct mentions as [[|m ms]|]; simpl;
      try (exists [], e; repeat split; reflexivity).
    destruct (normalizeMentions_run (m :: ms) [] e)
      as (new & e' & ws & S & F & _).
    exists new, e'. split; [exact S|]. split; [|discriminate].
    symmetry. apply (Forall2_length F). }
  destruct N as (new & e' & -> & L & E).
  destruct new as [|m ms].
  - exists (mkComposed content contentType []), e'. simpl in *.
    rewrite <- L. repeat split; auto.
    intros H. exfalso. apply H. apply length_zero_iff_nil. now symmetry.
  - unfold liftC. rewrite processMentionsInHtml_Normal.
    eexists _, e'. split; [reflexivity|].
    change (finalMentions _) with (graphMentions_from 0 (m :: ms)).
    rewrite graphMentions_from_ids, L. repeat split; auto.
    intros H. rewrite H in L. discriminate L.
Qed.

(** X13.  What the handler composes from the mentions: as many final
    mentions as inputs with an id, with the sequence ids 0, 1, 2, ... in
    the order of the inputs.  If there is none (no array, an empty array,
    or only inputs without id) the content and the content type are left
    as they were; if there is one the content type is "html", whatever
    the format was.  Without any input nothing is requested or warned. *)
Theorem composeMentions_contentType (content contentType : string)
  (mentions : option (list MentionInput.t)) (e : Env World) :
  exists composed e',
    composeMentions users_get content contentType mentions e =
      (Normal composed, e') /\
    map GraphMention.id (finalMentions composed) =
      seq 0 (List.length (filter has_id (array_of mentions))) /\
    (filter has_id (array_of mentions) = [] ->
     composed = mkComposed content contentType []) /\
    (filter has_id (array_of mentions) <> [] ->
     body_contentType composed = "html") /\
    (array_of mentions = [] -> e' = e).
Proof. apply composeMentions_run. Qed.

End MoreNormalisation.

(** C7 at a channel id that has not the shape of channel ids, after a
    user mention. *)
Lemma channel_mention_is_not_looked_up_witness :
  (exists e',
      normalizeMention
        (fun (_ : string) (w : unit) => (Normal (Some "Someone"), w))
        (MentionInput.mk "General" None (Some "general")) []
        (mkEnv tt [] []) =
      (Normal [MentionMapping.mk "General" None (Some "general") "General"],
       e')
      /\ requests e' = [] /\ List.length (warnings e') = 1) /\
  (exists composed e',
      composeMentions
        (fun (_ : string) (w : unit) => (Normal (Some "Someone"), w))
        "Ask @John in @General" "text"
        (Some [MentionInput.mk "John" (Some "user-123") None;
               MentionInput.mk "General" None (Some "general")])
        (mkEnv tt [] []) = (Normal composed, e') /\
      nth_error (finalMentions composed) 1 =
      Some
        (GraphMention.mk 1 "General"
           (GraphMention.conversation (Some "general") "General"
              "channel"))).
Proof.
  destruct (@channel_mention_is_not_looked_up unit
              (fun (_ : string) (w : unit) => (Normal (Some "Someone"), w))
              (MentionInput.mk "General" None (Some "general")) [] []
              (mkEnv tt [] []) eq_refl eq_refl)
    as (e' & H & _ & R & _ & W & _ & K).
  split.
  - exists e'. split; [exact H|]. split; [exact R|].
    destruct W as [w ->]; [|reflexivity].
    intros S. apply channelIdPattern_test_shape in S. discriminate S.
  - destruct (K "Ask @John in @General" "text"
                [MentionInput.mk "John" (Some "user-123") None]
                (mkEnv tt [] []))
      as (composed & e'' & pre & post & Hc & _ & _ & Hn & Fpre & _).
    exists composed, e''. split; [exact Hc|].
    inversion Fpre as [|? ? ? ? _ Fnil]; subst. inversion Fnil; subst.
    exact Hn.
Defined.

(* ================================================================== *)
(** * Further properties: the sending handlers *)

Section HandlerFacts.

Variable World : Type.
Variable TypeError_message : bool -> string.
Variable Attachment : Type.
Variable attachment_name : Attachment -> string.
Variable users_get : string -> World -> Completion (option string) * World.
Variable getClient : World -> Settled unit * World.
Variable markdownToHtml : string -> World -> Settled string * World.
Variable imageUrlToBase64 :
  string -> World -> Settled (option ImageInfo) * World.
Variable isValidImageType : string -> bool.
Variable uploadImageAsHostedContent :
  string -> string -> string -> string -> option string ->
  World -> Settled (option Attachment) * World.
Variable api_post :
  string -> Payload Attachment -> World -> Settled (option string) * World.

Local Abbreviation send :=
  (send_to_channel TypeError_message attachment_name users_get getClient
     markdownToHtml imageUrlToBase64 isValidImageType
     uploadImageAsHostedContent api_post).

(** The collaborator that threw what the handler caught. *)
Local Abbreviation thrown_by error :=
  ((exists w w', getClient w = (Rejected error, w')) \/
   (exists m w w', markdownToHtml m w = (Rejected error, w')) \/
   (exists u w w', imageUrlToBase64 u w = (Rejected error, w')) \/
   (exists a b c d f w w',
       uploadImageAsHostedContent a b c d f w = (Rejected error, w')) \/
   (exists p q w w', api_post p q w = (Rejected error, w'))).

Local Abbreviation images :=
  (@imageAttachments World Attachment imageUrlToBase64 isValidImageType
     uploadImageAsHostedContent).

(** A call is written down and changes nothing but the directory. *)
Lemma call_run {A : Type} (c : Call Attachment)
  (f : World -> Settled A * World) (h : HEnv World Attachment) :
  exists r w,
    f (world (env h)) = (r, w) /\
    call c f h =
    (r, mkHEnv (mkEnv w (warnings (env h)) (requests (env h)))
          (push (calls h) c)).
Proof.
  unfold call. destruct (f (world (env h))) as [r w]. eauto.
Qed.


Lemma liftM_composeMentions content contentType mentions
  (h : HEnv World Attachment) :
  exists composed e',
    liftM (composeMentions users_get content contentType mentions) h =
      (Fulfilled composed, mkHEnv e' (calls h)) /\
    composeMentions users_get content contentType mentions (env h) =
      (Normal composed, e').
Proof.
  destruct (composeMentions_total users_get content contentType mentions
              (env h)) as (composed & e' & E).
  exists composed, e'. unfold liftM. now rewrite E.
Qed.


(** The step of the format: at most the call of the renderer. *)
Lemma formatContent_run format message (h : HEnv World Attachment) :
  exists r h',
    formatContent markdownToHtml format message h = (r, h') /\
    warnings (env h') = warnings (env h) /\
    requests (env h') = requests (env h) /\
    (exists cs, calls h' = (calls h ++ cs)%list /\
                Forall (fun c => ~ post_call c) cs /\
                Forall (fun c => ~ image_call c) cs) /\
    (format <> Some format_markdown ->
     r = Fulfilled (message, "text") /\ h' = h) /\
    (format = Some format_markdown ->
     calls h' = push (calls h) (CallMarkdownToHtml Attachment message) /\
     exists r0 w,
       markdownToHtml message (world (env h)) = (r0, w) /\
       r = match r0 with
           | Fulfilled content => Fulfilled (content, "html")
           | Rejected error => Rejected error
           end).
Proof.
  unfold formatContent.
  assert (T : exists r h',
             retH (message, "text") h = (r, h') /\
             warnings (env h') = warnings (env h) /\
             requests (env h') = requests (env h) /\
             r = Fulfilled (message, "text") /\ h' = h).
  { exists (Fulfilled (message, "text")), h. repeat split. }
  destruct format as [[]|].
  - destruct T as (r & h' & E & W & R & Er & Eh).
    exists r, h'. repeat split; auto; try discriminate.
    exists []. subst h'. rewrite app_nil_r. auto.
  - unfold bindH.
    destruct (call_run (CallMarkdownToHtml Attachment message)
                (markdownToHtml message) h) as (r0 & w & E & ->).
    destruct r0 as [c|m]; simpl; do 2 eexists;
      (split; [reflexivity|]); simpl;
      (split; [reflexivity|]); (split; [reflexivity|]);
      (split; [exists [CallMarkdownToHtml Attachment message];
               split; [reflexivity|split; repeat constructor; simpl; tauto]|]);
      (split; [congruence|]); intros _; (split; [reflexivity|]);
      [exists (Fulfilled c), w | exists (Rejected m), w];
      (split; [exact E|reflexivity]).
  - destruct T as (r & h' & E & W & R & Er & Eh).
    exists r, h'. repeat split; auto; try discriminate.
    exists []. subst h'. rewrite app_nil_r. auto.
Qed.

(** The step of the image. *)
Lemma imageAttachments_run teamId channelId imageUrl imageData
  imageContentType imageFileName (h : HEnv World Attachment) :
  exists r h' cs,
    images teamId channelId imageUrl imageData imageContentType
      imageFileName h = (r, h') /\
    calls h' = (calls h ++ cs)%list /\
    Forall image_call cs /\
    warnings (env h') = warnings (env h) /\
    requests (env h') = requests (env h) /\
    (forall result, r = Fulfilled (inl result) -> isError result = true) /\
    (forall attachments, r = Fulfilled (inr attachments) ->
       List.length attachments <= 1 /\
       (attachments <> [] ->
        truthy imageUrl = true \/
        (truthy imageData = true /\ truthy imageContentType = true /\
         isValidImageType (value_of imageContentType) = true))) /\
    (truthy imageUrl = false -> truthy imageContentType = false ->
     r = Fulfilled (inr []) /\ h' = h) /\
    (truthy imageUrl = false -> truthy imageData = false ->
     r = Fulfilled (inr []) /\ h' = h) /\
    (truthy imageUrl = false -> truthy imageData = true ->
     truthy imageContentType = true ->
     isValidImageType (value_of imageContentType) = false ->
     r = Fulfilled
           (inl (errorResult ("‚ùå Unsupported image type: "
                                ++ value_of imageContentType))) /\
     h' = h) /\
    (truthy imageUrl = true ->
     (forall w, exists w',
         imageUrlToBase64 (value_of imageUrl) w = (Fulfilled None, w')) ->
     r = Fulfilled
           (inl (errorResult ("‚ùå Failed to download image from URL: "
                                ++ value_of imageUrl))) /\
     cs = [CallImageUrlToBase64 Attachment (value_of imageUrl)]) /\
    ((forall a b c d f w, exists w',
         uploadImageAsHostedContent a b c d f w = (Fulfilled None, w')) ->
     forall attachments, r = Fulfilled (inr attachments) -> attachments = []) /\
    (truthy imageUrl = true \/
     (truthy imageData = true /\ truthy imageContentType = true) ->
     forall attachments, r = Fulfilled (inr attachments) -> attachments <> []) /\
    (truthy imageUrl = false -> truthy imageContentType = false ->
     cs = []) /\
    (forall error,
        r = Rejected error ->
        (exists w w',
            imageUrlToBase64 (value_of imageUrl) w = (Rejected error, w')) \/
        (exists a b w w',
            uploadImageAsHostedContent teamId channelId a b imageFileName w
            = (Rejected error, w'))).
Proof.
  unfold imageAttachments, bindH, retH, call.
  destruct (truthy imageUrl) eqn:U, (truthy imageData) eqn:Dt,
    (truthy imageContentType) eqn:Ct,
    (isValidImageType (value_of imageContentType)) eqn:V; simpl;
  repeat match goal with
         | |- context [imageUrlToBase64 ?a ?w] =>
             let E := fresh "E" in
             destruct (imageUrlToBase64 a w) as [[[?|]|?] ?] eqn:E; simpl
         | |- context [uploadImageAsHostedContent ?a ?b ?c ?d ?f ?w] =>
             let E := fresh "E" in
             destruct (uploadImageAsHostedContent a b c d f w)
               as [[[?|]|?] ?] eqn:E; simpl
         end.
  all: eexists _, _, _; (split; [reflexivity|]); simpl.
  all: split; [unfold push; rewrite <- ?app_assoc;
               first [reflexivity | symmetry; apply app_nil_r]|].
  all: repeat match goal with
              | |- _ /\ _ => split
              | |- forall _, _ => intro
              end.
  all: repeat match goal with
              | D : forall w, exists w', imageUrlToBase64 ?u w = _,
                E : imageUrlToBase64 ?u ?w0 = _ |- _ =>
                  let D' := fresh in
                  destruct (D w0) as [? D']; rewrite D' in E; clear D
              | D : forall a b c d f w, exists w',
                    uploadImageAsHostedContent a b c d f w = _,
                E : uploadImageAsHostedContent ?a ?b ?c ?d ?f ?w0 = _ |- _ =>
                  let D' := fresh in
                  destruct (D a b c d f w0) as [? D']; rewrite D' in E;
                  clear D
              end.
  all: try discriminate.
  all: try match goal with
           | Q : Fulfilled _ = Fulfilled _ |- _ => inversion Q; subst
           | Q : Rejected _ = Rejected _ |- _ => inversion Q; subst
           end.
  all: try solve [reflexivity | simpl; lia | repeat constructor; exact I
                 | auto | congruence | intuition discriminate
                 | left; eauto | right; eauto 10].
Qed.

(** The course of the handler, step by step. *)
Lemma send_to_channel_run path sent failed teamId channelId message
  importance format mentions imageUrl imageData imageContentType
  imageFileName (h : HEnv World Attachment) :
  exists r h',
    send path sent failed teamId channelId message importance format
      mentions imageUrl imageData imageContentType imageFileName h =
    (r, h') /\
    ((exists error w,
         getClient (world (env h)) = (Rejected error, w) /\
         r = caught TypeError_message failed error /\
         h' = mkHEnv (mkEnv w (warnings (env h)) (requests (env h)))
                (push (calls h) (CallGetClient Attachment))) \/
     (exists w0 rf h2,
         getClient (world (env h)) = (Fulfilled tt, w0) /\
         formatContent markdownToHtml format message
           (mkHEnv (mkEnv w0 (warnings (env h)) (requests (env h)))
              (push (calls h) (CallGetClient Attachment))) = (rf, h2) /\
         match rf with
         | Rejected error =>
             r = caught TypeError_message failed error /\ h' = h2
         | Fulfilled formatted =>
             exists composed e' ri h4,
               composeMentions users_get (fst formatted) (snd formatted)
                 mentions (env h2) = (Normal composed, e') /\
               images teamId channelId imageUrl imageData imageContentType
                 imageFileName (mkHEnv e' (calls h2)) = (ri, h4) /\
               match ri with
               | Rejected error =>
                   r = caught TypeError_message failed error /\ h' = h4
               | Fulfilled (inl result) => r = Fulfilled result /\ h' = h4
               | Fulfilled (inr attachments) =>
                   exists rp w,
                     api_post path
                       (messagePayload composed importance attachments)
                       (world (env h4)) = (rp, w) /\
                     h' = mkHEnv
                            (mkEnv w (warnings (env h4)) (requests (env h4)))
                            (push (calls h4)
                               (CallPost path
                                  (messagePayload composed importance
                                     attachments))) /\
                     r = match rp with
                         | Fulfilled id =>
                             Fulfilled
                               (mkToolResult
                                  (successText attachment_name sent id
                                     (finalMentions composed) attachments)
                                  false)
                         | Rejected error =>
                             caught TypeError_message failed error
                         end
               end
         end)).
Proof.
  unfold send_to_channel, try_catchH, catch_error.
  unfold bindH at 1.
  destruct (call_run (CallGetClient Attachment) getClient h)
    as (r0 & w0 & G & ->).
  destruct r0 as [[]|error0].
  2:{ do 2 eexists. split; [reflexivity|]. left. eauto. }
  unfold bindH at 1.
  destruct (formatContent markdownToHtml format message _)
    as [[formatted|error] h2] eqn:F.
  2:{ do 2 eexists. split; [reflexivity|]. right.
      exists w0, (Rejected error), h2. auto. }
  unfold bindH at 1.
  destruct (liftM_composeMentions (fst formatted) (snd formatted) mentions h2)
    as (composed & e' & -> & C).
  unfold bindH at 1.
  destruct (images teamId channelId imageUrl imageData imageContentType
              imageFileName (mkHEnv e' (calls h2)))
    as [[[result|attachments]|error] h4] eqn:I.
  - do 2 eexists. split; [reflexivity|]. right.
    exists w0, (Fulfilled formatted), h2. repeat split; auto.
    exists composed, e', (Fulfilled (inl result)), h4. auto.
  - unfold bindH.
    match goal with
    | |- context [call ?c ?f ?h0] =>
        destruct (call_run c f h0) as (rp & w & P & ->)
    end.
    destruct rp as [id|error]; do 2 eexists; (split; [reflexivity|]); right;
      exists w0, (Fulfilled formatted), h2; repeat split; auto;
      exists composed, e', (Fulfilled (inr attachments)), h4;
      repeat split; auto;
      [exists (Fulfilled id), w | exists (Rejected error), w]; auto.
  - do 2 eexists. split; [reflexivity|]. right.
    exists w0, (Fulfilled formatted), h2. repeat split; auto.
    exists composed, e', (Rejected error), h4. auto.
Qed.

Ltac open_run path sent failed teamId channelId message importance format
  mentions imageUrl imageData imageContentType imageFileName h :=
  let r := fresh "r" in let h' := fresh "h'" in
  let Run := fresh "Run" in let Rest := fresh "Rest" in
  destruct (send_to_channel_run path sent failed teamId channelId message
              importance format mentions imageUrl imageData imageContentType
              imageFileName h)
    as (r & h' & Run & [(error & w & G & -> & ->)
                       |(w0 & rf & h2 & G & F & Rest)]);
  [assert (Src : thrown_by error) by (left; eauto)
  |
   let F' := fresh in
   destruct (formatContent_run format message
               (mkHEnv (mkEnv w0 (warnings (env h)) (requests (env h)))
                  (push (calls h) (CallGetClient Attachment))))
     as (rf' & h2' & F' & Wf & Rf & (csf & Cf & Pf & Pfi) & Ftext & Fmd);
   rewrite F in F'; inversion F'; subst rf' h2'; clear F';
   destruct rf as [formatted|error];
   [destruct Rest as (composed & e' & ri & h4 & C & Im & Rest);
    let I' := fresh in
    destruct (imageAttachments_run teamId channelId imageUrl imageData
                imageContentType imageFileName (mkHEnv e' (calls h2)))
      as (ri' & h4' & csi & I' & Ci & Pi & Wi & Ri & Ierr & Iatt & Inotype
          & Inodata & Ibadtype & Inull & Iup & Isome & Inone & Isrc);
    rewrite Im in I'; inversion I'; subst ri' h4'; clear I';
    destruct ri as [[result|attachments]|error];
    [destruct Rest as [-> ->]
    |destruct Rest as (rp & w & P & -> & ->)
    |destruct Rest as [-> ->];
     assert (Src : thrown_by error)
       by (destruct (Isrc error eq_refl)
             as [(? & ? & ?)|(? & ? & ? & ? & ?)];
           [right; right; left; eauto | right; right; right; left; eauto 10])]
   |destruct Rest as [-> ->];
    assert (Src : thrown_by error)
      by (destruct format as [[|]|];
          [destruct Ftext as [? _]; [discriminate|discriminate]
          |destruct (Fmd eq_refl) as (_ & ? & ? & ? & Er);
           match type of Er with
           | _ = match ?r0 with _ => _ end =>
               destruct r0; inversion Er; subst;
               right; left; eauto
           end
          |destruct Ftext as [? _]; [discriminate|discriminate]])]].

Ltac calls_norm Ci Cf :=
  cbn [calls env]; rewrite ?Ci; cbn [calls env]; rewrite ?Cf;
  cbn [calls env]; unfold push;
  repeat (progress (rewrite <- ?app_assoc; cbn [app])).

Lemma image_call_not_post (c : Call Attachment) :
  image_call c -> ~ post_call c.
Proof. destruct c; simpl; tauto. Qed.

Lemma Forall_image_not_post (cs : list (Call Attachment)) :
  Forall image_call cs -> Forall (fun c => ~ post_call c) cs.
Proof.
  intros H. eapply Forall_impl; [|exact H]. apply image_call_not_post.
Qed.

Lemma In_post_last (pre : list (Call Attachment)) path payload p q :
  Forall (fun c => ~ post_call c) pre ->
  In (CallPost p q) (pre ++ [CallPost path payload]) ->
  p = path /\ q = payload.
Proof.
  intros F H. apply in_app_or in H. destruct H as [H|[H|[]]].
  - rewrite Forall_forall in F. exfalso. apply (F _ H). exact I.
  - now inversion H.
Qed.

Lemma not_In_post (cs : list (Call Attachment)) p q :
  Forall (fun c => ~ post_call c) cs -> ~ In (CallPost p q) cs.
Proof.
  intros F H. rewrite Forall_forall in F. apply (F _ H). exact I.
Qed.

(** What the [catch] of the handler makes of an error. *)
Lemma caught_Fulfilled failed error res :
  caught TypeError_message failed error = Fulfilled res ->
  isError res = true /\
  exists message, error = thrown_error message /\ res = errorResult (failed ++ message).
Proof.
  destruct error as [message|is_null]; simpl; intros H; inversion H.
  split; [reflexivity|]. now exists message.
Qed.

Lemma caught_Rejected failed error e :
  caught TypeError_message failed error = Rejected e ->
  exists is_null,
    error = thrown_nullish is_null /\
    e = thrown_error (TypeError_message is_null).
Proof.
  destruct error as [message|is_null]; simpl; intros H; inversion H.
  now exists is_null.
Qed.

Lemma caught_returns failed error :
  thrown_by error ->
  never_nullish getClient ->
  (forall m, never_nullish (markdownToHtml m)) ->
  (forall u, never_nullish (imageUrlToBase64 u)) ->
  (forall a b c d f, never_nullish (uploadImageAsHostedContent a b c d f)) ->
  (forall p q, never_nullish (api_post p q)) ->
  exists res, caught TypeError_message failed error = Fulfilled res.
Proof.
  intros Src Ng Nm Nd Nu Np.
  destruct error as [message|is_null]; [simpl; eauto|]. exfalso.
  destruct Src as [(w & w' & E)|[(m & w & w' & E)|[(u & w & w' & E)
                  |[(a & b & c & d & f & w & w' & E)|(p & q & w & w' & E)]]]].
  - exact (Ng _ _ _ E).
  - exact (Nm _ _ _ _ E).
  - exact (Nd _ _ _ _ E).
  - exact (Nu _ _ _ _ _ _ _ _ E).
  - exact (Np _ _ _ _ _ E).
Qed.

(** X15.  One run of the handler of [send_channel_message] or
    [reply_to_channel_message] begins by asking for the client and posts
    at most once: a post, if there is one, is the last call and goes to
    the path of the tool; and the result is a success only if the post
    was made.  The handler returns a result whenever none of its
    collaborators throws [undefined] or [null]; what it throws
    otherwise is the TypeError of the read of the message in its
    [catch]. *)
Theorem send_to_channel_posts_once path sent failed teamId channelId message
  importance format mentions imageUrl imageData imageContentType
  imageFileName (h : HEnv World Attachment) :
  exists r h' cs,
    send path sent failed teamId channelId message importance format
      mentions imageUrl imageData imageContentType imageFileName h =
    (r, h') /\
    calls h' = (calls h ++ CallGetClient Attachment :: cs)%list /\
    (forall p q,
        In (CallPost p q) cs ->
        p = path /\
        exists pre,
          cs = (pre ++ [CallPost p q])%list /\
          Forall (fun c => ~ post_call c) pre) /\
    (forall res,
        r = Fulfilled res ->
        isError res = false ->
        exists pre q, cs = (pre ++ [CallPost path q])%list) /\
    (forall error,
        r = Rejected error ->
        exists is_null, error = thrown_error (TypeError_message is_null)) /\
    (never_nullish getClient ->
     (forall m, never_nullish (markdownToHtml m)) ->
     (forall u, never_nullish (imageUrlToBase64 u)) ->
     (forall a b c d f,
         never_nullish (uploadImageAsHostedContent a b c d f)) ->
     (forall p q, never_nullish (api_post p q)) ->
     exists res, r = Fulfilled res).
Proof.
  open_run path sent failed teamId channelId message importance format
    mentions imageUrl imageData imageContentType imageFileName h.
  - eexists _, _, []. split; [exact Run|].
    unfold push. simpl. split; [reflexivity|].
    split; [intros p q []|]. split; [|split].
    + intros res E. apply caught_Fulfilled in E. destruct E as [E _].
      rewrite E. discriminate.
    + intros e E. apply caught_Rejected in E.
      destruct E as (b & _ & ->). now exists b.
    + now apply caught_returns.
  - exists (Fulfilled result), h4, (csf ++ csi)%list. split; [exact Run|].
    assert (N : Forall (fun c => ~ post_call c) (csf ++ csi)).
    { apply Forall_app. split; [exact Pf | now apply Forall_image_not_post]. }
    calls_norm Ci Cf. split; [reflexivity|]. split; [|split; [|split]].
    + intros p q H. exfalso. exact (@not_In_post _ p q N H).
    + intros res E. inversion E; subst res.
      rewrite (Ierr result eq_refl). discriminate.
    + discriminate.
    + eauto.
  - eexists _, _, ((csf ++ csi) ++ [_])%list. split; [exact Run|].
    assert (N : Forall (fun c => ~ post_call c) (csf ++ csi)).
    { apply Forall_app. split; [exact Pf | now apply Forall_image_not_post]. }
    calls_norm Ci Cf. split; [reflexivity|]. split; [|split; [|split]].
    + intros p q H. rewrite app_assoc in H.
      destruct (@In_post_last _ _ _ _ _ N H) as [-> ->].
      split; [reflexivity|]. exists (csf ++ csi)%list.
      rewrite <- app_assoc. auto.
    + intros _ _ _. exists (csf ++ csi)%list. eexists.
      now rewrite <- app_assoc.
    + destruct rp as [id|error]; [discriminate|].
      intros e E. apply caught_Rejected in E.
      destruct E as (b & _ & ->). now exists b.
    + destruct rp as [id|error]; [eauto|].
      intros Ng Nm Nd Nu Np. apply caught_returns; auto.
      right; right; right; right. eauto.
  - eexists _, h4, (csf ++ csi)%list.
    split; [exact Run|].
    assert (N : Forall (fun c => ~ post_call c) (csf ++ csi)).
    { apply Forall_app. split; [exact Pf | now apply Forall_image_not_post]. }
    calls_norm Ci Cf. split; [reflexivity|]. split; [|split; [|split]].
    + intros p q H. exfalso. exact (@not_In_post _ p q N H).
    + intros res E. apply caught_Fulfilled in E. destruct E as [E _].
      rewrite E. discriminate.
    + intros e E. apply caught_Rejected in E.
      destruct E as (b & _ & ->). now exists b.
    + now apply caught_returns.
  - eexists _, h2, csf. split; [exact Run|].
    calls_norm Cf Cf. split; [reflexivity|]. split; [|split; [|split]].
    + intros p q H. exfalso. exact (@not_In_post _ p q Pf H).
    + intros res E. apply caught_Fulfilled in E. destruct E as [E _].
      rewrite E. discriminate.
    + intros e E. apply caught_Rejected in E.
      destruct E as (b & _ & ->). now exists b.
    + now apply caught_returns.
Qed.

(** X16.  The payload the handler posts: the importance is the one given
    or "normal"; the mentions are left out exactly when no input has an
    id, and when they are there the content type is "html" and their
    sequence ids are 0, 1, 2, ...; without mentions a message that is not
    markdown is posted as it was given, as "text"; and the attachments,
    when there, are one. *)
Theorem send_to_channel_payload path sent failed teamId channelId message
  importance format mentions imageUrl imageData imageContentType
  imageFileName (h : HEnv World Attachment) :
  exists r h' cs,
    send path sent failed teamId channelId message importance format
      mentions imageUrl imageData imageContentType imageFileName h =
    (r, h') /\
    calls h' = (calls h ++ CallGetClient Attachment :: cs)%list /\
    forall p q,
      In (CallPost p q) cs ->
      payload_importance q = importance_or_normal importance /\
      (payload_mentions q = None <->
       filter has_id (array_of mentions) = []) /\
      (forall gs,
          payload_mentions q = Some gs ->
          payload_contentType q = "html" /\
          map GraphMention.id gs =
            seq 0 (List.length (filter has_id (array_of mentions)))) /\
      (payload_mentions q = None -> format <> Some format_markdown ->
       payload_content q = message /\ payload_contentType q = "text") /\
      (format = Some format_markdown -> payload_contentType q = "html") /\
      (forall attachments,
          payload_attachments q = Some attachments ->
          List.length attachments = 1).
Proof.
  open_run path sent failed teamId channelId message importance format
    mentions imageUrl imageData imageContentType imageFileName h.
  - eexists _, _, []. split; [exact Run|].
    unfold push. simpl. split; [reflexivity|]. intros p q [].
  - exists (Fulfilled result), h4, (csf ++ csi)%list. split; [exact Run|].
    assert (N : Forall (fun c => ~ post_call c) (csf ++ csi)).
    { apply Forall_app. split; [exact Pf | now apply Forall_image_not_post]. }
    calls_norm Ci Cf. split; [reflexivity|].
    intros p q H. exfalso. exact (@not_In_post _ p q N H).
  - eexists _, _, ((csf ++ csi) ++ [_])%list. split; [exact Run|].
    assert (N : Forall (fun c => ~ post_call c) (csf ++ csi)).
    { apply Forall_app. split; [exact Pf | now apply Forall_image_not_post]. }
    calls_norm Ci Cf. split; [reflexivity|].
    intros p q H. rewrite app_assoc in H.
    destruct (@In_post_last _ _ _ _ _ N H) as [-> ->].
    destruct (composeMentions_run users_get (fst formatted) (snd formatted)
                mentions (env h2))
      as (composed0 & e0 & C0 & Ids & Cnone & Csome & _).
    rewrite C in C0. inversion C0; subst composed0 e0; clear C0.
    destruct (Iatt attachments eq_refl) as [La _].
    unfold messagePayload. simpl.
    split; [reflexivity|].
    destruct (filter has_id (array_of mentions)) as [|x xs] eqn:Fi.
    + rewrite (Cnone eq_refl) in *. simpl.
      split; [tauto|]. split; [discriminate|]. split; [|split].
      * intros _ NM. destruct (Ftext NM) as [Ef _].
        inversion Ef. split; reflexivity.
      * intros M. destruct (Fmd M) as (_ & r0 & w1 & _ & Er).
        destruct r0; inversion Er. reflexivity.
      * intros atts A. destruct attachments as [|a [|b l]];
          inversion A; subst; simpl in *; auto; lia.
    + assert (Hh : body_contentType composed = "html")
        by (apply Csome; discriminate).
      destruct (finalMentions composed) as [|g gs0] eqn:Fm;
        [discriminate Ids|].
      split; [split; discriminate|]. split; [|split; [|split]].
      * intros gs Q. inversion Q; subst. split; [exact Hh|exact Ids].
      * discriminate.
      * intros _. exact Hh.
      * intros atts A. destruct attachments as [|a [|b l]];
          inversion A; subst; simpl in *; auto; lia.
  - eexists _, h4, (csf ++ csi)%list.
    split; [exact Run|].
    assert (N : Forall (fun c => ~ post_call c) (csf ++ csi)).
    { apply Forall_app. split; [exact Pf | now apply Forall_image_not_post]. }
    calls_norm Ci Cf. split; [reflexivity|].
    intros p q H. exfalso. exact (@not_In_post _ p q N H).
  - eexists _, h2, csf. split; [exact Run|].
    calls_norm Cf Cf. split; [reflexivity|].
    intros p q H. exfalso. exact (@not_In_post _ p q Pf H).
Qed.

(** X17.  The lookups of display names never stop the sending: when the
    client, the conversion of markdown and the post do not throw and no
    image is asked for, the message is posted and the result is a
    success that starts with the text of the handler, whatever the
    lookups do. *)
Theorem send_to_channel_succeeds path sent failed teamId channelId message
  importance format mentions imageUrl imageData imageContentType
  imageFileName (h : HEnv World Attachment)
  (Hclient : forall w, exists w', getClient w = (Fulfilled tt, w'))
  (Hmarkdown : forall m w, exists c w', markdownToHtml m w = (Fulfilled c, w'))
  (Hpost : forall p q w, exists id w', api_post p q w = (Fulfilled id, w'))
  (Hurl : truthy imageUrl = false)
  (Hdata : truthy imageData = false) :
  exists res h' pre q rest,
    send path sent failed teamId channelId message importance format
      mentions imageUrl imageData imageContentType imageFileName h =
    (Fulfilled res, h') /\
    isError res = false /\
    text res = sent ++ rest /\
    calls h' = (calls h ++ pre ++ [CallPost path q])%list.
Proof.
  open_run path sent failed teamId channelId message importance format
    mentions imageUrl imageData imageContentType imageFileName h.
  - destruct (Hclient (world (env h))) as (w' & G').
    rewrite G in G'. discriminate G'.
  - destruct (Inodata Hurl Hdata) as [Q _]. discriminate Q.
  - destruct (Hpost path (messagePayload composed importance attachments)
                (world (env h4))) as (id & w' & P').
    rewrite P in P'. inversion P'; subst rp w'; clear P'.
    eexists _, _, (CallGetClient Attachment :: csf ++ csi)%list, _, _.
    split; [exact Run|]. split; [reflexivity|].
    split; [unfold successText; simpl; reflexivity|].
    calls_norm Ci Cf. reflexivity.
  - destruct (Inodata Hurl Hdata) as [Q _]. discriminate Q.
  - destruct format as [[|]|].
    + destruct Ftext as [Q _]; [discriminate|discriminate Q].
    + destruct (Fmd eq_refl) as (_ & r0 & w1 & Mk & Er).
      destruct (Hmarkdown message w0) as (c & w' & Mk').
      simpl in Mk. rewrite Mk' in Mk. inversion Mk; subst r0.
      discriminate Er.
    + destruct Ftext as [Q _]; [discriminate|discriminate Q].
Qed.

(** X18.  When the client cannot be had, the handler does what its
    [catch] does with what was thrown and nothing else: no conversion, no
    lookup, no warning, no image, no post.  The result is the error with
    the message thrown; for [undefined] or [null] thrown, it is no
    result but the TypeError of the read of the message. *)
Theorem send_to_channel_without_client path sent failed teamId channelId
  message importance format mentions imageUrl imageData imageContentType
  imageFileName (h : HEnv World Attachment) error w
  (Hclient : getClient (world (env h)) = (Rejected error, w)) :
  send path sent failed teamId channelId message importance format
    mentions imageUrl imageData imageContentType imageFileName h =
  (match error with
   | thrown_error message => Fulfilled (errorResult (failed ++ message))
   | thrown_nullish is_null =>
       Rejected (thrown_error (TypeError_message is_null))
   end,
   mkHEnv (mkEnv w (warnings (env h)) (requests (env h)))
     (push (calls h) (CallGetClient Attachment))).
Proof.
  destruct (send_to_channel_run path sent failed teamId channelId message
              importance format mentions imageUrl imageData imageContentType
              imageFileName h)
    as (r & h' & Run & [(error' & w' & G & -> & ->)
                       |(w0 & rf & h2 & G & _)]);
    rewrite Hclient in G; inversion G. subst. exact Run.
Qed.

(** X19.  An image that cannot be had stops the message: when the
    download gives nothing, or the type of the image data is not a valid
    one, or the upload gives nothing, nothing is posted and a result, if
    the handler returns one, is an error. *)
Theorem send_to_channel_image_failure path sent failed teamId channelId
  message importance format mentions imageUrl imageData imageContentType
  imageFileName (h : HEnv World Attachment)
  (Himage :
     (truthy imageUrl = true /\
      forall w, exists w',
        imageUrlToBase64 (value_of imageUrl) w = (Fulfilled None, w')) \/
     (truthy imageUrl = false /\ truthy imageData = true /\
      truthy imageContentType = true /\
      isValidImageType (value_of imageContentType) = false) \/
     ((truthy imageUrl = true \/
       (truthy imageData = true /\ truthy imageContentType = true)) /\
      forall a b c d f w, exists w',
        uploadImageAsHostedContent a b c d f w = (Fulfilled None, w'))) :
  exists r h' cs,
    send path sent failed teamId channelId message importance format
      mentions imageUrl imageData imageContentType imageFileName h =
    (r, h') /\
    (forall res, r = Fulfilled res -> isError res = true) /\
    calls h' = (calls h ++ cs)%list /\
    Forall (fun c => ~ post_call c) cs.
Proof.
  open_run path sent failed teamId channelId message importance format
    mentions imageUrl imageData imageContentType imageFileName h.
  - eexists _, _, [_]. split; [exact Run|].
    split; [intros res E; now apply caught_Fulfilled in E|].
    split; [reflexivity|]. repeat constructor. simpl. tauto.
  - exists (Fulfilled result), h4,
      (CallGetClient Attachment :: csf ++ csi)%list.
    split; [exact Run|].
    split; [intros res E; inversion E; subst; exact (Ierr res eq_refl)|].
    calls_norm Ci Cf. split; [reflexivity|].
    constructor; [simpl; tauto|]. apply Forall_app.
    split; [exact Pf | now apply Forall_image_not_post].
  - exfalso. destruct Himage as [[U N]|[(U & D & T & V)|[S N]]].
    + destruct (Inull U N) as [Q _]. discriminate Q.
    + destruct (Ibadtype U D T V) as [Q _]. discriminate Q.
    + apply (Isome S attachments eq_refl). exact (Iup N attachments eq_refl).
  - eexists _, h4, (CallGetClient Attachment :: csf ++ csi)%list.
    split; [exact Run|].
    split; [intros res E; now apply caught_Fulfilled in E|].
    calls_norm Ci Cf. split; [reflexivity|].
    constructor; [simpl; tauto|]. apply Forall_app.
    split; [exact Pf | now apply Forall_image_not_post].
  - eexists _, h2, (CallGetClient Attachment :: csf)%list.
    split; [exact Run|].
    split; [intros res E; now apply caught_Fulfilled in E|].
    calls_norm Cf Cf. split; [reflexivity|].
    constructor; [simpl; tauto|exact Pf].
Qed.

(** X20.  Image data that comes without a content type is left out
    without a word: when there is no image URL and no content type, no
    image is downloaded or uploaded, the image is no cause of an error
    and what is posted has no attachments. *)
Theorem send_to_channel_image_data_without_type path sent failed teamId
  channelId message importance format mentions imageUrl imageData
  imageContentType imageFileName (h : HEnv World Attachment)
  (Hurl : truthy imageUrl = false)
  (Htype : truthy imageContentType = false) :
  exists r h' cs,
    send path sent failed teamId channelId message importance format
      mentions imageUrl imageData imageContentType imageFileName h =
    (r, h') /\
    calls h' = (calls h ++ cs)%list /\
    Forall (fun c => ~ image_call c) cs /\
    (forall p q, In (CallPost p q) cs -> payload_attachments q = None) /\
    (forall res,
        r = Fulfilled res ->
        isError res = true -> exists m, text res = failed ++ m).
Proof.
  open_run path sent failed teamId channelId message importance format
    mentions imageUrl imageData imageContentType imageFileName h.
  - eexists _, _, [_]. split; [exact Run|]. split; [reflexivity|].
    split; [repeat constructor; simpl; tauto|].
    split; [intros p q [Q|[]]; discriminate Q|].
    intros res E _. apply caught_Fulfilled in E.
    destruct E as (_ & m & _ & ->). now exists m.
  - destruct (Inotype Hurl Htype) as [Q _]. discriminate Q.
  - destruct (Inotype Hurl Htype) as [Q _]. inversion Q; subst attachments.
    rewrite (Inone Hurl Htype) in *.
    eexists _, _, (CallGetClient Attachment :: csf ++ [_])%list.
    split; [exact Run|].
    calls_norm Ci Cf. split; [reflexivity|]. split; [|split].
    + constructor; [simpl; tauto|]. apply Forall_app.
      split; [exact Pfi|]. repeat constructor. simpl. tauto.
    + intros p q [Q'|H]; [discriminate Q'|].
      destruct (@In_post_last _ _ _ _ _ Pf H) as [_ ->]. reflexivity.
    + destruct rp as [id|error]; intros res E; [now inversion E|].
      intros _. apply caught_Fulfilled in E.
      destruct E as (_ & m & _ & ->). now exists m.
  - destruct (Inotype Hurl Htype) as [Q _]. discriminate Q.
  - eexists _, h2, (CallGetClient Attachment :: csf)%list.
    split; [exact Run|].
    calls_norm Cf Cf. split; [reflexivity|]. split; [|split].
    + constructor; [simpl; tauto|exact Pfi].
    + intros p q [Q|H]; [discriminate Q|].
      exfalso. exact (@not_In_post _ p q Pf H).
    + intros res E _. apply caught_Fulfilled in E.
      destruct E as (_ & m & _ & ->). now exists m.
Qed.

(** The mention a mapping of the loop gives, read from its input. *)
Lemma graphMentions_from_normalized (inputs : list MentionInput.t)
  (mappings : list MentionMapping.t) :
  Forall2 normalized inputs mappings ->
  Forall (fun input => has_id input = true) inputs ->
  forall index,
    Forall2
      (fun input g =>
         GraphMention.mentioned g =
           if is_user_input input
           then GraphMention.user (MentionInput.userId input)
           else GraphMention.conversation (MentionInput.channelId input)
                  (MentionInput.mention input) "channel")
      inputs (graphMentions_from index mappings).
Proof.
  induction 1 as [|input mapping inputs mappings N _ IH]; intros A index;
    simpl; constructor.
  - inversion A as [|? ? Hid _]; subst.
    destruct N as (_ & U & C & D & _).
    unfold graphMention, isUserMentionMapping. rewrite U.
    unfold has_id, is_user_input, truthy in *.
    destruct (MentionInput.userId input) as [u|] eqn:Eu.
    + destruct (negb (String.eqb u EmptyString)) eqn:T; simpl.
      * reflexivity.
      * rewrite C, (D eq_refl). reflexivity.
    + simpl. rewrite C, (D eq_refl). reflexivity.
  - apply IH. now inversion A.
Qed.

(** The mappings behind what the handler composes. *)
Lemma composeMentions_mappings (content contentType : string)
  (mentions : option (list MentionInput.t)) (e : Env World) :
  exists composed e' new,
    composeMentions users_get content contentType mentions e =
      (Normal composed, e') /\
    finalMentions composed = graphMentions_from 0 new /\
    Forall2 normalized (filter has_id (array_of mentions)) new.
Proof.
  unfold composeMentions, bind.
  assert (N : exists new e',
             match mentions with
             | Some ((_ :: _) as l) => normalizeMentions users_get l []
             | _ => ret []
             end e = (Normal new, e') /\
             Forall2 normalized (filter has_id (array_of mentions)) new).
  { destruct mentions as [[|m ms]|];
      try (exists [], e; split; [reflexivity|constructor]).
    destruct (normalizeMentions_run users_get (m :: ms) [] e)
      as (new & e' & ws & S & F & _).
    exists new, e'. split; [exact S|exact F]. }
  destruct N as (new & e' & -> & F).
  destruct new as [|m ms].
  - exists (mkComposed content contentType []), e', []. auto.
  - unfold liftC. rewrite processMentionsInHtml_Normal.
    eexists _, e', (m :: ms). split; [reflexivity|]. split; [reflexivity|].
    exact F.
Qed.

Lemma Forall_filter_true {A : Type} (f : A -> bool) (l : list A) :
  Forall (fun a => f a = true) (filter f l).
Proof.
  apply Forall_forall. intros a H. now apply filter_In in H.
Qed.

(** X23.  What the handler posts mentions each input that has an id, in
    the order of the inputs: an input with a user id as that user, and
    one with only a channel id as the conversation of that channel,
    named by the mention text of the input and of the identity type
    "channel". *)
Theorem send_to_channel_mentioned path sent failed teamId channelId message
  importance format mentions imageUrl imageData imageContentType
  imageFileName (h : HEnv World Attachment) :
  exists r h' cs,
    send path sent failed teamId channelId message importance format
      mentions imageUrl imageData imageContentType imageFileName h =
    (r, h') /\
    calls h' = (calls h ++ CallGetClient Attachment :: cs)%list /\
    forall p q,
      In (CallPost p q) cs ->
      Forall2
        (fun input g =>
           GraphMention.mentioned g =
             if is_user_input input
             then GraphMention.user (MentionInput.userId input)
             else GraphMention.conversation (MentionInput.channelId input)
                    (MentionInput.mention input) "channel")
        (filter has_id (array_of mentions))
        (array_of (payload_mentions q)).
Proof.
  open_run path sent failed teamId channelId message importance format
    mentions imageUrl imageData imageContentType imageFileName h.
  - eexists _, _, []. split; [exact Run|].
    unfold push. simpl. split; [reflexivity|]. intros p q [].
  - exists (Fulfilled result), h4, (csf ++ csi)%list. split; [exact Run|].
    assert (N : Forall (fun c => ~ post_call c) (csf ++ csi)).
    { apply Forall_app. split; [exact Pf | now apply Forall_image_not_post]. }
    calls_norm Ci Cf. split; [reflexivity|].
    intros p q H. exfalso. exact (@not_In_post _ p q N H).
  - eexists _, _, ((csf ++ csi) ++ [_])%list. split; [exact Run|].
    assert (N : Forall (fun c => ~ post_call c) (csf ++ csi)).
    { apply Forall_app. split; [exact Pf | now apply Forall_image_not_post]. }
    calls_norm Ci Cf. split; [reflexivity|].
    intros p q H. rewrite app_assoc in H.
    destruct (@In_post_last _ _ _ _ _ N H) as [-> ->].
    destruct (composeMentions_mappings (fst formatted) (snd formatted)
                mentions (env h2))
      as (composed0 & e0 & new & C0 & Fm & Fn).
    rewrite C in C0. inversion C0; subst composed0 e0; clear C0.
    assert (Gm := graphMentions_from_normalized Fn
                    (Forall_filter_true has_id (array_of mentions)) 0).
    rewrite <- Fm in Gm.
    unfold messagePayload. simpl.
    destruct (finalMentions composed); exact Gm.
  - eexists _, h4, (csf ++ csi)%list.
    split; [exact Run|].
    assert (N : Forall (fun c => ~ post_call c) (csf ++ csi)).
    { apply Forall_app. split; [exact Pf | now apply Forall_image_not_post]. }
    calls_norm Ci Cf. split; [reflexivity|].
    intros p q H. exfalso. exact (@not_In_post _ p q N H).
  - eexists _, h2, csf. split; [exact Run|].
    calls_norm Cf Cf. split; [reflexivity|].
    intros p q H. exfalso. exact (@not_In_post _ p q Pf H).
Qed.

(** ** send_chat_message *)

Local Abbreviation send_chat :=
  (@send_chat_message World TypeError_message Attachment users_get getClient
     markdownToHtml api_post).

(** One turn of the loop of the chat handler. *)
Lemma normalizeChatMention_step (mention : ChatMentionInput.t)
  (acc : list MentionMapping.t) (e : Env World) :
  exists displayName e' ws,
    normalizeChatMention users_get mention acc e =
      (Normal
         (acc ++ [MentionMapping.mk (ChatMentionInput.mention mention)
                    (Some (ChatMentionInput.userId mention)) None
                    displayName])%list, e') /\
    requests e' = (requests e ++ [ChatMentionInput.userId mention])%list /\
    warnings e' = (warnings e ++ ws)%list /\
    List.length ws <= 1 /\
    (ws <> [] ->
     displayName = ChatMentionInput.mention mention /\
     exists msg,
       fst (users_get (ChatMentionInput.userId mention) (world e))
       = Throw msg).
Proof.
  unfold normalizeChatMention, try_catch, bind, api_users_get.
  destruct (users_get _ (world e)) as [[name|msg] w] eqn:G; simpl.
  - eexists _, _, []. split; [reflexivity|]. simpl.
    rewrite app_nil_r. split; [reflexivity|]. split; [reflexivity|].
    split; [lia|]. intros N. now destruct N.
  - eexists _, _, [_]. split; [reflexivity|]. simpl.
    split; [reflexivity|]. split; [reflexivity|]. split; [lia|].
    intros _. split; [reflexivity|]. now exists msg.
Qed.

(** The whole loop of the chat handler. *)
Lemma normalizeChatMentions_run (mentions : list ChatMentionInput.t) :
  forall (acc : list MentionMapping.t) (e : Env World),
  exists new e' ws,
    normalizeChatMentions users_get mentions acc e =
      (Normal (acc ++ new)%list, e') /\
    map MentionMapping.mention new = map ChatMentionInput.mention mentions /\
    map MentionMapping.userId new =
      map (fun m => Some (ChatMentionInput.userId m)) mentions /\
    map MentionMapping.channelId new = map (fun _ => None) mentions /\
    requests e' = (requests e ++ map ChatMentionInput.userId mentions)%list /\
    warnings e' = (warnings e ++ ws)%list /\
    List.length ws <= List.length mentions /\
    ((forall id w, exists name, fst (users_get id w) = Normal name) ->
     ws = []).
Proof.
  induction mentions as [|m ms IH]; intros acc e.
  - exists [], e, []. simpl. rewrite !app_nil_r. repeat split; auto.
  - destruct (normalizeChatMention_step m acc e)
      as (d & e1 & ws1 & S1 & R1 & W1 & L1 & C1).
    destruct (IH (acc ++ [MentionMapping.mk (ChatMentionInput.mention m)
                            (Some (ChatMentionInput.userId m)) None d])%list
                e1)
      as (new2 & e2 & ws2 & S2 & Mt & Mu & Mc & R2 & W2 & L2 & Q2).
    eexists (_ :: new2), e2, (ws1 ++ ws2)%list.
    cbn [normalizeChatMentions]. unfold bind at 1. rewrite S1, S2.
    rewrite <- app_assoc. split; [reflexivity|].
    simpl. rewrite Mt, Mu, Mc, R2, R1, W2, W1, <- !app_assoc, length_app.
    repeat split; auto; [lia|].
    intros G. rewrite (Q2 G), app_nil_r.
    destruct ws1 as [|x ws1]; [reflexivity|].
    destruct C1 as [_ [msg T]]; [discriminate|].
    destruct (G (ChatMentionInput.userId m) (world e)) as [name N].
    congruence.
Qed.

Lemma graphMentions_from_users (mappings : list MentionMapping.t)
  (ids : list string) :
  map MentionMapping.userId mappings = map Some ids ->
  forall index,
    map GraphMention.mentioned (graphMentions_from index mappings) =
    map (fun id => GraphMention.user (Some id)) ids.
Proof.
  revert ids. induction mappings as [|m ms IH]; intros [|i ids] E index;
    simpl in *; try discriminate; [reflexivity|].
  inversion E as [[E1 E2]].
  unfold graphMention, isUserMentionMapping. rewrite E1. simpl.
  now rewrite (IH ids E2).
Qed.

(** What the chat handler composes from the mentions. *)
Lemma composeChatMentions_run (content contentType : string)
  (mentions : option (list ChatMentionInput.t)) (e : Env World) :
  exists composed e',
    composeChatMentions users_get content contentType mentions e =
      (Normal composed, e') /\
    map GraphMention.id (finalMentions composed) =
      seq 0 (List.length (array_of mentions)) /\
    map GraphMention.mentioned (finalMentions composed) =
      map (fun m => GraphMention.user (Some (ChatMentionInput.userId m)))
        (array_of mentions) /\
    (array_of mentions = [] ->
     composed = mkComposed content contentType [] /\ e' = e) /\
    (array_of mentions <> [] -> body_contentType composed = "html") /\
    requests e' =
      (requests e ++ map ChatMentionInput.userId (array_of mentions))%list.
Proof.
  unfold composeChatMentions, bind.
  destruct mentions as [[|m ms]|];
    try (simpl; exists (mkComposed content contentType []), e;
         rewrite app_nil_r; repeat split; auto; congruence).
  destruct (normalizeChatMentions_run (m :: ms) [] e)
    as (new & e' & ws & S & Mt & Mu & Mc & R & _).
  rewrite S. cbn [app array_of].
  destruct new as [|n ns]; [discriminate Mt|].
  unfold liftC. rewrite processMentionsInHtml_Normal.
  eexists _, e'. split; [reflexivity|].
  change (finalMentions _) with (graphMentions_from 0 (n :: ns)).
  rewrite graphMentions_from_ids.
  rewrite (graphMentions_from_users (n :: ns)
             (map ChatMentionInput.userId (m :: ms))), map_map;
    [|now rewrite map_map].
  rewrite <- (length_map MentionMapping.mention (n :: ns)), Mt, length_map.
  simpl in R. repeat split; auto; discriminate.
Qed.

(** X21.  The loop of the chat handler pushes one user mapping for
    every mention, in the order of the inputs and with the mention text
    and the user id of its input, whether the id is empty or not; it asks
    the directory once for every mention, with that id; it adds at most
    one warning for each, and it never throws. *)
Theorem normalizeChatMentions_every_mention
  (mentions : list ChatMentionInput.t) (acc : list MentionMapping.t)
  (e : Env World) :
  exists new e' ws,
    normalizeChatMentions users_get mentions acc e =
      (Normal (acc ++ new)%list, e') /\
    map MentionMapping.mention new = map ChatMentionInput.mention mentions /\
    map MentionMapping.userId new =
      map (fun m => Some (ChatMentionInput.userId m)) mentions /\
    map MentionMapping.channelId new = map (fun _ => None) mentions /\
    requests e' = (requests e ++ map ChatMentionInput.userId mentions)%list /\
    warnings e' = (warnings e ++ ws)%list /\
    List.length ws <= List.length mentions.
Proof.
  destruct (normalizeChatMentions_run mentions acc e)
    as (new & e' & ws & S & Mt & Mu & Mc & R & W & L & _).
  exists new, e', ws. auto 10.
Qed.


(** X22.  The chat handler makes no image call; it posts at most once,
    as its last call and to the messages of the chat.  What it posts has
    no attachments, the importance given or "normal", and mentions
    exactly when the array of mentions is not empty: then the content
    type is "html", and the mentions are user mentions of the user ids
    given, in the order given, with the sequence ids 0, 1, 2, ...; every
    one has been asked for in the directory.  A success comes only after
    the post.  The handler returns a result whenever neither the client,
    nor the conversion of markdown, nor the post throws [undefined] or
    [null]; what it throws otherwise is the TypeError of the read of the
    message in its [catch]. *)
Theorem send_chat_message_posts_once chatId message importance format
  mentions (h : HEnv World Attachment) :
  exists r h' cs,
    send_chat chatId message importance format mentions h = (r, h') /\
    calls h' = (calls h ++ CallGetClient Attachment :: cs)%list /\
    Forall (fun c => ~ image_call c) cs /\
    (forall p q,
        In (CallPost p q) cs ->
        p = "/me/chats/" ++ chatId ++ "/messages" /\
        (exists pre, cs = (pre ++ [CallPost p q])%list /\
                     Forall (fun c => ~ post_call c) pre) /\
        payload_attachments q = None /\
        payload_importance q = importance_or_normal importance /\
        (payload_mentions q = None <-> array_of mentions = []) /\
        (forall gs,
            payload_mentions q = Some gs ->
            payload_contentType q = "html" /\
            map GraphMention.id gs =
              seq 0 (List.length (array_of mentions)) /\
            map GraphMention.mentioned gs =
              map (fun m =>
                     GraphMention.user (Some (ChatMentionInput.userId m)))
                (array_of mentions)) /\
        requests (env h') =
          (requests (env h)
             ++ map ChatMentionInput.userId (array_of mentions))%list) /\
    (forall res,
        r = Fulfilled res ->
        isError res = false ->
        exists pre q,
          cs = (pre ++ [CallPost ("/me/chats/" ++ chatId ++ "/messages") q])%list)
    /\
    (forall error,
        r = Rejected error ->
        exists is_null, error = thrown_error (TypeError_message is_null)) /\
    (never_nullish getClient ->
     (forall m, never_nullish (markdownToHtml m)) ->
     (forall p q, never_nullish (api_post p q)) ->
     exists res, r = Fulfilled res).
Proof.
  assert (Ret : forall failed error,
             (exists w w', getClient w = (Rejected error, w')) \/
             (exists m w w', markdownToHtml m w = (Rejected error, w')) \/
             (exists p q w w', api_post p q w = (Rejected error, w')) ->
             never_nullish getClient ->
             (forall m, never_nullish (markdownToHtml m)) ->
             (forall p q, never_nullish (api_post p q)) ->
             exists res, caught TypeError_message failed error = Fulfilled res).
  { intros failed [msg|is_null] Src Ng Nm Np; [simpl; eauto|]. exfalso.
    destruct Src as [(w & w' & E)|[(m & w & w' & E)|(p & q & w & w' & E)]].
    - exact (Ng _ _ _ E).
    - exact (Nm _ _ _ _ E).
    - exact (Np _ _ _ _ _ E). }
  unfold send_chat_message, try_catchH, catch_error.
  unfold bindH at 1.
  destruct (call_run (CallGetClient Attachment) getClient h)
    as (r0 & w0 & G & ->).
  destruct r0 as [[]|error0].
  2:{ eexists _, _, []. split; [reflexivity|]. simpl.
      split; [reflexivity|]. split; [constructor|].
      split; [intros p q []|]. split; [|split].
      - intros res E. apply caught_Fulfilled in E. destruct E as [E _].
        rewrite E. discriminate.
      - intros e E. apply caught_Rejected in E.
        destruct E as (b & _ & ->). now exists b.
      - apply Ret. left. eauto. }
  unfold bindH at 1.
  destruct (formatContent_run format message
              (mkHEnv (mkEnv w0 (warnings (env h)) (requests (env h)))
                 (push (calls h) (CallGetClient Attachment))))
    as (rf & h2 & F & Wf & Rf & (csf & Cf & Pf & Pfi) & Ftext & Fmd).
  rewrite F. destruct rf as [formatted|error].
  2:{ eexists _, h2, csf.
      split; [reflexivity|]. calls_norm Cf Cf.
      split; [reflexivity|]. split; [exact Pfi|].
      split; [intros p q H; exfalso; exact (@not_In_post _ p q Pf H)|].
      split; [|split].
      - intros res E. apply caught_Fulfilled in E. destruct E as [E _].
        rewrite E. discriminate.
      - intros e E. apply caught_Rejected in E.
        destruct E as (b & _ & ->). now exists b.
      - apply Ret. right. left.
        destruct format as [[|]|];
          [destruct Ftext as [Q _]; [discriminate|discriminate Q]
          |
          |destruct Ftext as [Q _]; [discriminate|discriminate Q]].
        destruct (Fmd eq_refl) as (_ & r0 & w1 & Mk & Er).
        destruct r0; inversion Er; subst. eauto. }
  unfold bindH at 1.
  destruct (composeChatMentions_run (fst formatted) (snd formatted) mentions
              (env h2))
    as (composed & e' & C & Ids & Us & Cnone & Csome & R).
  unfold liftM at 1. rewrite C.
  unfold bindH.
  match goal with
  | |- context [call ?c ?f ?h0] =>
      destruct (call_run c f h0) as (rp & w & P & ->)
  end.
  assert (Q : forall p q,
             In (CallPost p q)
               (csf ++
                [CallPost ("/me/chats/" ++ chatId ++ "/messages")
                   (messagePayload composed importance [])])%list ->
             p = "/me/chats/" ++ chatId ++ "/messages" /\
             (exists pre,
                 (csf ++
                  [CallPost ("/me/chats/" ++ chatId ++ "/messages")
                     (messagePayload composed importance [])])%list
                 = (pre ++ [CallPost p q])%list /\
                 Forall (fun c => ~ post_call c) pre) /\
             payload_attachments q = None /\
             payload_importance q = importance_or_normal importance /\
             (payload_mentions q = None <-> array_of mentions = []) /\
             (forall gs,
                 payload_mentions q = Some gs ->
                 payload_contentType q = "html" /\
                 map GraphMention.id gs =
                   seq 0 (List.length (array_of mentions)) /\
                 map GraphMention.mentioned gs =
                   map (fun m =>
                          GraphMention.user
                            (Some (ChatMentionInput.userId m)))
                     (array_of mentions))).
  { intros p q H. destruct (@In_post_last _ _ _ _ _ Pf H) as [-> ->].
    split; [reflexivity|]. split; [exists csf; auto|].
    unfold messagePayload. simpl.
    split; [reflexivity|]. split; [reflexivity|].
    destruct (array_of mentions) as [|x xs] eqn:A.
    - destruct (Cnone eq_refl) as [-> _]. simpl.
      split; [tauto|]. discriminate.
    - assert (Hh : body_contentType composed = "html")
        by (apply Csome; discriminate).
      destruct (finalMentions composed) as [|g gs0] eqn:Fm;
        [discriminate Ids|].
      split; [split; discriminate|].
      intros gs E. inversion E; subst. auto. }
  destruct rp as [id|error];
    eexists _, _, (csf ++ [_])%list; (split; [reflexivity|]);
    calls_norm Cf Cf; (split; [reflexivity|]);
    (split; [apply Forall_app; split; [exact Pfi|];
             repeat constructor; simpl; tauto|]);
    (split; [intros p q H;
             destruct (Q p q H) as (Q1 & Q2 & Q3 & Q4 & Q5 & Q6);
             rewrite R, Rf; simpl; auto 10|]).
  - split; [intros _ _ _; eauto|]. split; [discriminate|eauto].
  - split; [|split].
    + intros res E. apply caught_Fulfilled in E. destruct E as [E _].
      rewrite E. discriminate.
    + intros e E. apply caught_Rejected in E.
      destruct E as (b & _ & ->). now exists b.
    + intros Ng Nm Np. apply Ret; auto. right; right. eauto.
Qed.

(** What the composition of the mentions asks and warns. *)
Lemma composeMentions_effects (content contentType : string)
  (mentions : option (list MentionInput.t)) (e : Env World) :
  exists composed e' ws,
    composeMentions users_get content contentType mentions e =
      (Normal composed, e') /\
    requests e' =
      (requests e ++
       map (fun m => value_of (MentionInput.userId m))
         (filter is_user_input (array_of mentions)))%list /\
    warnings e' = (warnings e ++ ws)%list /\
    List.length ws <= List.length (filter has_id (array_of mentions)).
Proof.
  unfold composeMentions, bind.
  assert (N : exists new e' ws,
             match mentions with
             | Some ((_ :: _) as l) => normalizeMentions users_get l []
             | _ => ret []
             end e = (Normal new, e') /\
             requests e' =
               (requests e ++
                map (fun m => value_of (MentionInput.userId m))
                  (filter is_user_input (array_of mentions)))%list /\
             warnings e' = (warnings e ++ ws)%list /\
             List.length ws
             <= List.length (filter has_id (array_of mentions))).
  { destruct mentions as [[|m ms]|];
      try solve [exists [], e, []; simpl; rewrite !app_nil_r; auto].
    destruct (normalizeMentions_run users_get (m :: ms) [] e)
      as (new & e' & ws & S & _ & R & W & L).
    exists new, e', ws. repeat split; auto. }
  destruct N as (new & e' & ws & -> & R & W & L).
  destruct new as [|m ms].
  - exists (mkComposed content contentType []), e', ws. repeat split; auto.
  - unfold liftC. rewrite processMentionsInHtml_Normal.
    eexists _, e', ws. repeat split; auto.
Qed.

(** X25.  With an image URL the image is the one downloaded: the image
    data, its content type and the test of the type play no part in what
    the handler does. *)
Theorem send_to_channel_url_first path sent failed teamId channelId message
  importance format mentions imageUrl imageData imageContentType
  imageFileName (h : HEnv World Attachment)
  (isValidImageType' : string -> bool)
  (imageData' imageContentType' : option string)
  (Hurl : truthy imageUrl = true) :
  send path sent failed teamId channelId message importance format
    mentions imageUrl imageData imageContentType imageFileName h =
  send_to_channel TypeError_message attachment_name users_get getClient
    markdownToHtml imageUrlToBase64 isValidImageType'
    uploadImageAsHostedContent api_post
    path sent failed teamId channelId message importance format
    mentions imageUrl imageData' imageContentType' imageFileName h.
Proof.
  unfold send_to_channel, imageAttachments. rewrite Hurl. reflexivity.
Qed.

(** X26.  The handler only adds to the requests and to the warnings.
    It asks the directory nothing, and warns of nothing, when the client
    cannot be had or the conversion of markdown throws; in every other
    run, whatever becomes of the image and of the post, it asks once for
    each input with a user id, in the order of the inputs, and warns at
    most once for each input with an id. *)
Theorem send_to_channel_requests path sent failed teamId channelId message
  importance format mentions imageUrl imageData imageContentType
  imageFileName (h : HEnv World Attachment) :
  exists r h' lookups ws,
    send path sent failed teamId channelId message importance format
      mentions imageUrl imageData imageContentType imageFileName h =
    (r, h') /\
    requests (env h') = (requests (env h) ++ lookups)%list /\
    warnings (env h') = (warnings (env h) ++ ws)%list /\
    List.length ws <= List.length (filter has_id (array_of mentions)) /\
    (forall error w,
        getClient (world (env h)) = (Rejected error, w) ->
        lookups = [] /\ ws = []) /\
    (forall w0 error w,
        getClient (world (env h)) = (Fulfilled tt, w0) ->
        format = Some format_markdown ->
        markdownToHtml message w0 = (Rejected error, w) ->
        lookups = [] /\ ws = []) /\
    (forall w0,
        getClient (world (env h)) = (Fulfilled tt, w0) ->
        (format <> Some format_markdown \/
         exists content w,
           markdownToHtml message w0 = (Fulfilled content, w)) ->
        lookups =
          map (fun m => value_of (MentionInput.userId m))
            (filter is_user_input (array_of mentions))).
Proof.
  open_run path sent failed teamId channelId message importance format
    mentions imageUrl imageData imageContentType imageFileName h;
    try (destruct (composeMentions_effects (fst formatted) (snd formatted)
                     mentions (env h2))
           as (composed0 & e0 & ws & C0 & Rc & Wc & Lc);
         rewrite C in C0; inversion C0; subst composed0 e0; clear C0).
  - eexists _, _, [], []. split; [exact Run|]. simpl.
    rewrite !app_nil_r. split; [reflexivity|]. split; [reflexivity|].
    split; [lia|]. split; [auto|]. split; [auto|].
    intros w1 G1. rewrite G in G1. discriminate G1.
  - eexists _, _, _, ws. split; [exact Run|].
    rewrite Ri, Wi. cbn [env requests warnings]. rewrite Rc, Wc, Rf, Wf.
    cbn [env requests warnings].
    split; [reflexivity|]. split; [reflexivity|]. split; [exact Lc|].
    split; [intros e1 w1 G1; rewrite G in G1; discriminate G1|].
    split; [|reflexivity].
    intros w1 e1 w2 G1 M K. rewrite G in G1. inversion G1; subst w1.
    destruct (Fmd M) as (_ & r0 & w3 & Mk & Er). simpl in Mk.
    rewrite K in Mk. inversion Mk; subst r0. discriminate Er.
  - eexists _, _, _, ws. split; [exact Run|].
    cbn [env requests warnings]. rewrite Ri, Wi.
    cbn [env requests warnings]. rewrite Rc, Wc, Rf, Wf.
    cbn [env requests warnings].
    split; [reflexivity|]. split; [reflexivity|]. split; [exact Lc|].
    split; [intros e1 w1 G1; rewrite G in G1; discriminate G1|].
    split; [|reflexivity].
    intros w1 e1 w2 G1 M K. rewrite G in G1. inversion G1; subst w1.
    destruct (Fmd M) as (_ & r0 & w3 & Mk & Er). simpl in Mk.
    rewrite K in Mk. inversion Mk; subst r0. discriminate Er.
  - eexists _, _, _, ws. split; [exact Run|].
    rewrite Ri, Wi. cbn [env requests warnings]. rewrite Rc, Wc, Rf, Wf.
    cbn [env requests warnings].
    split; [reflexivity|]. split; [reflexivity|]. split; [exact Lc|].
    split; [intros e1 w1 G1; rewrite G in G1; discriminate G1|].
    split; [|reflexivity].
    intros w1 e1 w2 G1 M K. rewrite G in G1. inversion G1; subst w1.
    destruct (Fmd M) as (_ & r0 & w3 & Mk & Er). simpl in Mk.
    rewrite K in Mk. inversion Mk; subst r0. discriminate Er.
  - eexists _, _, [], []. split; [exact Run|].
    rewrite Rf, Wf. cbn [env requests warnings]. rewrite !app_nil_r.
    split; [reflexivity|]. split; [reflexivity|]. split; [simpl; lia|].
    split; [auto|]. split; [auto|].
    intros w1 G1 [NM|(content & w2 & K)].
    + destruct (Ftext NM) as [Q _]. discriminate Q.
    + rewrite G in G1. inversion G1; subst w1.
      destruct format as [[|]|];
        [destruct Ftext as [Q _]; [discriminate|discriminate Q]
        |
        |destruct Ftext as [Q _]; [discriminate|discriminate Q]].
      destruct (Fmd eq_refl) as (_ & r0 & w3 & Mk & Er). simpl in Mk.
      rewrite K in Mk. inversion Mk; subst r0. discriminate Er.
Qed.

End HandlerFacts.

(** X24.  The schema leaves the loop of the handlers nothing to pass
    over: every element of an array it accepts has an id, so that each
    becomes a mention. *)
Theorem mentionsSchema_leaves_nothing_to_skip (l : list MentionInput.t) :
  mentionsSchema_refine l = true ->
  filter has_id l = l.
Proof.
  unfold mentionsSchema_refine.
  induction l as [|m l IH]; cbn [forallb filter]; intros H; [reflexivity|].
  apply andb_prop in H. destruct H as [Hm Hl].
  apply mentionsSchema_element_spec in Hm.
  assert (Hid : has_id m = true)
    by (unfold has_id; destruct Hm as [[-> _]|[-> ->]]; reflexivity).
  now rewrite Hid, (IH Hl).
Qed.

(** X14.  [validateChannelIdFormat] never throws and touches neither the
    directory nor the requests; it leaves the warnings as they are when
    the channel id has the shape of channel ids ("19:", a non-empty body
    of letters, digits, underscores and hyphens, "@thread.tacv2"), and
    adds exactly one warning when it has not. *)
Theorem validateChannelIdFormat_warns_off_shape (World : Type)
  (channelId mentionText : string) (e : Env World) :
  exists e',
    validateChannelIdFormat channelId mentionText e = (Normal tt, e') /\
    world e' = world e /\
    requests e' = requests e /\
    (channelId_shape channelId -> e' = e) /\
    (~ channelId_shape channelId ->
     exists msg, warnings e' = (warnings e ++ [msg])%list).
Proof.
  unfold validateChannelIdFormat.
  destruct (channelIdPattern_test channelId) eqn:T; simpl.
  - exists e. repeat split; auto.
    intros N. exfalso. now apply N, channelIdPattern_test_shape.
  - unfold console_warn. eexists. split; [reflexivity|]. simpl.
    split; [reflexivity|]. split; [reflexivity|]. split.
    + intros S. apply channelIdPattern_test_shape in S. congruence.
    + intros _. eexists. reflexivity.
Qed.

(* ================================================================== *)
(** * The further properties at concrete inputs *)

(** X1 at a user mention followed by a channel mention. *)
Lemma convertMentionInputsToMappings_elementwise_witness :
  List.length
    [MentionMapping.mk "John" (Some "user-123") None "John";
     MentionMapping.mk "General" None (Some "19:abc@thread.tacv2") "General"]
  = 2.
Proof.
  exact (proj1
           (@convertMentionInputsToMappings_elementwise
              [MentionInput.mk "John" (Some "user-123") None;
               MentionInput.mk "General" None (Some "19:abc@thread.tacv2")]
              [MentionMapping.mk "John" (Some "user-123") None "John";
               MentionMapping.mk "General" None (Some "19:abc@thread.tacv2")
                 "General"]
              eq_refl)).
Defined.

(** X2 at an input without id between two inputs with one. *)
Lemma convertMentionInputsToMappings_first_error_witness :
  convertMentionInputsToMappings
    [MentionInput.mk "John" (Some "user-123") None;
     MentionInput.mk "Nobody" None None;
     MentionInput.mk "Nothing" (Some EmptyString) None] =
  Throw ("Invalid mention: " ++ chr dquote ++ "Nobody" ++ chr dquote
           ++ " must have either userId or channelId").
Proof.
  exact (convertMentionInputsToMappings_first_error
           [MentionInput.mk "John" (Some "user-123") None]
           [MentionInput.mk "Nothing" (Some EmptyString) None]
           (MentionInput.mk "Nobody" None None) eq_refl eq_refl).
Defined.

(** X4 at a user mention followed by a channel mention. *)
Lemma mentionsSchema_then_conversion_witness :
  exists mappings,
    convertMentionInputsToMappings
      [MentionInput.mk "John" (Some "user-123") None;
       MentionInput.mk "General" None (Some "19:abc@thread.tacv2")] =
    Normal mappings.
Proof.
  destruct (mentionsSchema_then_conversion
              [MentionInput.mk "John" (Some "user-123") None;
               MentionInput.mk "General" None (Some "19:abc@thread.tacv2")]
              eq_refl) as (mappings & H & _).
  exists mappings. exact H.
Defined.

(** X24 at a user mention followed by a channel mention. *)
Lemma mentionsSchema_leaves_nothing_to_skip_witness :
  filter has_id
    [MentionInput.mk "John" (Some "user-123") None;
     MentionInput.mk "General" None (Some "19:abc@thread.tacv2")] =
  [MentionInput.mk "John" (Some "user-123") None;
   MentionInput.mk "General" None (Some "19:abc@thread.tacv2")].
Proof.
  exact (mentionsSchema_leaves_nothing_to_skip
           [MentionInput.mk "John" (Some "user-123") None;
            MentionInput.mk "General" None (Some "19:abc@thread.tacv2")]
           eq_refl).
Defined.

Section HandlerExamples.

(** A directory that knows nobody, a renderer that leaves the text, an
    image host that takes PNG only, a channel that numbers its messages,
    and the messages of the TypeErrors of V8. *)
Local Abbreviation nobody :=
  (fun (_ : string) (w : unit) =>
     (@Throw (option string) "Not found", w)).
Local Abbreviation client :=
  (fun w : unit => (Fulfilled tt, w)).
Local Abbreviation no_client :=
  (fun w : unit => (@Rejected unit (thrown_error "Not authenticated"), w)).
Local Abbreviation undefined_client :=
  (fun w : unit => (@Rejected unit (thrown_nullish false), w)).
Local Abbreviation render :=
  (fun (m : string) (w : unit) => (Fulfilled m, w)).
Local Abbreviation download :=
  (fun (_ : string) (w : unit) => (Fulfilled (@None ImageInfo), w)).
Local Abbreviation png_only :=
  (fun t : string => String.eqb t "image/png").
Local Abbreviation upload :=
  (fun (_ _ _ _ : string) (_ : option string) (w : unit) =>
     (Fulfilled (Some "image.png"), w)).
Local Abbreviation post :=
  (fun (_ : string) (_ : Payload string) (w : unit) =>
     (Fulfilled (Some "1"), w)).
Local Abbreviation cannot_read :=
  (fun is_null : bool =>
     if is_null
     then "Cannot read properties of null (reading 'message')"
     else "Cannot read properties of undefined (reading 'message')").
Local Abbreviation start :=
  (mkHEnv (mkEnv tt [] []) (@nil (Call string))).

(** X17 at a mention of a user the directory does not know. *)
Lemma send_to_channel_succeeds_witness :
  exists res h' pre q rest,
    send_to_channel cannot_read (fun a : string => a) nobody client render
      download png_only upload post "/teams/t/channels/c/messages" "Sent: "
      "Failed: " "t" "c" "Hello @John" None None
      (Some [MentionInput.mk "John" (Some "user-123") None])
      None None None None start = (Fulfilled res, h') /\
    isError res = false /\
    text res = "Sent: " ++ rest /\
    calls h' =
      (calls start ++ pre ++ [CallPost "/teams/t/channels/c/messages" q])%list.
Proof.
  apply (send_to_channel_succeeds cannot_read (fun a : string => a) nobody
           client render download png_only upload post).
  - intros w. exists w. reflexivity.
  - intros m w. exists m, w. reflexivity.
  - intros p q w. exists (Some "1"), w. reflexivity.
  - reflexivity.
  - reflexivity.
Defined.

(** X18 at a client that throws an error, and at one that throws
    [undefined]. *)
Lemma send_to_channel_without_client_witness :
  send_to_channel cannot_read (fun a : string => a) nobody no_client render
    download png_only upload post "/teams/t/channels/c/messages" "Sent: "
    "Failed: " "t" "c" "Hello @John" None None
    (Some [MentionInput.mk "John" (Some "user-123") None])
    (Some "https://example.com/a.png") None None None start =
  (Fulfilled (errorResult "Failed: Not authenticated"),
   mkHEnv (mkEnv tt [] []) [CallGetClient string]) /\
  send_to_channel cannot_read (fun a : string => a) nobody undefined_client
    render download png_only upload post "/teams/t/channels/c/messages"
    "Sent: " "Failed: " "t" "c" "Hello @John" None None
    (Some [MentionInput.mk "John" (Some "user-123") None])
    (Some "https://example.com/a.png") None None None start =
  (Rejected
     (thrown_error "Cannot read properties of undefined (reading 'message')"),
   mkHEnv (mkEnv tt [] []) [CallGetClient string]).
Proof.
  split.
  - exact (send_to_channel_without_client cannot_read (fun a : string => a)
             nobody no_client render download png_only upload post
             "/teams/t/channels/c/messages" "Sent: " "Failed: "
             "t" "c" "Hello @John" None None
             (Some [MentionInput.mk "John" (Some "user-123") None])
             (Some "https://example.com/a.png") None None None start
             eq_refl).
  - exact (send_to_channel_without_client cannot_read (fun a : string => a)
             nobody undefined_client render download png_only upload post
             "/teams/t/channels/c/messages" "Sent: " "Failed: "
             "t" "c" "Hello @John" None None
             (Some [MentionInput.mk "John" (Some "user-123") None])
             (Some "https://example.com/a.png") None None None start
             eq_refl).
Defined.

(** X19 at image data of a type that is not a valid one. *)
Lemma send_to_channel_image_failure_witness :
  exists r h' cs,
    send_to_channel cannot_read (fun a : string => a) nobody client render
      download png_only upload post "/teams/t/channels/c/messages" "Sent: "
      "Failed: " "t" "c" "Hello" None None None
      None (Some "Qk0=") (Some "image/bmp") None start = (r, h') /\
    (forall res, r = Fulfilled res -> isError res = true) /\
    calls h' = (calls start ++ cs)%list /\
    Forall (fun c => ~ post_call c) cs.
Proof.
  apply (send_to_channel_image_failure cannot_read (fun a : string => a)
           nobody client render download png_only upload post).
  right. left. repeat split; reflexivity.
Defined.

(** X20 at image data that comes without a content type. *)
Lemma send_to_channel_image_data_without_type_witness :
  exists r h' cs,
    send_to_channel cannot_read (fun a : string => a) nobody client render
      download png_only upload post "/teams/t/channels/c/messages" "Sent: "
      "Failed: " "t" "c" "Hello" None None None
      None (Some "Qk0=") None None start = (r, h') /\
    calls h' = (calls start ++ cs)%list /\
    Forall (fun c => ~ image_call c) cs /\
    (forall p q, In (CallPost p q) cs -> payload_attachments q = None) /\
    (forall res,
        r = Fulfilled res ->
        isError res = true -> exists m, text res = "Failed: " ++ m).
Proof.
  apply (send_to_channel_image_data_without_type cannot_read
           (fun a : string => a) nobody client render download png_only
           upload post);
    reflexivity.
Defined.

(** X25 at an image URL that comes with image data of another type. *)
Lemma send_to_channel_url_first_witness :
  send_to_channel cannot_read (fun a : string => a) nobody client render
    download png_only upload post "/teams/t/channels/c/messages" "Sent: "
    "Failed: " "t" "c" "Hello" None None None
    (Some "https://example.com/a.png") (Some "Qk0=") (Some "image/bmp") None
    start =
  send_to_channel cannot_read (fun a : string => a) nobody client render
    download (fun _ : string => true) upload post
    "/teams/t/channels/c/messages" "Sent: " "Failed: " "t" "c" "Hello"
    None None None (Some "https://example.com/a.png") None None None start.
Proof.
  apply send_to_channel_url_first. reflexivity.
Defined.

End HandlerExamples.
